(** * drawdb: the SQL exporters of [src/utils/toSQL.js]

    A shallow embedding of the five DDL generators ([jsonToMySQL],
    [jsonToPostgreSQL], [jsonToSQLite], [jsonToMariaDB], [jsonToSQLServer])
    and of the helpers of [src/utils/utils.js] they call, followed by the
    properties of the generated text.

    Conventions of the embedding.
    - A JavaScript string is the [string] of its UTF-8 bytes: an ASCII
      character is one byte below 128, every byte of another character is
      above 127. The tests of the source on quotes, brackets and word
      characters look at ASCII characters only, which the encoding keeps
      apart.
    - [String.prototype.toUpperCase] and [String.prototype.toLowerCase] are
      built-ins that follow the Unicode case mappings. They are the two
      operations of the class [CaseMapping]; the development knows of them
      what they do to ASCII text, and nothing else.
    - A property read on [undefined] raises a [TypeError]; code that can do
      so lives in the [result] monad. The fields of the records are always
      present.
    - An array interpolated into a template literal is converted with
      [Array.prototype.toString], that is joined with a comma.
    - The regular expression of [isFunction] is a [regex] matched by
      derivatives.
    - [sqlDataTypes] is imported by the source from [../data/constants];
      it is a variable of the development.

    The file has the embedding first, then the vocabulary of the properties,
    then the lemmas and theorems. *)

From Stdlib Require Import String Ascii List Bool Arith Lia.
From Stdlib Require Import DecimalString.
Import ListNotations.

Local Open Scope list_scope.
Local Open Scope string_scope.

(* ------------------------------------------------------------------ *)
(** ** Characters and strings *)

Definition nl : string := String "010"%char "".
Definition tab : string := String "009"%char "".
Definition dq : string := String "034"%char "".

(** [Array.prototype.join]. *)
Definition join (sep : string) (l : list string) : string := String.concat sep l.

(** An array converted to a string by a template literal. *)
Definition arrayToString (l : list string) : string := join "," l.

(** [Array.prototype.includes] on an array of strings. *)
Definition includes (l : list string) (x : string) : bool :=
  existsb (String.eqb x) l.

Definition isLowerLetter (c : ascii) : bool :=
  let n := nat_of_ascii c in ((97 <=? n) && (n <=? 122))%nat.

Definition isUpperLetter (c : ascii) : bool :=
  let n := nat_of_ascii c in ((65 <=? n) && (n <=? 90))%nat.

Definition isDigit (c : ascii) : bool :=
  let n := nat_of_ascii c in ((48 <=? n) && (n <=? 57))%nat.

(** The class [\w] of a regular expression. *)
Definition isWordChar (c : ascii) : bool :=
  isLowerLetter c || isUpperLetter c || isDigit c || Ascii.eqb c "_"%char.

Fixpoint forallb_string (p : ascii -> bool) (s : string) : bool :=
  match s with
  | EmptyString => true
  | String c s' => p c && forallb_string p s'
  end.

(** The last character of a string, [str[str.length - 1]]. *)
Fixpoint lastChar (s : string) : option ascii :=
  match s with
  | EmptyString => None
  | String c EmptyString => Some c
  | String _ s' => lastChar s'
  end.

Definition firstChar (s : string) : option ascii :=
  match s with
  | EmptyString => None
  | String c _ => Some c
  end.

(** [p] occurs in [s] as a substring. *)
Definition Occurs (p s : string) : Prop :=
  exists a b, s = a ++ p ++ b.

(** All suffixes of a string, the longest first. *)
Fixpoint suffixes (s : string) : list string :=
  s :: match s with
       | EmptyString => []
       | String _ s' => suffixes s'
       end.

(** The case mappings of ASCII text: the letters change case, every other
    byte stays. *)
Definition asciiUpperChar (c : ascii) : ascii :=
  let n := nat_of_ascii c in
  if ((97 <=? n) && (n <=? 122))%nat then ascii_of_nat (n - 32) else c.

Definition asciiLowerChar (c : ascii) : ascii :=
  let n := nat_of_ascii c in
  if ((65 <=? n) && (n <=? 90))%nat then ascii_of_nat (n + 32) else c.

Fixpoint mapString (f : ascii -> ascii) (s : string) : string :=
  match s with
  | EmptyString => EmptyString
  | String c s' => String (f c) (mapString f s')
  end.

Definition asciiUpperCase : string -> string := mapString asciiUpperChar.
Definition asciiLowerCase : string -> string := mapString asciiLowerChar.

Definition isAsciiChar (c : ascii) : bool := (nat_of_ascii c <? 128)%nat.

(** The string is ASCII text. *)
Definition isAscii (s : string) : bool := forallb_string isAsciiChar s.

(** [String.prototype.toUpperCase] and [String.prototype.toLowerCase].

    Both follow the Unicode case mappings, which the development does not
    spell out. On ASCII text they are the mappings above. [toUpperCase] maps
    a string character by character, so it maps an ASCII suffix on its own;
    [toLowerCase] looks at the context of a character (the final sigma),
    and no such law is stated of it. *)
Class CaseMapping : Type := {
  toUpperCase : string -> string;
  toLowerCase : string -> string;
  toUpperCase_ascii :
    forall s, isAscii s = true -> toUpperCase s = asciiUpperCase s;
  toLowerCase_ascii :
    forall s, isAscii s = true -> toLowerCase s = asciiLowerCase s;
  toUpperCase_ascii_suffix :
    forall s t, isAscii t = true ->
                toUpperCase (s ++ t) = toUpperCase s ++ asciiUpperCase t
}.

(** The case mapping of the strings that are ASCII text throughout. *)
Definition asciiCaseMapping : CaseMapping.
Proof.
  refine {| toUpperCase := asciiUpperCase; toLowerCase := asciiLowerCase |}.
  - intros s _. reflexivity.
  - intros s _. reflexivity.
  - intros s t _. induction s as [|c s IH]; [reflexivity|].
    cbn [append asciiUpperCase mapString] in *. now rewrite IH.
Defined.

(* ------------------------------------------------------------------ *)
(** ** Regular expressions

    The fragment of JavaScript regular expressions that [isFunction] uses:
    character classes, concatenation, alternation and iteration, matched
    by Brzozowski derivatives. *)

Inductive regex : Type :=
| REmpty : regex
| REps : regex
| RClass (p : ascii -> bool) : regex
| RSeq (r1 r2 : regex) : regex
| RAlt (r1 r2 : regex) : regex
| RStar (r : regex) : regex.

Definition RPlus (r : regex) : regex := RSeq r (RStar r).
Definition RChar (c : ascii) : regex := RClass (Ascii.eqb c).
Definition RNotChar (c : ascii) : regex := RClass (fun x => negb (Ascii.eqb c x)).

(** The words of a regular expression. *)
Inductive Matches : regex -> string -> Prop :=
| MEps : Matches REps ""
| MClass p c : p c = true -> Matches (RClass p) (String c "")
| MSeq r1 r2 s1 s2 : Matches r1 s1 -> Matches r2 s2 -> Matches (RSeq r1 r2) (s1 ++ s2)
| MAltL r1 r2 s : Matches r1 s -> Matches (RAlt r1 r2) s
| MAltR r1 r2 s : Matches r2 s -> Matches (RAlt r1 r2) s
| MStar0 r : Matches (RStar r) ""
| MStarS r s1 s2 : Matches r s1 -> Matches (RStar r) s2 -> Matches (RStar r) (s1 ++ s2).

Fixpoint nullable (r : regex) : bool :=
  match r with
  | REmpty => false
  | REps => true
  | RClass _ => false
  | RSeq r1 r2 => nullable r1 && nullable r2
  | RAlt r1 r2 => nullable r1 || nullable r2
  | RStar _ => true
  end.

Fixpoint deriv (c : ascii) (r : regex) : regex :=
  match r with
  | REmpty => REmpty
  | REps => REmpty
  | RClass p => if p c then REps else REmpty
  | RSeq r1 r2 =>
      if nullable r1
      then RAlt (RSeq (deriv c r1) r2) (deriv c r2)
      else RSeq (deriv c r1) r2
  | RAlt r1 r2 => RAlt (deriv c r1) (deriv c r2)
  | RStar r' => RSeq (deriv c r') (RStar r')
  end.

(** The whole string is a word of [r]. *)
Fixpoint matchAll (r : regex) (s : string) : bool :=
  match s with
  | EmptyString => nullable r
  | String c s' => matchAll (deriv c r) s'
  end.

(** [/r$/.test(s)]: some suffix of [s] is a word of [r]. *)
Definition testAtEnd (r : regex) (s : string) : bool :=
  existsb (matchAll r) (suffixes s).

(* ------------------------------------------------------------------ *)
(** ** Exceptions

    The only exception the generators can raise is the [TypeError] of a
    property read on [undefined]. *)

Inductive result (A : Type) : Type :=
| Ok (a : A) : result A
| TypeError : result A.

Arguments Ok {A} a.
Arguments TypeError {A}.

Definition bind {A B : Type} (m : result A) (k : A -> result B) : result B :=
  match m with
  | Ok a => k a
  | TypeError => TypeError
  end.

Notation "x <- m ;; k" := (bind m (fun x => k))
  (at level 61, m at next level, right associativity).

(** [Array.prototype.map] with a callback that may throw. *)
Fixpoint mapM {A B : Type} (f : A -> result B) (l : list A) : result (list B) :=
  match l with
  | [] => Ok []
  | x :: l' =>
      y <- f x ;;
      ys <- mapM f l' ;;
      Ok (y :: ys)
  end.

(** [a[i]] followed by a property read: [undefined] raises. *)
Definition at_index {A : Type} (l : list A) (i : nat) : result A :=
  match nth_error l i with
  | Some x => Ok x
  | None => TypeError
  end.

(* ------------------------------------------------------------------ *)
(** ** The generators, for any case mapping *)

Section Exporters.

Context {cm : CaseMapping}.

(* ------------------------------------------------------------------ *)
(** ** [src/utils/utils.js] *)

Definition isQuoteChar (c : ascii) : bool :=
  Ascii.eqb c "'"%char || Ascii.eqb c "034"%char || Ascii.eqb c "`"%char.

Definition charIs (o : option ascii) (c : ascii) : bool :=
  match o with
  | Some x => Ascii.eqb x c
  | None => false
  end.

Definition sameChar (a b : option ascii) : bool :=
  match a, b with
  | Some x, Some y => Ascii.eqb x y
  | _, _ => false
  end.

Definition strHasQuotes (str : string) : bool :=
  if (String.length str <? 2)%nat then false
  else
    (sameChar (firstChar str) (lastChar str) && charIs (firstChar str) "'"%char)
    || (sameChar (firstChar str) (lastChar str) && charIs (firstChar str) "034"%char)
    || (sameChar (firstChar str) (lastChar str) && charIs (firstChar str) "`"%char).

Definition keywords : list string := ["CURRENT_TIMESTAMP"; "NULL"].

Definition isKeyword (str : string) : bool :=
  includes keywords (toUpperCase str).

(** The regular expression [\w+\([^)]*\)$], without its end anchor. *)
Definition functionPattern : regex :=
  RSeq (RPlus (RClass isWordChar))
       (RSeq (RChar "("%char)
             (RSeq (RStar (RNotChar ")"%char)) (RChar ")"%char))).

Definition isFunction (str : string) : bool :=
  testAtEnd functionPattern str.

(* ------------------------------------------------------------------ *)
(** ** The diagram *)

(** The [size] of a field: a number, a string such as ["10,2"], or absent. *)
Inductive Size : Type :=
| SizeUndefined : Size
| SizeNumber (n : nat) : Size
| SizeString (s : string) : Size.

Definition stringOfNat (n : nat) : string :=
  NilEmpty.string_of_uint (Nat.to_uint n).

(** [`${size}`] *)
Definition sizeToString (sz : Size) : string :=
  match sz with
  | SizeUndefined => "undefined"
  | SizeNumber n => stringOfNat n
  | SizeString s => s
  end.

(** The truth value of [field.size] in a condition. *)
Definition sizeTruthy (sz : Size) : bool :=
  match sz with
  | SizeUndefined => false
  | SizeNumber n => negb (n =? 0)%nat
  | SizeString s => negb (s =? "")
  end.

(** [field.size !== ""] *)
Definition sizeNotEmptyString (sz : Size) : bool :=
  match sz with
  | SizeString s => negb (s =? "")
  | _ => true
  end.

Record Field : Type := mkField {
  f_name : string;
  f_type : string;
  f_size : Size;
  f_values : list string;
  f_notNull : bool;
  f_unique : bool;
  f_increment : bool;
  f_primary : bool;
  f_default : string;
  f_check : string;
  f_comment : string
}.

Record Index : Type := mkIndex {
  i_name : string;
  i_unique : bool;
  i_fields : list string
}.

Record Table : Type := mkTable {
  t_id : nat;
  t_name : string;
  t_comment : string;
  t_fields : list Field;
  t_indices : list Index
}.

Record Reference : Type := mkReference {
  r_startTableId : nat;
  r_startFieldId : nat;
  r_endTableId : nat;
  r_endFieldId : nat;
  r_updateConstraint : string;
  r_deleteConstraint : string
}.

(** A user-defined composite type. *)
Record CType : Type := mkCType {
  ty_name : string;
  ty_comment : string;
  ty_fields : list Field
}.

Record Diagram : Type := mkDiagram {
  d_tables : list Table;
  d_references : list Reference;
  d_types : list CType
}.

(** [`${x}`] where [x] may be [undefined]. *)
Definition interpolate (o : option string) : string :=
  match o with
  | Some s => s
  | None => "undefined"
  end.

Definition quoted (q : string) (v : string) : string := q ++ v ++ q.

(* ------------------------------------------------------------------ *)
(** ** Type predicates of [toSQL.js] *)

Definition isSized (type : string) : bool :=
  includes ["CHAR"; "VARCHAR"; "BINARY"; "VARBINARY"; "TEXT"] type.

Definition hasPrecision (type : string) : bool :=
  includes ["DOUBLE"; "NUMERIC"; "DECIMAL"; "FLOAT"] type.

Definition hasCheck (type : string) : bool :=
  includes ["INT"; "SMALLINT"; "BIGINT"; "CHAR"; "VARCHAR"; "FLOAT";
            "DECIMAL"; "DOUBLE"; "NUMERIC"; "REAL"] type.

Definition hasQuotes (type : string) : bool :=
  includes ["CHAR"; "VARCHAR"; "BINARY"; "VARBINARY"; "ENUM"; "DATE";
            "TIME"; "TIMESTAMP"; "DATETIME"] type.

(** [getSize]: the default size of a type, a number or the empty string. *)
#[warnings="-abstract-large-number"] Definition getSize (type : string) : Size :=
  if (type =? "CHAR") || (type =? "BINARY") then SizeNumber 1
  else if (type =? "VARCHAR") || (type =? "VARBINARY") then SizeNumber 255
  else if type =? "TEXT" then SizeNumber 65535
  else SizeString "".

Definition parseDefault (field : Field) : string :=
  if strHasQuotes (f_default field)
     || isFunction (f_default field)
     || isKeyword (f_default field)
     || negb (hasQuotes (f_type field))
  then f_default field
  else "'" ++ f_default field ++ "'".

Definition isEnumOrSet (f : Field) : bool :=
  (f_type f =? "ENUM") || (f_type f =? "SET").

(** [getSQLiteType] *)
Definition getSQLiteType (field : Field) : string :=
  if includes ["INT"; "SMALLINT"; "BIGINT"; "BOOLEAN"] (f_type field) then "INTEGER"
  else if includes ["DECIMAL"; "NUMERIC"; "FLOAT"; "DOUBLE"; "REAL"] (f_type field) then "REAL"
  else if includes ["CHAR"; "VARCHAR"; "UUID"; "TEXT"; "DATE"; "TIME"; "TIMESTAMP";
                    "DATETIME"; "BINARY"; "VARBINARY"] (f_type field) then "TEXT"
  else if f_type field =? "ENUM" then
    "TEXT CHECK(" ++ dq ++ f_name field ++ dq ++ " in ("
      ++ join ", " (map (quoted "'") (f_values field)) ++ "))"
  else "BLOB".

(** How a [case] of a [switch] ends: with a [return] or with a [break]. *)
Inductive SwitchEnd : Type :=
| Return (s : string) : SwitchEnd
| Break (type : string) : SwitchEnd.

(** The branch [dbms === "mssql"] of [getTypeString]. *)
Definition getTypeString_mssql (field : Field) (baseType : bool) : string :=
  let type := f_type field in
  match
    if type =? "ENUM" then
      Return (if baseType then "NVARCHAR(255)"
              else "NVARCHAR(255) CHECK([" ++ f_name field ++ "] in ("
                     ++ join ", " (map (quoted "'") (f_values field)) ++ "))")
    else if type =? "VARCHAR" then Break "NVARCHAR"
    else if type =? "UUID" then Break "UNIQUEIDENTIFIER"
    else if type =? "DOUBLE" then Break "FLOAT"
    else if type =? "BOOLEAN" then Return "BIT"
    else if type =? "SET" then Return "NVARCHAR(255)"
    else if type =? "BLOB" then Return "VARBINARY(MAX)"
    else if type =? "JSON" then Return "NVARCHAR(MAX)"
    else if type =? "TEXT" then Return "TEXT"
    else Break type
  with
  | Return s => s
  | Break type' =>
      if isSized type then type' ++ "(" ++ sizeToString (f_size field) ++ ")"
      else type'
  end.

(** The branch [dbms === "postgres"] of [getTypeString]. *)
Definition getTypeString_postgres (field : Field) : string :=
  let type := f_type field in
  if (type =? "SMALLINT") && f_increment field then "smallserial"
  else if (type =? "INT") && f_increment field then "serial"
  else if (type =? "BIGINT") && f_increment field then "bigserial"
  else if type =? "ENUM" then f_name field ++ "_t"
  else if type =? "SET" then f_name field ++ "_t[]"
  else if type =? "TIMESTAMP" then "TIMESTAMPTZ"
  else if type =? "DATETIME" then "timestamp"
  else if isSized type then
    (if type =? "BINARY" then "bit"
     else if type =? "VARBINARY" then "bit varying"
     else toLowerCase type)
    ++ "(" ++ sizeToString (f_size field) ++ ")"
  else if hasPrecision type && sizeNotEmptyString (f_size field) then
    type ++ sizeToString (f_size field)
  else toLowerCase type.

(* ------------------------------------------------------------------ *)
(** ** The generators *)

Section ToSQL.

(** The array [sqlDataTypes] of [src/data/constants], the names of the
    built-in types. *)
Variable sqlDataTypes : list string.

Definition getJsonType (f : Field) : string :=
  if negb (includes sqlDataTypes (f_type f)) then
    "{ " ++ dq ++ "type" ++ dq ++ " : " ++ dq ++ "object" ++ dq
      ++ ", additionalProperties : true }"
  else if includes ["INT"; "SMALLINT"; "BIGINT"; "DECIMAL"; "NUMERIC"; "REAL"; "FLOAT"]
            (f_type f) then
    "{ " ++ dq ++ "type" ++ dq ++ " : " ++ dq ++ "number" ++ dq ++ " }"
  else if f_type f =? "BOOLEAN" then
    "{ " ++ dq ++ "type" ++ dq ++ " : " ++ dq ++ "boolean" ++ dq ++ " }"
  else if f_type f =? "JSON" then
    "{ " ++ dq ++ "type" ++ dq ++ " : " ++ dq ++ "object" ++ dq ++ ", "
      ++ dq ++ "additionalProperties" ++ dq ++ " : true }"
  else if f_type f =? "ENUM" then
    "{" ++ nl ++ tab ++ tab ++ tab ++ tab ++ tab
      ++ dq ++ "type" ++ dq ++ " : " ++ dq ++ "string" ++ dq ++ ","
      ++ nl ++ tab ++ tab ++ tab ++ tab ++ tab
      ++ dq ++ "enum" ++ dq ++ " : [" ++ join ", " (map (quoted dq) (f_values f)) ++ "]"
      ++ nl ++ tab ++ tab ++ tab ++ tab ++ "}"
  else if f_type f =? "SET" then
    "{" ++ nl ++ tab ++ tab ++ tab ++ tab ++ tab
      ++ dq ++ "type" ++ dq ++ ": " ++ dq ++ "array" ++ dq ++ ","
      ++ nl ++ tab ++ tab ++ tab ++ tab ++ tab
      ++ dq ++ "items" ++ dq ++ ": {"
      ++ nl ++ tab ++ tab ++ tab ++ tab ++ tab ++ tab
      ++ dq ++ "type" ++ dq ++ ": " ++ dq ++ "string" ++ dq ++ ","
      ++ nl ++ tab ++ tab ++ tab ++ tab ++ tab ++ tab
      ++ dq ++ "enum" ++ dq ++ ": [" ++ join ", " (map (quoted dq) (f_values f)) ++ "]"
      ++ nl ++ tab ++ tab ++ tab ++ tab ++ tab ++ "}"
      ++ nl ++ tab ++ tab ++ tab ++ tab ++ "}"
  else
    "{ " ++ dq ++ "type" ++ dq ++ " : " ++ dq ++ "string" ++ dq ++ "}".

(** One entry of ["properties"]. *)
Definition schemaProperty (f : Field) : string :=
  dq ++ f_name f ++ dq ++ " : " ++ getJsonType f.

(** [generateSchema] of a type that exists. *)
Definition generateSchemaOf (type : CType) : string :=
  "{" ++ nl ++ tab ++ tab ++ tab
    ++ dq ++ "$schema" ++ dq ++ ": " ++ dq
    ++ "http://json-schema.org/draft-04/schema#" ++ dq ++ ","
    ++ nl ++ tab ++ tab ++ tab
    ++ dq ++ "type" ++ dq ++ ": " ++ dq ++ "object" ++ dq ++ ","
    ++ nl ++ tab ++ tab ++ tab
    ++ dq ++ "properties" ++ dq ++ ": {"
    ++ nl ++ tab ++ tab ++ tab ++ tab
    ++ join ("," ++ nl ++ tab ++ tab ++ tab ++ tab) (map schemaProperty (ty_fields type))
    ++ nl ++ tab ++ tab ++ tab ++ "},"
    ++ nl ++ tab ++ tab ++ tab
    ++ dq ++ "additionalProperties" ++ dq ++ ": false"
    ++ nl ++ tab ++ tab ++ "}".

(** [generateSchema]: its argument is the result of [Array.prototype.find],
    and [type.fields] raises when nothing was found. *)
Definition generateSchema (type : option CType) : result string :=
  match type with
  | Some t => Ok (generateSchemaOf t)
  | None => TypeError
  end.

(** The branch [dbms === "mysql"] of [getTypeString]. *)
Definition getTypeString_mysql (field : Field) : string :=
  let type := f_type field in
  if type =? "UUID" then "VARCHAR(36)"
  else if hasPrecision type || isSized type then
    type ++ (if sizeTruthy (f_size field)
             then "(" ++ sizeToString (f_size field) ++ ")" else "")
  else if (type =? "SET") || (type =? "ENUM") then
    type ++ "(" ++ join ", " (map (quoted dq) (f_values field)) ++ ")"
  else if negb (includes sqlDataTypes type) then "JSON"
  else type.

(** [getTypeString]: [None] is the [undefined] the function returns for a
    [dbms] that is none of the three it knows. *)
Definition getTypeString (field : Field) (dbms : string) (baseType : bool)
  : option string :=
  if dbms =? "mysql" then Some (getTypeString_mysql field)
  else if dbms =? "postgres" then Some (getTypeString_postgres field)
  else if dbms =? "mssql" then Some (getTypeString_mssql field baseType)
  else None.

(** *** Clauses shared by the generators

    The five generators repeat the same template with other delimiters;
    [qo] and [qc] are the opening and the closing identifier quote. *)

Definition lineComment (field : Field) : string :=
  if f_comment field =? "" then "" else tab ++ "-- " ++ f_comment field ++ nl.

(** [/* comment */] before [CREATE TABLE] (MySQL, SQLite, MariaDB). *)
Definition blockComment (comment : string) : string :=
  if comment =? "" then "" else "/* " ++ comment ++ " */" ++ nl.

(** The comment of PostgreSQL and SQL Server, on lines of its own. *)
Definition docComment (comment : string) : string :=
  if comment =? "" then "" else "/**" ++ nl ++ comment ++ nl ++ "*/" ++ nl.

Definition notNullClause (field : Field) : string :=
  if f_notNull field then " NOT NULL" else "".

Definition uniqueClause (field : Field) : string :=
  if f_unique field then " UNIQUE" else "".

Definition defaultClause (field : Field) : string :=
  if negb (f_default field =? "") then " DEFAULT " ++ parseDefault field else "".

(** The [CHECK] of PostgreSQL, SQLite and SQL Server. *)
Definition checkClause (field : Field) : string :=
  if (f_check field =? "") || negb (hasCheck (f_type field)) then ""
  else " CHECK(" ++ f_check field ++ ")".

(** The [CHECK] of MySQL and MariaDB: a field of a user-defined type is
    validated against the schema of that type; [q] quotes the schema. *)
Definition jsonCheckClause (q : string) (obj : Diagram) (field : Field)
  : result string :=
  if (f_check field =? "") || negb (hasCheck (f_type field)) then
    if negb (includes sqlDataTypes (f_type field)) then
      schema <- generateSchema
                  (find (fun t => ty_name t =? toLowerCase (f_type field))
                        (d_types obj)) ;;
      Ok (" CHECK(" ++ nl ++ tab ++ tab ++ "JSON_SCHEMA_VALID(" ++ q ++ schema ++ q
            ++ ", `" ++ f_name field ++ "`))")
    else Ok ""
  else Ok (" CHECK(" ++ f_check field ++ ")").

(** The names of the fields flagged [primary], in declaration order. *)
Definition primaryNames (table : Table) : list string :=
  map f_name (filter f_primary (t_fields table)).

Definition hasPrimary (table : Table) : bool :=
  (0 <? List.length (filter f_primary (t_fields table)))%nat.

Definition primaryKeyText (qo qc : string) (table : Table) : string :=
  "," ++ nl ++ tab ++ "PRIMARY KEY("
    ++ join ", " (map (fun f => qo ++ f_name f ++ qc)
                      (filter f_primary (t_fields table)))
    ++ ")".

Definition primaryKeyClause (qo qc : string) (table : Table) : string :=
  if hasPrimary table then primaryKeyText qo qc table else "".

(** One [CREATE INDEX]; [ifNotExists] and [terminator] vary with the dialect. *)
Definition createIndex (qo qc ifNotExists terminator : string)
  (table : Table) (i : Index) : string :=
  nl ++ "CREATE " ++ (if i_unique i then "UNIQUE " else "") ++ "INDEX " ++ ifNotExists
    ++ qo ++ i_name i ++ qc ++ nl ++ "ON " ++ qo ++ t_name table ++ qc ++ " ("
    ++ join ", " (map (fun f => qo ++ f ++ qc) (i_fields i)) ++ ");" ++ terminator.

(** [ON UPDATE ... ON DELETE ...] of a reference. *)
Definition referentialActions (r : Reference) : string :=
  "ON UPDATE " ++ toUpperCase (r_updateConstraint r)
    ++ " ON DELETE " ++ toUpperCase (r_deleteConstraint r).

(** One [ALTER TABLE ... ADD FOREIGN KEY]. *)
Definition alterTable (qo qc terminator : string) (obj : Diagram) (r : Reference)
  : result string :=
  startTable <- at_index (d_tables obj) (r_startTableId r) ;;
  startField <- at_index (t_fields startTable) (r_startFieldId r) ;;
  endTable <- at_index (d_tables obj) (r_endTableId r) ;;
  endField <- at_index (t_fields endTable) (r_endFieldId r) ;;
  Ok ("ALTER TABLE " ++ qo ++ t_name startTable ++ qc ++ nl
        ++ "ADD FOREIGN KEY(" ++ qo ++ f_name startField ++ qc ++ ") REFERENCES "
        ++ qo ++ t_name endTable ++ qc ++ "(" ++ qo ++ f_name endField ++ qc ++ ")" ++ nl
        ++ referentialActions r ++ ";" ++ terminator).

(** *** MySQL *)

Definition mysqlField (obj : Diagram) (field : Field) : result string :=
  chk <- jsonCheckClause dq obj field ;;
  Ok (lineComment field ++ tab ++ "`" ++ f_name field ++ "` "
        ++ interpolate (getTypeString field "mysql" false)
        ++ notNullClause field
        ++ (if f_increment field then " AUTO_INCREMENT" else "")
        ++ uniqueClause field
        ++ defaultClause field
        ++ chk
        ++ (if negb (f_comment field =? "")
            then " COMMENT '" ++ f_comment field ++ "'" else "")).

Definition mysqlTable (obj : Diagram) (table : Table) : result string :=
  columns <- mapM (mysqlField obj) (t_fields table) ;;
  Ok (blockComment (t_comment table)
        ++ "CREATE TABLE `" ++ t_name table ++ "` (" ++ nl
        ++ join ("," ++ nl) columns
        ++ primaryKeyClause "`" "`" table
        ++ nl ++ ")"
        ++ (if negb (t_comment table =? "")
            then " COMMENT='" ++ t_comment table ++ "'" else "")
        ++ ";" ++ nl
        ++ (if (0 <? List.length (t_indices table))%nat
            then nl ++ arrayToString (map (createIndex "`" "`" "" "" table)
                                          (t_indices table))
            else "")).

Definition jsonToMySQL (obj : Diagram) : result string :=
  tables <- mapM (mysqlTable obj) (d_tables obj) ;;
  references <- mapM (alterTable "`" "`" "" obj) (d_references obj) ;;
  Ok (join nl tables ++ nl ++ join nl references).

(** *** MariaDB *)

Definition mariadbField (obj : Diagram) (field : Field) : result string :=
  chk <- jsonCheckClause "'" obj field ;;
  Ok (lineComment field ++ tab ++ "`" ++ f_name field ++ "` "
        ++ interpolate (getTypeString field "mysql" false)
        ++ notNullClause field
        ++ (if f_increment field then " AUTO_INCREMENT" else "")
        ++ uniqueClause field
        ++ defaultClause field
        ++ chk).

Definition mariadbTable (obj : Diagram) (table : Table) : result string :=
  columns <- mapM (mariadbField obj) (t_fields table) ;;
  Ok (blockComment (t_comment table)
        ++ "CREATE OR REPLACE TABLE `" ++ t_name table ++ "` (" ++ nl
        ++ join ("," ++ nl) columns
        ++ primaryKeyClause "`" "`" table
        ++ nl ++ ");"
        ++ (if (0 <? List.length (t_indices table))%nat
            then nl ++ arrayToString (map (createIndex "`" "`" "" "" table)
                                          (t_indices table))
            else "")).

Definition jsonToMariaDB (obj : Diagram) : result string :=
  tables <- mapM (mariadbTable obj) (d_tables obj) ;;
  references <- mapM (alterTable "`" "`" "" obj) (d_references obj) ;;
  Ok (join nl tables ++ nl ++ join nl references).

(** *** PostgreSQL *)

(** The [CREATE TYPE ... AS ENUM] that backs an [ENUM] or [SET] field. *)
Definition createEnumType (terminator : string) (f : Field) : string :=
  "CREATE TYPE " ++ dq ++ f_name f ++ "_t" ++ dq ++ " AS ENUM ("
    ++ join ", " (map (quoted "'") (f_values f)) ++ ");" ++ terminator.

Definition postgresTypeField (f : Field) : string :=
  tab ++ f_name f ++ " " ++ interpolate (getTypeString f "postgres" false).

Definition postgresType (type : CType) : string :=
  let typeStatements :=
    map (createEnumType nl) (filter isEnumOrSet (ty_fields type)) in
  if (0 <? List.length typeStatements)%nat then
    join "" typeStatements
      ++ docComment (ty_comment type)
      ++ "CREATE TYPE " ++ ty_name type ++ " AS (" ++ nl
      ++ join nl (map postgresTypeField (ty_fields type)) ++ nl ++ ");"
  else
    docComment (ty_comment type)
      ++ "CREATE TYPE " ++ ty_name type ++ " AS (" ++ nl
      ++ join nl (map postgresTypeField (ty_fields type)) ++ nl ++ ");".

Definition postgresField (field : Field) : string :=
  lineComment field ++ tab ++ dq ++ f_name field ++ dq ++ " "
    ++ interpolate (getTypeString field "postgres" false)
    ++ notNullClause field
    ++ defaultClause field
    ++ checkClause field.

Definition postgresTable (table : Table) : string :=
  docComment (t_comment table)
    ++ (if (0 <? List.length (filter isEnumOrSet (t_fields table)))%nat
        then arrayToString (map (createEnumType (nl ++ nl))
                                (filter isEnumOrSet (t_fields table)))
        else "")
    ++ "CREATE TABLE " ++ dq ++ t_name table ++ dq ++ " (" ++ nl
    ++ join ("," ++ nl) (map postgresField (t_fields table))
    ++ primaryKeyClause dq dq table
    ++ nl ++ ");" ++ nl
    ++ (if (0 <? List.length (t_indices table))%nat
        then arrayToString (map (createIndex dq dq "" "" table) (t_indices table))
        else "").

Definition jsonToPostgreSQL (obj : Diagram) : result string :=
  references <- mapM (alterTable dq dq "" obj) (d_references obj) ;;
  Ok (arrayToString (map postgresType (d_types obj)) ++ nl
        ++ join nl (map postgresTable (d_tables obj)) ++ nl
        ++ join nl references).

(** *** SQLite *)

(** The clause that [getInlineFK] builds for the reference [r]. *)
Definition inlineFKClause (table : Table) (obj : Diagram) (r : Reference)
  : result string :=
  startField <- at_index (t_fields table) (r_startFieldId r) ;;
  endTable <- at_index (d_tables obj) (r_endTableId r) ;;
  endField <- at_index (t_fields endTable) (r_endFieldId r) ;;
  Ok ("FOREIGN KEY (" ++ dq ++ f_name startField ++ dq ++ ") REFERENCES "
        ++ dq ++ t_name endTable ++ dq ++ "(" ++ dq ++ f_name endField ++ dq ++ ")"
        ++ nl ++ tab ++ referentialActions r).

(** The body of the [forEach] of [getInlineFK]; [fk] is the variable the
    callback assigns. *)
Definition inlineFKStep (table : Table) (obj : Diagram)
  (acc : result string) (r : Reference) : result string :=
  fk <- acc ;;
  if negb (fk =? "") then Ok fk
  else if (r_startTableId r =? t_id table)%nat then inlineFKClause table obj r
  else Ok fk.

Definition getInlineFK (table : Table) (obj : Diagram) : result string :=
  fold_left (inlineFKStep table obj) (d_references obj) (Ok "").

Definition sqliteField (field : Field) : string :=
  lineComment field ++ tab ++ dq ++ f_name field ++ dq ++ " "
    ++ getSQLiteType field
    ++ notNullClause field
    ++ uniqueClause field
    ++ defaultClause field
    ++ checkClause field.

Definition sqliteTable (obj : Diagram) (table : Table) : result string :=
  inlineFK <- getInlineFK table obj ;;
  Ok (blockComment (t_comment table)
        ++ "CREATE TABLE IF NOT EXISTS " ++ dq ++ t_name table ++ dq ++ " (" ++ nl
        ++ join ("," ++ nl) (map sqliteField (t_fields table))
        ++ (if hasPrimary table
            then primaryKeyText dq dq table
                   ++ (if negb (inlineFK =? "") then "," ++ nl else "")
            else "")
        ++ tab ++ inlineFK ++ nl ++ ");" ++ nl
        ++ (if (0 <? List.length (t_indices table))%nat
            then join nl (map (createIndex dq dq "IF NOT EXISTS " "" table)
                              (t_indices table))
            else "")).

Definition jsonToSQLite (obj : Diagram) : result string :=
  tables <- mapM (sqliteTable obj) (d_tables obj) ;;
  Ok (join nl tables).

(** *** SQL Server *)

Definition sqlServerType (type : CType) : result string :=
  base <- (if (List.length (ty_fields type) <? 0)%nat then Ok ""
           else
             field <- at_index (ty_fields type) 0 ;;
             Ok (interpolate (getTypeString field "mssql" true))) ;;
  Ok (docComment (ty_comment type)
        ++ "CREATE TYPE [" ++ ty_name type ++ "] FROM " ++ base ++ ";"
        ++ nl ++ "GO" ++ nl).

Definition sqlServerField (field : Field) : string :=
  lineComment field ++ tab ++ "[" ++ f_name field ++ "] "
    ++ interpolate (getTypeString field "mssql" false)
    ++ notNullClause field
    ++ (if f_increment field then " IDENTITY" else "")
    ++ uniqueClause field
    ++ defaultClause field
    ++ checkClause field.

Definition sqlServerTable (table : Table) : string :=
  docComment (t_comment table)
    ++ "CREATE TABLE [" ++ t_name table ++ "] (" ++ nl
    ++ join ("," ++ nl) (map sqlServerField (t_fields table))
    ++ primaryKeyClause "[" "]" table
    ++ nl ++ ");" ++ nl ++ "GO" ++ nl
    ++ (if (0 <? List.length (t_indices table))%nat
        then arrayToString (map (createIndex "[" "]" "" (nl ++ "GO" ++ nl) table)
                                (t_indices table))
        else "").

Definition jsonToSQLServer (obj : Diagram) : result string :=
  types <- mapM sqlServerType (d_types obj) ;;
  references <- mapM (alterTable "[" "]" (nl ++ "GO") obj) (d_references obj) ;;
  Ok (join nl types ++ nl
        ++ join nl (map sqlServerTable (d_tables obj)) ++ nl
        ++ join nl references).

End ToSQL.

(* ------------------------------------------------------------------ *)
(** ** Sample diagrams *)

(** Modelled from the spec: the array [sqlDataTypes] of [src/data/constants]
    is not among the sources; this is the fixed vocabulary of type names that
    the specification and [toSQL.js] mention. It stands for [sqlDataTypes] in
    the examples. *)
Definition builtinTypes : list string :=
  ["INT"; "SMALLINT"; "BIGINT"; "DECIMAL"; "NUMERIC"; "FLOAT"; "DOUBLE"; "REAL";
   "CHAR"; "VARCHAR"; "TEXT"; "DATE"; "TIME"; "TIMESTAMP"; "DATETIME"; "BOOLEAN";
   "BINARY"; "VARBINARY"; "BLOB"; "JSON"; "UUID"; "ENUM"; "SET"].

Definition plainField (name type : string) : Field :=
  mkField name type SizeUndefined [] false false false false "" "" "".

Definition statusField : Field :=
  mkField "status" "ENUM" SizeUndefined ["active"; "banned"]
          false false false false "" "" "".

Definition usersTable : Table :=
  mkTable 0 "users" ""
    [ mkField "id" "INT" SizeUndefined [] false false true true "" "" "";
      statusField ]
    [ mkIndex "by_status" false ["status"];
      mkIndex "by_id" true ["id"] ].

Definition ordersTable : Table :=
  mkTable 1 "orders" ""
    [ plainField "id" "INT"; plainField "user_id" "INT" ]
    [].

Definition shopReference : Reference := mkReference 1 1 0 0 "No Action" "cascade".

(** Two tables and a reference from [orders.user_id] to [users.id]. *)
Definition shopDiagram : Diagram :=
  mkDiagram [usersTable; ordersTable] [shopReference] [].

(** Two references start at the table [orders]; the second is dropped by
    SQLite. *)
Definition secondReference : Reference := mkReference 1 0 0 1 "Cascade" "Set null".

Definition twoReferencesDiagram : Diagram :=
  mkDiagram [usersTable; ordersTable] [ shopReference; secondReference ] [].

Definition enumFieldWithDefault : Field :=
  mkField "status" "ENUM" SizeUndefined ["active"; "banned"]
          false false false false "active" "" "".

Definition textFieldWithDefault : Field :=
  mkField "note" "TEXT" SizeUndefined [] false false false false "hello" "" "".

Definition uuidFieldWithDefault : Field :=
  mkField "key" "UUID" SizeUndefined [] false false false false "123e4567" "" "".

Definition blobFieldWithDefault : Field :=
  mkField "data" "BLOB" SizeUndefined [] false false false false "abc" "" "".

Definition dateFieldWithDefault : Field :=
  mkField "d" "DATE" SizeUndefined [] false false false false "2020-01-01" "" "".

Definition intFieldWithDefault : Field :=
  mkField "n" "INT" SizeUndefined [] false false false false "7" "" "".

Definition pointField : Field := plainField "location" "POINT".

(** A [VARCHAR] field whose default value ends with a function call. *)
Definition textWithCallField : Field :=
  mkField "c" "VARCHAR" (SizeNumber 255) [] false false false false
          "abc foo(1)" "" "".

(** A table with a field of a type that the diagram does not declare. *)
Definition undeclaredTypeDiagram : Diagram :=
  mkDiagram [mkTable 0 "places" "" [pointField] []] [] [].

Definition pointType : CType := mkCType "point" "" [plainField "x" "POINT"].

Definition nestedCallField : Field :=
  mkField "c" "VARCHAR" (SizeNumber 255) [] false false false false
          "lower(trim(x))" "" "".

Definition stateField : Field :=
  mkField "state" "ENUM" SizeUndefined ["open"; "closed"]
          false false false false "" "" "".

Definition tagsField : Field :=
  mkField "tags" "SET" SizeUndefined ["bug"; "feature"]
          false false false false "" "" "".

(** A table with two enumerated fields. *)
Definition twoEnumsTable : Table :=
  mkTable 0 "tickets" "" [stateField; tagsField] [].

(** A composite type with the same two fields, and another type. *)
Definition labelType : CType := mkCType "label" "" (t_fields twoEnumsTable).

Definition typesDiagram : Diagram :=
  mkDiagram [twoEnumsTable] [] [labelType; pointType].

(** A table with a field of the declared type [point]. *)
Definition declaredTypeDiagram : Diagram :=
  mkDiagram [mkTable 0 "places" "" [pointField] []] [] [pointType].

(** A field that is flagged [notNull], [unique] and [increment] and has a
    default value. *)
Definition codeField : Field :=
  mkField "code" "INT" SizeUndefined [] true true true false "7" "" "".

Definition priceField (sz : Size) : Field :=
  mkField "price" "DECIMAL" sz [] false false false false "" "" "".

(* ------------------------------------------------------------------ *)
(** ** Vocabulary of the properties *)

(** *** Default values *)

Definition notCloseParen (c : ascii) : bool := negb (Ascii.eqb ")"%char c).

(** A string is a function call for [isFunction] when it ends with a word,
    an opening parenthesis, text without closing parenthesis, and a closing
    parenthesis; what comes before the word is free. *)
Definition EndsWithCall (str : string) : Prop :=
  exists pre w args,
    str = pre ++ w ++ "(" ++ args ++ ")"
    /\ w <> ""
    /\ forallb_string isWordChar w = true
    /\ forallb_string notCloseParen args = true.

(** The value is enclosed in one pair of equal quote characters. *)
Definition QuoteDelimited (str : string) : Prop :=
  exists q body, isQuoteChar q = true /\ str = String q (body ++ String q "").

(** The upper case of the value is a keyword. *)
Definition IsKeyword (str : string) : Prop :=
  toUpperCase str = "CURRENT_TIMESTAMP" \/ toUpperCase str = "NULL".

(** The types whose default value is a quoted literal. *)
Definition quotedTypes : list string :=
  ["CHAR"; "VARCHAR"; "BINARY"; "VARBINARY"; "ENUM"; "DATE"; "TIME";
   "TIMESTAMP"; "DATETIME"].

(** The rule of the specification for the serializer of default values. It
    lists the types that need no quoting: numeric, boolean, JSON, enum/set
    and opaque types. *)
Definition numericTypes : list string :=
  ["INT"; "SMALLINT"; "BIGINT"; "DECIMAL"; "NUMERIC"; "FLOAT"; "DOUBLE"; "REAL"].

Definition specNoQuoting (sqlDataTypes : list string) (type : string) : bool :=
  includes numericTypes type
  || (type =? "BOOLEAN") || (type =? "JSON")
  || (type =? "ENUM") || (type =? "SET")
  || negb (includes sqlDataTypes type).

Definition serializeDefault_spec (sqlDataTypes : list string) (field : Field) : string :=
  if strHasQuotes (f_default field) then f_default field
  else if isFunction (f_default field) then f_default field
  else if isKeyword (f_default field) then f_default field
  else if specNoQuoting sqlDataTypes (f_type field) then f_default field
  else "'" ++ f_default field ++ "'".

(** *** Type names and JSON text *)

(** The type names that the mapping functions single out. *)
Definition namedTypes : list string :=
  ["INT"; "SMALLINT"; "BIGINT"; "DECIMAL"; "NUMERIC"; "FLOAT"; "DOUBLE"; "REAL";
   "CHAR"; "VARCHAR"; "TEXT"; "DATE"; "TIME"; "TIMESTAMP"; "DATETIME"; "BOOLEAN";
   "BINARY"; "VARBINARY"; "BLOB"; "JSON"; "UUID"; "ENUM"; "SET"].

(** JSON text without its insignificant white space. *)
Definition isJsonSpace (c : ascii) : bool :=
  Ascii.eqb c " "%char || Ascii.eqb c "009"%char || Ascii.eqb c "010"%char
  || Ascii.eqb c "013"%char.

Fixpoint stripWhitespace (s : string) : string :=
  match s with
  | EmptyString => EmptyString
  | String c s' =>
      if isJsonSpace c then stripWhitespace s' else String c (stripWhitespace s')
  end.

(** The object the specification announces for a field of an unknown type. *)
Definition permissiveObject : string :=
  "{" ++ dq ++ "type" ++ dq ++ ":" ++ dq ++ "object" ++ dq ++ ","
    ++ dq ++ "additionalProperties" ++ dq ++ ":true}".

(** *** Diagrams on which the generators return *)

(** The reference points at tables and fields of the diagram. *)
Definition referenceInRange (obj : Diagram) (r : Reference) : bool :=
  match nth_error (d_tables obj) (r_startTableId r),
        nth_error (d_tables obj) (r_endTableId r) with
  | Some startTable, Some endTable =>
      (r_startFieldId r <? List.length (t_fields startTable))%nat
      && (r_endFieldId r <? List.length (t_fields endTable))%nat
  | _, _ => false
  end.

Definition referencesResolve (obj : Diagram) : bool :=
  forallb (referenceInRange obj) (d_references obj).

(** The field is of a built-in type, or has a [CHECK] of its own, or its
    type is declared in the diagram. *)
Definition typeResolves (sqlDataTypes : list string) (obj : Diagram) (field : Field) : bool :=
  if ((f_check field =? "") || negb (hasCheck (f_type field)))
     && negb (includes sqlDataTypes (f_type field))
  then match find (fun t => ty_name t =? toLowerCase (f_type field)) (d_types obj) with
       | Some _ => true
       | None => false
       end
  else true.

Definition typesResolve (sqlDataTypes : list string) (obj : Diagram) : bool :=
  forallb (fun t => forallb (typeResolves sqlDataTypes obj) (t_fields t)) (d_tables obj).

(** What [getInlineFK] reads for a reference that starts at [table]. *)
Definition inlineReferenceInRange (obj : Diagram) (table : Table) (r : Reference) : bool :=
  if (r_startTableId r =? t_id table)%nat then
    (r_startFieldId r <? List.length (t_fields table))%nat
    && match nth_error (d_tables obj) (r_endTableId r) with
       | Some endTable => (r_endFieldId r <? List.length (t_fields endTable))%nat
       | None => false
       end
  else true.

Definition inlineReferencesResolve (obj : Diagram) : bool :=
  forallb (fun t => forallb (inlineReferenceInRange obj t) (d_references obj))
          (d_tables obj).

Definition typesHaveFields (obj : Diagram) : bool :=
  forallb (fun ty => negb (List.length (ty_fields ty) =? 0)%nat) (d_types obj).

(** The statement of the table is produced and stands in the output. *)
Definition InOutput (out stmt : result string) : Prop :=
  exists o s, out = Ok o /\ stmt = Ok s /\ Occurs s o.

(** *** Occurrences *)

(** [x] occurs in [s], and [y] occurs after it. *)
Definition OccursBefore (x y s : string) : Prop :=
  exists a b c, s = a ++ x ++ b ++ y ++ c.

(** [p] occurs in [s] at one place only. *)
Definition OccursOnce (p s : string) : Prop :=
  exists a b, s = a ++ p ++ b
              /\ forall a' b', s = a' ++ p ++ b' -> a' = a /\ b' = b.

(** The values in their order, each between two quote marks [q], with a
    comma and a space between two of them. *)
Fixpoint valuesText (q : string) (values : list string) : string :=
  match values with
  | [] => ""
  | v :: rest =>
      match rest with
      | [] => q ++ v ++ q
      | _ :: _ => q ++ v ++ q ++ ", " ++ valuesText q rest
      end
  end.

(** The values of an enumeration, quoted and separated. *)
Definition enumValues (q : string) (field : Field) : string :=
  valuesText q (f_values field).

(** The reference starts at the table. *)
Definition startsAt (table : Table) (r : Reference) : bool :=
  (r_startTableId r =? t_id table)%nat.

(** The clause that lists the primary key of a table. *)
Definition primaryKeyList (qo qc : string) (table : Table) : string :=
  "," ++ nl ++ tab ++ "PRIMARY KEY("
    ++ join ", " (map (fun n => qo ++ n ++ qc) (primaryNames table)) ++ ")".

(** The field with another [primary] flag. *)
Definition setPrimary (b : bool) (f : Field) : Field :=
  mkField (f_name f) (f_type f) (f_size f) (f_values f) (f_notNull f)
          (f_unique f) (f_increment f) b (f_default f) (f_check f) (f_comment f).

(** *** Absence of a pattern *)

Fixpoint prefixb (a s : string) : bool :=
  match a, s with
  | EmptyString, _ => true
  | String x a', String y s' => Ascii.eqb x y && prefixb a' s'
  | String _ _, EmptyString => false
  end.

Definition suffixb (a s : string) : bool := existsb (String.eqb a) (suffixes s).

Definition occursb (p s : string) : bool := existsb (prefixb p) (suffixes s).

(** The ways of writing [s] as [a ++ b] with [a] not empty. *)
Fixpoint splits (s : string) : list (string * string) :=
  match s with
  | EmptyString => []
  | String c s' =>
      (String c "", s') :: map (fun ab => (String c (fst ab), snd ab)) (splits s')
  end.

(** The cuts of [s] in two parts, none empty. *)
Definition cuts (s : string) : list (string * string) :=
  filter (fun ab => negb (snd ab =? "")) (splits s).

(** To show that a pattern [p] is absent from a generated text, the text is
    read from left to right. A text [w] read so far is clean when no proper
    prefix of [p] ends it, so that what follows cannot complete an occurrence
    begun in [w]. [Passes p pre post s] says that reading [s] after any text
    free of [p] (clean, when [pre] holds) gives a text free of [p] (clean,
    when [post] holds). *)
Definition NoOcc (p s : string) : Prop := ~ Occurs p s.

Definition Clean (p w : string) : Prop :=
  forall a b x, p = a ++ b -> a <> "" -> b <> "" -> w <> x ++ a.

Definition Passes (p : string) (pre post : bool) (s : string) : Prop :=
  forall w, NoOcc p w -> (pre = true -> Clean p w) ->
            NoOcc p (w ++ s) /\ (post = true -> Clean p (w ++ s)).

(** What a literal must satisfy to pass. *)
Definition literalPasses (p : string) (pre post : bool) (l : string) : bool :=
  negb (occursb p l)
  && (pre || forallb (fun ab => negb (prefixb (snd ab) l)) (cuts p))
  && (negb post
      || forallb (fun ab => negb (suffixb (fst ab) l)
                            && (pre || negb (suffixb l (fst ab))))
                 (cuts p)).

(** No proper suffix of [p] starts [p]. *)
Definition unbordered (p : string) : bool :=
  forallb (fun ab => negb (prefixb (snd ab) p)) (cuts p).

(** The texts of a diagram that are free of [p], as a test and as a
    proposition. *)
Definition freeOf (p s : string) : bool := negb (occursb p s).

Definition cleanField (p : string) (f : Field) : bool :=
  freeOf p (f_name f) && freeOf p (f_type f) && freeOf p (toLowerCase (f_type f))
  && freeOf p (sizeToString (f_size f)) && forallb (freeOf p) (f_values f)
  && freeOf p (f_default f) && freeOf p (f_check f) && freeOf p (f_comment f).

Definition cleanIndex (p : string) (i : Index) : bool :=
  freeOf p (i_name i) && forallb (freeOf p) (i_fields i).

Definition cleanTable (p : string) (t : Table) : bool :=
  freeOf p (t_name t) && freeOf p (t_comment t)
  && forallb (cleanField p) (t_fields t) && forallb (cleanIndex p) (t_indices t).

Definition cleanReference (p : string) (r : Reference) : bool :=
  freeOf p (toUpperCase (r_updateConstraint r))
  && freeOf p (toUpperCase (r_deleteConstraint r)).

Definition cleanCType (p : string) (ty : CType) : bool :=
  freeOf p (ty_name ty) && freeOf p (ty_comment ty)
  && forallb (cleanField p) (ty_fields ty).

(** Every text that the generators copy from the diagram is free of [p]. *)
Definition cleanDiagram (p : string) (obj : Diagram) : bool :=
  forallb (cleanTable p) (d_tables obj)
  && forallb (cleanReference p) (d_references obj)
  && forallb (cleanCType p) (d_types obj).

Record CleanField (p : string) (f : Field) : Prop := {
  clean_name : NoOcc p (f_name f);
  clean_type : NoOcc p (f_type f);
  clean_lower_type : NoOcc p (toLowerCase (f_type f));
  clean_size : NoOcc p (sizeToString (f_size f));
  clean_values : forall v, In v (f_values f) -> NoOcc p v;
  clean_default : NoOcc p (f_default f);
  clean_check : NoOcc p (f_check f);
  clean_comment : NoOcc p (f_comment f)
}.

Record CleanIndex (p : string) (i : Index) : Prop := {
  clean_index_name : NoOcc p (i_name i);
  clean_index_fields : forall f, In f (i_fields i) -> NoOcc p f
}.

Record CleanTable (p : string) (t : Table) : Prop := {
  clean_table_name : NoOcc p (t_name t);
  clean_table_comment : NoOcc p (t_comment t);
  clean_table_fields : forall f, In f (t_fields t) -> CleanField p f;
  clean_table_indices : forall i, In i (t_indices t) -> CleanIndex p i
}.

Record CleanReference (p : string) (r : Reference) : Prop := {
  clean_update : NoOcc p (toUpperCase (r_updateConstraint r));
  clean_delete : NoOcc p (toUpperCase (r_deleteConstraint r))
}.

Record CleanCType (p : string) (ty : CType) : Prop := {
  clean_ctype_name : NoOcc p (ty_name ty);
  clean_ctype_comment : NoOcc p (ty_comment ty);
  clean_ctype_fields : forall f, In f (ty_fields ty) -> CleanField p f
}.

Record CleanDiagram (p : string) (obj : Diagram) : Prop := {
  clean_tables : forall t, In t (d_tables obj) -> CleanTable p t;
  clean_references : forall r, In r (d_references obj) -> CleanReference p r;
  clean_types : forall ty, In ty (d_types obj) -> CleanCType p ty
}.

(** The patterns whose absence is shown. *)
Definition primaryKeyWords : string := "PRIMARY KEY".
Definition alterTableWords : string := "ALTER TABLE".
Definition foreignKeyWords : string := "FOREIGN KEY".
Definition commaBeforeCreate : string := "," ++ nl ++ "CREATE".

(** The statement [stmt] of a table with a primary field: the name of the
    table and the opening parenthesis, the column lines, the primary key
    clause, the text [between], and the closing parenthesis on a line of its
    own. *)
Definition PrimaryKeyPlace (qo qc : string) (table : Table)
  (columns between stmt : string) : Prop :=
  exists intro rest,
    stmt = intro ++ qo ++ t_name table ++ qc ++ " (" ++ nl
             ++ columns ++ primaryKeyList qo qc table ++ between
             ++ nl ++ ")" ++ rest.

(** [stmt] is made of the text [before], the column lines, the primary key
    clause and the text [after]; when the diagram is clean, the words
    [PRIMARY KEY] occur neither before the clause nor after it. *)
Definition TableParts (qo qc : string) (obj : Diagram) (table : Table)
  (columns between stmt : string) : Prop :=
  (hasPrimary table = true -> PrimaryKeyPlace qo qc table columns between stmt)
  /\ exists before after,
       stmt = before ++ columns ++ primaryKeyClause qo qc table ++ after
       /\ (CleanDiagram primaryKeyWords obj -> In table (d_tables obj) ->
           Passes primaryKeyWords true false (before ++ columns)
           /\ Passes primaryKeyWords false false after).

(** What holds of the statement [stmt] of a table whose column lines are
    [columns]: with a primary field, the clause follows the column lines
    inside the parentheses of the statement, and the words [PRIMARY KEY]
    occur once when the texts of the diagram do not carry them; without a
    primary field, they do not occur. *)
Definition PrimaryKeyRule (qo qc : string) (obj : Diagram) (table : Table)
  (columns between stmt : string) : Prop :=
  (hasPrimary table = true -> PrimaryKeyPlace qo qc table columns between stmt)
  /\ (cleanDiagram primaryKeyWords obj = true ->
      (hasPrimary table = true -> OccursOnce primaryKeyWords stmt)
      /\ (hasPrimary table = false -> NoOcc primaryKeyWords stmt)).

(** *** Changes of a field *)

(** The field with another [default]. *)
Definition setDefault (d : string) (f : Field) : Field :=
  mkField (f_name f) (f_type f) (f_size f) (f_values f) (f_notNull f)
          (f_unique f) (f_increment f) (f_primary f) d (f_check f) (f_comment f).

(** The field with another flag or text. *)
Definition setUnique (b : bool) (f : Field) : Field :=
  mkField (f_name f) (f_type f) (f_size f) (f_values f) (f_notNull f)
          b (f_increment f) (f_primary f) (f_default f) (f_check f) (f_comment f).

Definition setIncrement (b : bool) (f : Field) : Field :=
  mkField (f_name f) (f_type f) (f_size f) (f_values f) (f_notNull f)
          (f_unique f) b (f_primary f) (f_default f) (f_check f) (f_comment f).

Definition setSize (sz : Size) (f : Field) : Field :=
  mkField (f_name f) (f_type f) sz (f_values f) (f_notNull f)
          (f_unique f) (f_increment f) (f_primary f) (f_default f) (f_check f)
          (f_comment f).

Definition setCheck (c : string) (f : Field) : Field :=
  mkField (f_name f) (f_type f) (f_size f) (f_values f) (f_notNull f)
          (f_unique f) (f_increment f) (f_primary f) (f_default f) c (f_comment f).

(** The field with other [values]. *)
Definition setValues (vs : list string) (f : Field) : Field :=
  mkField (f_name f) (f_type f) (f_size f) vs (f_notNull f)
          (f_unique f) (f_increment f) (f_primary f) (f_default f) (f_check f)
          (f_comment f).

(** The table and the diagram with each field of a table changed by [g]. *)
Definition mapTableFields (g : Field -> Field) (t : Table) : Table :=
  mkTable (t_id t) (t_name t) (t_comment t) (map g (t_fields t)) (t_indices t).

Definition mapFields (g : Field -> Field) (obj : Diagram) : Diagram :=
  mkDiagram (map (mapTableFields g) (d_tables obj)) (d_references obj) (d_types obj).

(** The types that PostgreSQL turns into a serial type. *)
Definition hasSerial (type : string) : bool :=
  includes ["SMALLINT"; "INT"; "BIGINT"] type.

(** What PostgreSQL does not read: the flag [unique], and the flag
    [increment] of a type without serial counterpart. *)
Definition postgresUnread (u v : Field -> bool) (f : Field) : Field :=
  setUnique (u f) (if hasSerial (f_type f) then f else setIncrement (v f) f).

(** What SQLite does not read: the flag [increment] and the size. *)
Definition sqliteUnread (v : Field -> bool) (sz : Field -> Size) (f : Field) : Field :=
  setSize (sz f) (setIncrement (v f) f).

(** Another check expression for the fields whose type takes none. *)
Definition uncheckedUnread (c : Field -> string) (f : Field) : Field :=
  if hasCheck (f_type f) then f else setCheck (c f) f.

(** *** The references that SQLite reads *)

(** What [jsonToSQLite] reads of the references: for each table, the first
    reference that starts at it. *)
Definition firstReferenceResolves (obj : Diagram) (table : Table) : bool :=
  match find (startsAt table) (d_references obj) with
  | Some r => inlineReferenceInRange obj table r
  | None => true
  end.

Definition firstReferencesResolve (obj : Diagram) : bool :=
  forallb (firstReferenceResolves obj) (d_tables obj).

(** *** Order *)

(** The texts of [l] occur in [s] one after the other, in the order of [l]. *)
Fixpoint InOrder (l : list string) (s : string) : Prop :=
  match l with
  | [] => True
  | x :: l' => exists a b, s = a ++ x ++ b /\ InOrder l' b
  end.

(** *** Columns and indices *)

(** The check of MySQL and MariaDB against the schema of a type. *)
Definition schemaCheck (sqlDataTypes : list string) (q : string)
  (type : CType) (field : Field) : string :=
  " CHECK(" ++ nl ++ tab ++ tab ++ "JSON_SCHEMA_VALID(" ++ q
    ++ generateSchemaOf sqlDataTypes type ++ q ++ ", `" ++ f_name field ++ "`))".

(** The words of the column constraints. *)
Definition notNullWords : string := "NOT NULL".
Definition uniqueWord : string := "UNIQUE".
Definition defaultWord : string := "DEFAULT".
Definition autoIncrementWord : string := "AUTO_INCREMENT".
Definition identityWord : string := "IDENTITY".
Definition serialWord : string := "serial".

(** The word stands in the column exactly when the flag is set. *)
Definition WordFollowsFlag (word : string) (flag : bool) (line : string) : Prop :=
  Occurs word line <-> flag = true.

(** The column has the clause of the default value of the field, or not the
    word [DEFAULT] when the field has no default value. *)
Definition DefaultRule (field : Field) (line : string) : Prop :=
  (f_default field <> "" -> Occurs (" DEFAULT " ++ parseDefault field) line)
  /\ (f_default field = "" -> NoOcc defaultWord line).

(** The delimiters, the option and the terminator of [CREATE INDEX] in the
    five generators: MySQL and MariaDB, PostgreSQL, SQLite, SQL Server. *)
Definition indexDialects : list (string * string * string * string) :=
  [ ("`", "`", "", ""); (dq, dq, "", ""); (dq, dq, "IF NOT EXISTS ", "");
    ("[", "]", "", nl ++ "GO" ++ nl) ].

(** *** Brackets *)

(** The number of occurrences of a character. *)
Fixpoint countChar (c : ascii) (s : string) : nat :=
  match s with
  | EmptyString => 0
  | String x s' => (if Ascii.eqb c x then 1 else 0) + countChar c s'
  end.

(** The text has as many opening as closing braces, and as many opening as
    closing square brackets. *)
Definition Balanced (s : string) : Prop :=
  countChar "{" s = countChar "}" s /\ countChar "[" s = countChar "]" s.

Definition bracketFree (s : string) : bool :=
  forallb_string (fun c => negb (Ascii.eqb c "{" || Ascii.eqb c "}"
                                 || Ascii.eqb c "[" || Ascii.eqb c "]")) s.

(** The names and the values of the fields have no brace and no bracket. *)
Definition plainNames (type : CType) : bool :=
  forallb (fun f => bracketFree (f_name f) && forallb bracketFree (f_values f))
          (ty_fields type).

(* ------------------------------------------------------------------ *)
(** * Properties *)

(** ** Strings *)

Lemma append_assoc (a b c : string) : (a ++ b) ++ c = a ++ b ++ c.
Proof. induction a as [|x a IH]; simpl; [reflexivity | now rewrite IH]. Qed.

Lemma append_nil_r (a : string) : a ++ "" = a.
Proof. induction a as [|x a IH]; simpl; [reflexivity | now rewrite IH]. Qed.

Lemma append_eq_nil (a b : string) : a ++ b = "" -> a = "" /\ b = "".
Proof. destruct a; simpl; [auto | discriminate]. Qed.

Lemma length_append (a b : string) :
  String.length (a ++ b) = String.length a + String.length b.
Proof. induction a as [|x a IH]; simpl; [reflexivity | now rewrite IH]. Qed.

Lemma append_inv_head (a b c : string) : a ++ b = a ++ c -> b = c.
Proof.
  induction a as [|x a IH]; simpl; intros H; [assumption|].
  injection H as H. auto.
Qed.

(** Two ways of cutting the same string: one cut lies before the other. *)
Lemma append_eq_append (a b c d : string) :
  a ++ b = c ++ d ->
  (exists e, c = a ++ e /\ b = e ++ d) \/ (exists e, a = c ++ e /\ d = e ++ b).
Proof.
  revert c. induction a as [|x a IH]; intros c H; simpl in H.
  - left. exists c. auto.
  - destruct c as [|y c]; simpl in H.
    + right. exists (String x a). auto.
    + injection H as -> H. destruct (IH _ H) as [[e [-> ->]] | [e [-> ->]]].
      * left. exists e. auto.
      * right. exists e. auto.
Qed.

Lemma Occurs_refl (p : string) : Occurs p p.
Proof. exists "", "". simpl. now rewrite append_nil_r. Qed.

Lemma Occurs_head (p b : string) : Occurs p (p ++ b).
Proof. now exists "", b. Qed.

Lemma Occurs_skip (p a s : string) : Occurs p s -> Occurs p (a ++ s).
Proof.
  intros [x [y ->]]. exists (a ++ x), y. now rewrite append_assoc.
Qed.

Lemma Occurs_left (p s b : string) : Occurs p s -> Occurs p (s ++ b).
Proof.
  intros [x [y ->]]. exists x, (y ++ b). now rewrite !append_assoc.
Qed.

Lemma Occurs_trans (p q s : string) : Occurs p q -> Occurs q s -> Occurs p s.
Proof.
  intros [x [y ->]] [u [v ->]]. exists (u ++ x), (y ++ v).
  now rewrite !append_assoc.
Qed.

Lemma Occurs_cons (p : string) (c : ascii) (s : string) :
  Occurs p s -> Occurs p (String c s).
Proof. apply (Occurs_skip p (String c "") s). Qed.

(** An element of a joined list is a piece of the result. *)
Lemma join_cons (sep x : string) (l : list string) :
  join sep (x :: l) = x ++ (match l with [] => "" | _ => sep ++ join sep l end).
Proof. destruct l; simpl; [now rewrite append_nil_r | reflexivity]. Qed.

Lemma Occurs_join (sep x : string) (l : list string) :
  In x l -> Occurs x (join sep l).
Proof.
  induction l as [|y l IH]; intros H; [contradiction|].
  rewrite join_cons. destruct H as [-> | H].
  - apply Occurs_head.
  - apply Occurs_skip. destruct l; [contradiction|].
    apply Occurs_skip. auto.
Qed.

(** Two neighbours of a joined list are separated by the separator. *)
Lemma Occurs_join_adjacent (sep x y : string) (l1 l2 : list string) :
  Occurs (x ++ sep ++ y) (join sep (l1 ++ x :: y :: l2)%list).
Proof.
  induction l1 as [|z l1 IH].
  - cbn [List.app]. rewrite join_cons, (join_cons sep y).
    exists "". eexists. cbn [append]. rewrite !append_assoc. reflexivity.
  - cbn [List.app]. rewrite join_cons.
    destruct (l1 ++ x :: y :: l2)%list eqn:E.
    + destruct l1; discriminate.
    + now do 2 apply Occurs_skip.
Qed.

Lemma mapM_In {A B : Type} (f : A -> result B) (l : list A) (ys : list B) (x : A) :
  mapM f l = Ok ys -> In x l -> exists y, f x = Ok y /\ In y ys.
Proof.
  revert ys. induction l as [|a l IH]; intros ys H Hin; [contradiction|].
  simpl in H. destruct (f a) as [b|] eqn:Hb; [|discriminate]. simpl in H.
  destruct (mapM f l) as [bs|] eqn:Hbs; [|discriminate]. simpl in H.
  injection H as <-. destruct Hin as [-> | Hin].
  - exists b. split; [assumption | now left].
  - destruct (IH bs eq_refl Hin) as [y [Hy Hiny]]. exists y. split; [assumption | now right].
Qed.

Lemma mapM_total {A B : Type} (f : A -> result B) (l : list A) :
  (forall x, In x l -> exists y, f x = Ok y) -> exists ys, mapM f l = Ok ys.
Proof.
  induction l as [|a l IH]; intros H; [now exists []|].
  destruct (H a (or_introl eq_refl)) as [b Hb].
  destruct IH as [bs Hbs]; [intros x Hx; apply H; now right|].
  exists (b :: bs). simpl. now rewrite Hb, Hbs.
Qed.

Lemma mapM_fails {A B : Type} (f : A -> result B) (l : list A) (x : A) :
  In x l -> f x = TypeError -> mapM f l = TypeError.
Proof.
  induction l as [|a l IH]; intros Hin Hx; [contradiction|].
  simpl. destruct Hin as [-> | Hin].
  - now rewrite Hx.
  - destruct (f a); [|reflexivity]. simpl. now rewrite (IH Hin Hx).
Qed.

Lemma includes_In (l : list string) (x : string) :
  includes l x = true <-> In x l.
Proof.
  unfold includes. rewrite existsb_exists. split.
  - intros [y [Hy E]]. apply String.eqb_eq in E. now subst.
  - intros H. exists x. split; [assumption | apply String.eqb_refl].
Qed.

(** ** Regular expressions: the matcher computes the words of [Matches] *)

Lemma nullable_Matches (r : regex) : nullable r = true -> Matches r "".
Proof.
  induction r; simpl; intros H; try discriminate.
  - constructor.
  - apply andb_true_iff in H as [H1 H2].
    change "" with ("" ++ ""). constructor; auto.
  - apply orb_true_iff in H as [H | H]; [apply MAltL | apply MAltR]; auto.
  - constructor.
Qed.

Lemma Matches_nullable (r : regex) (s : string) :
  Matches r s -> s = "" -> nullable r = true.
Proof.
  induction 1; intros E; simpl; try reflexivity; try discriminate.
  - apply append_eq_nil in E as [-> ->]. now rewrite IHMatches1, IHMatches2.
  - now rewrite IHMatches.
  - rewrite IHMatches by assumption. apply orb_true_r.
Qed.

Lemma deriv_sound (c : ascii) (r : regex) :
  forall s, Matches (deriv c r) s -> Matches r (String c s).
Proof.
  induction r; simpl; intros s H.
  - inversion H.
  - inversion H.
  - destruct (p c) eqn:E; inversion H; subst. now constructor.
  - destruct (nullable r1) eqn:N.
    + inversion H; subst.
      * match goal with X : Matches (RSeq _ _) _ |- _ => inversion X; subst end.
        change (String c (s1 ++ s2)) with (String c s1 ++ s2).
        constructor; auto.
      * change (String c s) with ("" ++ String c s).
        constructor; [now apply nullable_Matches | auto].
    + inversion H; subst.
      change (String c (s1 ++ s2)) with (String c s1 ++ s2).
      constructor; auto.
  - inversion H; subst; [apply MAltL | apply MAltR]; auto.
  - inversion H; subst.
    change (String c (s1 ++ s2)) with (String c s1 ++ s2).
    apply MStarS; auto.
Qed.

Lemma deriv_complete (r : regex) (t : string) :
  Matches r t -> forall c s, t = String c s -> Matches (deriv c r) s.
Proof.
  induction 1; intros c0 s0 E; simpl; try discriminate.
  - injection E as -> <-. rewrite H. constructor.
  - destruct s1 as [|x s1]; simpl in E.
    + subst s2. rewrite (Matches_nullable _ _ H eq_refl).
      apply MAltR. now apply IHMatches2.
    + injection E as -> <-.
      assert (M : Matches (RSeq (deriv c0 r1) r2) (s1 ++ s2))
        by (constructor; [now apply IHMatches1 | assumption]).
      destruct (nullable r1); [now apply MAltL | assumption].
  - apply MAltL. now apply IHMatches.
  - apply MAltR. now apply IHMatches.
  - destruct s1 as [|x s1]; simpl in E.
    + now apply IHMatches2.
    + injection E as -> <-. constructor; [now apply IHMatches1 | assumption].
Qed.

Lemma matchAll_spec (s : string) :
  forall r, matchAll r s = true <-> Matches r s.
Proof.
  induction s as [|c s IH]; intros r; simpl.
  - split; [apply nullable_Matches | intros H; now apply (Matches_nullable _ _ H)].
  - rewrite IH. split; [apply deriv_sound | intros H; now apply (deriv_complete _ _ H)].
Qed.

Lemma suffixes_spec (s suf : string) :
  In suf (suffixes s) <-> exists pre, s = pre ++ suf.
Proof.
  induction s as [|c s IH].
  - simpl. split.
    + intros [<- | []]. now exists "".
    + intros [pre E]. symmetry in E. apply append_eq_nil in E as [_ ->]. now left.
  - cbn [suffixes]. split.
    + intros [<- | H]; [now exists ""|].
      apply IH in H as [pre ->]. now exists (String c pre).
    + intros [pre E]. destruct pre as [|x pre]; simpl in E.
      * left. auto.
      * right. injection E as _ E. apply IH. now exists pre.
Qed.

Lemma testAtEnd_spec (r : regex) (s : string) :
  testAtEnd r s = true <-> exists pre suf, s = pre ++ suf /\ Matches r suf.
Proof.
  unfold testAtEnd. rewrite existsb_exists. split.
  - intros [suf [Hin M]]. apply suffixes_spec in Hin as [pre ->].
    exists pre, suf. split; [reflexivity | now apply matchAll_spec].
  - intros [pre [suf [-> M]]]. exists suf. split.
    + apply suffixes_spec. now exists pre.
    + now apply matchAll_spec.
Qed.

Lemma Matches_star_class (p : ascii -> bool) (s : string) :
  Matches (RStar (RClass p)) s <-> forallb_string p s = true.
Proof.
  split.
  - intros H. remember (RStar (RClass p)) as r eqn:E.
    induction H; try discriminate; [reflexivity|].
    injection E as ->. specialize (IHMatches2 eq_refl).
    inversion H; subst. simpl. now rewrite IHMatches2, andb_true_r.
  - induction s as [|c s IH]; simpl; intros H; [constructor|].
    apply andb_true_iff in H as [Hc Hs].
    change (String c s) with (String c "" ++ s).
    apply MStarS; [now constructor | auto].
Qed.

Lemma Matches_char (c : ascii) (s : string) :
  Matches (RChar c) s <-> s = String c "".
Proof.
  unfold RChar. split.
  - intros H. inversion H; subst. apply Ascii.eqb_eq in H1. now subst.
  - intros ->. constructor. apply Ascii.eqb_refl.
Qed.

Lemma Matches_functionPattern (s : string) :
  Matches functionPattern s <->
  exists w args, s = w ++ "(" ++ args ++ ")" /\ w <> ""
                 /\ forallb_string isWordChar w = true
                 /\ forallb_string notCloseParen args = true.
Proof.
  unfold functionPattern, RPlus. split.
  - intros H. inversion H as [| |? ? w rest Hw Hrest| | | |]; subst.
    inversion Hw as [| |? ? w1 w2 Hw1 Hw2| | | |]; subst.
    inversion Hw1; subst.
    apply Matches_star_class in Hw2.
    inversion Hrest as [| |? ? o rest' Ho Hrest'| | | |]; subst.
    apply Matches_char in Ho. subst o.
    inversion Hrest' as [| |? ? args cl Hargs Hcl| | | |]; subst.
    apply Matches_char in Hcl. subst cl.
    apply Matches_star_class in Hargs.
    eexists. exists args. split; [reflexivity|].
    split; [discriminate|]. split; [|exact Hargs].
    simpl. match goal with X : isWordChar _ = true |- _ => rewrite X end. exact Hw2.
  - intros [w [args [-> [Hne [Hw Hargs]]]]].
    constructor.
    + destruct w as [|c w]; [contradiction|]. simpl in Hw.
      apply andb_true_iff in Hw as [Hc Hw].
      change (String c w) with (String c "" ++ w).
      constructor; [now constructor | now apply Matches_star_class].
    + change ("(" ++ args ++ ")") with (String "("%char "" ++ args ++ ")").
      constructor; [now apply Matches_char|].
      constructor; [now apply Matches_star_class | now apply Matches_char].
Qed.

Lemma isFunction_spec (str : string) :
  isFunction str = true <-> EndsWithCall str.
Proof.
  unfold isFunction, EndsWithCall. rewrite testAtEnd_spec. split.
  - intros [pre [suf [-> M]]]. apply Matches_functionPattern in M.
    destruct M as [w [args [-> H]]]. now exists pre, w, args.
  - intros [pre [w [args [-> H]]]]. exists pre. eexists. split; [reflexivity|].
    apply Matches_functionPattern. now exists w, args.
Qed.

(** ** The helpers of [utils.js] *)

Lemma lastChar_snoc (s : string) (c : ascii) : lastChar (s ++ String c "") = Some c.
Proof.
  induction s as [|x s IH]; [reflexivity|].
  cbn [append lastChar]. rewrite IH.
  destruct (s ++ String c "") eqn:E; [|reflexivity].
  apply append_eq_nil in E as [_ E]. discriminate.
Qed.

Lemma lastChar_inv (s : string) (c : ascii) :
  lastChar s = Some c -> exists body, s = body ++ String c "".
Proof.
  induction s as [|x s IH]; [discriminate|].
  cbn [lastChar]. destruct s as [|y s].
  - intros [= ->]. now exists "".
  - intros H. destruct (IH H) as [body E]. exists (String x body).
    simpl. now rewrite <- E.
Qed.

Lemma strHasQuotes_spec (str : string) :
  strHasQuotes str = true <-> QuoteDelimited str.
Proof.
  unfold strHasQuotes, QuoteDelimited. split.
  - destruct str as [|a [|b s]]; try discriminate.
    cbn [String.length Nat.ltb Nat.leb firstChar].
    intros H.
    assert (Hs : sameChar (Some a) (lastChar (String a (String b s))) = true
                 /\ isQuoteChar a = true).
    { unfold isQuoteChar, charIs in *.
      repeat (apply orb_true_iff in H as [H | H]);
        apply andb_true_iff in H as [H1 H2]; rewrite H1, H2;
        rewrite ?orb_true_r; auto. }
    destruct Hs as [Hsame Hq].
    destruct (lastChar (String a (String b s))) as [z|] eqn:L; [|discriminate].
    simpl in Hsame. apply Ascii.eqb_eq in Hsame. subst z.
    assert (L' : lastChar (String b s) = Some a) by exact L.
    apply lastChar_inv in L' as [body E].
    exists a, body. split; [assumption | now rewrite E].
  - intros [q [body [Hq ->]]].
    assert (Hlen : (String.length (String q (body ++ String q "")) <? 2)%nat = false).
    { simpl. rewrite length_append. simpl.
      apply Nat.ltb_ge. lia. }
    rewrite Hlen. cbn [firstChar].
    change (String q (body ++ String q "")) with (String q body ++ String q "").
    rewrite lastChar_snoc. unfold sameChar, charIs. rewrite Ascii.eqb_refl.
    unfold isQuoteChar in Hq. cbn [andb].
    repeat (apply orb_true_iff in Hq as [Hq | Hq]); rewrite Hq;
      rewrite ?orb_true_r; reflexivity.
Qed.

Lemma isKeyword_spec (str : string) : isKeyword str = true <-> IsKeyword str.
Proof.
  unfold isKeyword, IsKeyword. rewrite includes_In. unfold keywords. simpl.
  intuition congruence.
Qed.

Lemma hasQuotes_spec (type : string) : hasQuotes type = true <-> In type quotedTypes.
Proof. apply includes_In. Qed.

(** *** The serializer of default values *)

(** C1, amended: [parseDefault] returns the default value unchanged when it
    is enclosed in a pair of equal quote characters, or ends with a function
    call, or has one of the keywords for its upper case, or when the type of
    the field is not one of [quotedTypes] (which counts [ENUM] in and leaves
    [SET], [TEXT], [UUID] and [BLOB] out); in every other case it wraps the
    value in single quotes. *)
Theorem parseDefault_rule (field : Field) :
  (QuoteDelimited (f_default field)
   \/ EndsWithCall (f_default field)
   \/ IsKeyword (f_default field)
   \/ ~ In (f_type field) quotedTypes
   -> parseDefault field = f_default field)
  /\ (~ QuoteDelimited (f_default field)
      -> ~ EndsWithCall (f_default field)
      -> ~ IsKeyword (f_default field)
      -> In (f_type field) quotedTypes
      -> parseDefault field = "'" ++ f_default field ++ "'").
Proof.
  unfold parseDefault.
  rewrite <- strHasQuotes_spec, <- isFunction_spec, <- isKeyword_spec, <- hasQuotes_spec.
  destruct (strHasQuotes (f_default field)), (isFunction (f_default field)),
    (isKeyword (f_default field)), (hasQuotes (f_type field)); simpl;
    split; intros; try reflexivity; intuition congruence.
Qed.

(** C9: the pattern of [isFunction] is anchored at the end only, so a default
    value that ends with [identifier(args)], whatever text comes before, is
    taken for a function call and [parseDefault] returns it unchanged, also
    for a type whose values are quoted. *)
Theorem isFunction_anchored_at_end_only (field : Field) (pre w args : string) :
  w <> "" ->
  forallb_string isWordChar w = true ->
  forallb_string notCloseParen args = true ->
  f_default field = pre ++ w ++ "(" ++ args ++ ")" ->
  isFunction (f_default field) = true
  /\ parseDefault field = f_default field
  /\ parseDefault field <> "'" ++ f_default field ++ "'".
Proof.
  intros Hne Hw Hargs E.
  assert (F : isFunction (f_default field) = true).
  { apply isFunction_spec. now exists pre, w, args. }
  assert (P : parseDefault field = f_default field).
  { unfold parseDefault. rewrite F. now rewrite orb_true_r. }
  repeat split; [assumption | assumption |].
  rewrite P. intros C. apply (f_equal String.length) in C.
  cbn [String.length append] in C. rewrite length_append in C. lia.
Qed.

(** ** The type mapping *)

(** Decides the tests [type === "..."] of the goal for a type that is none
    of [namedTypes]. *)
Ltac not_a_named_type H :=
  repeat match goal with
    | |- context [String.eqb ?t ?lit] =>
        destruct (String.eqb_spec t lit) as [?E | _];
        [ exfalso; apply H; rewrite ?E; simpl; tauto | ]
    end.

(** C4, amended: for a field whose type name is outside the vocabulary, no
    mapping fails; MySQL and MariaDB get [JSON], SQLite gets [BLOB], SQL
    Server gets the type name itself and PostgreSQL the type name in lower
    case. *)
Theorem unknown_type_mapping (sqlDataTypes : list string) (field : Field)
  (baseType : bool) :
  incl namedTypes sqlDataTypes ->
  includes sqlDataTypes (f_type field) = false ->
  getTypeString sqlDataTypes field "mysql" baseType = Some "JSON"
  /\ getSQLiteType field = "BLOB"
  /\ getTypeString sqlDataTypes field "mssql" baseType = Some (f_type field)
  /\ getTypeString sqlDataTypes field "postgres" baseType
     = Some (toLowerCase (f_type field)).
Proof.
  intros Hincl Hunknown.
  assert (H : ~ In (f_type field) namedTypes).
  { intros Hin. apply Hincl in Hin. apply includes_In in Hin. congruence. }
  unfold getTypeString. cbn [String.eqb Ascii.eqb Bool.eqb].
  repeat split.
  - unfold getTypeString_mysql, hasPrecision, isSized, includes. cbn [existsb].
    not_a_named_type H. cbn [orb]. fold (includes sqlDataTypes (f_type field)).
    now rewrite Hunknown.
  - unfold getSQLiteType, includes. cbn [existsb].
    not_a_named_type H. reflexivity.
  - unfold getTypeString_mssql, isSized, includes. cbn [existsb].
    not_a_named_type H. reflexivity.
  - unfold getTypeString_postgres, hasPrecision, isSized, includes. cbn [existsb].
    not_a_named_type H. reflexivity.
Qed.

(** ** The schema of a composite type *)

(** C6: for a type with one field of an unknown type, the fragment has
    ["type": "object"] and ["additionalProperties": false] at top level, but
    the property of the field carries the key [additionalProperties] without
    quotes, so it is not the JSON object of the specification; a field of type
    [JSON] gets that object. *)
Theorem generateSchema_unknown_type_unquoted_key :
  generateSchema builtinTypes (Some pointType)
  = Ok ("{" ++ nl ++ tab ++ tab ++ tab
          ++ dq ++ "$schema" ++ dq ++ ": " ++ dq
          ++ "http://json-schema.org/draft-04/schema#" ++ dq ++ ","
          ++ nl ++ tab ++ tab ++ tab ++ dq ++ "type" ++ dq ++ ": " ++ dq ++ "object" ++ dq ++ ","
          ++ nl ++ tab ++ tab ++ tab ++ dq ++ "properties" ++ dq ++ ": {"
          ++ nl ++ tab ++ tab ++ tab ++ tab
          ++ dq ++ "x" ++ dq ++ " : "
          ++ "{ " ++ dq ++ "type" ++ dq ++ " : " ++ dq ++ "object" ++ dq
          ++ ", additionalProperties : true }"
          ++ nl ++ tab ++ tab ++ tab ++ "},"
          ++ nl ++ tab ++ tab ++ tab ++ dq ++ "additionalProperties" ++ dq ++ ": false"
          ++ nl ++ tab ++ tab ++ "}")
  /\ stripWhitespace (getJsonType builtinTypes (plainField "x" "POINT"))
     <> permissiveObject
  /\ stripWhitespace (getJsonType builtinTypes (plainField "x" "JSON"))
     = permissiveObject.
Proof. vm_compute. repeat split; discriminate. Qed.

(** For every field of an unknown type and every vocabulary, the key is
    emitted without quotes. *)
Lemma getJsonType_unknown (sqlDataTypes : list string) (f : Field) :
  includes sqlDataTypes (f_type f) = false ->
  getJsonType sqlDataTypes f
  = "{ " ++ dq ++ "type" ++ dq ++ " : " ++ dq ++ "object" ++ dq
      ++ ", additionalProperties : true }"
  /\ stripWhitespace (getJsonType sqlDataTypes f) <> permissiveObject.
Proof.
  intros H. unfold getJsonType. rewrite H. cbn [negb].
  split; [reflexivity | vm_compute; discriminate].
Qed.

(** ** SQL Server: the base type of a user-defined type *)

(** C10: the test [type.fields.length < 0] never holds, so the base type is
    always computed from [type.fields[0]]; with a first field the statement is
    produced, with no field the read of [fields[0]] raises. *)
Theorem sqlServerType_reads_first_field (sqlDataTypes : list string) (type : CType) :
  (List.length (ty_fields type) <? 0)%nat = false
  /\ (forall f rest, ty_fields type = f :: rest ->
        sqlServerType sqlDataTypes type
        = Ok (docComment (ty_comment type)
                ++ "CREATE TYPE [" ++ ty_name type ++ "] FROM "
                ++ getTypeString_mssql f true ++ ";" ++ nl ++ "GO" ++ nl))
  /\ (ty_fields type = [] ->
        at_index (ty_fields type) 0 = TypeError
        /\ sqlServerType sqlDataTypes type = TypeError
        /\ forall obj, In type (d_types obj) ->
             jsonToSQLServer sqlDataTypes obj = TypeError).
Proof.
  split; [apply Nat.ltb_ge; lia|]. split.
  - intros f rest E. unfold sqlServerType. rewrite E. reflexivity.
  - intros E.
    assert (T : sqlServerType sqlDataTypes type = TypeError)
      by (unfold sqlServerType; rewrite E; reflexivity).
    split; [now rewrite E|]. split; [exact T|].
    intros obj Hin. unfold jsonToSQLServer.
    now rewrite (mapM_fails _ _ _ Hin T).
Qed.

(** ** The statements of a table in the output *)

(** Finds an operand of a concatenation. *)
Ltac occurs_operand :=
  first [ apply Occurs_refl
        | apply Occurs_head
        | apply Occurs_skip; occurs_operand
        | apply Occurs_cons; occurs_operand ].

Lemma Ok_inj {A : Type} (a b : A) : Ok a = Ok b -> a = b.
Proof. now intros [= ->]. Qed.

(** Brings concatenations to the right and merges the literals. *)
Ltac string_norm :=
  repeat first [ rewrite !append_assoc | progress cbn [append] ].

(** The pattern starts the string. *)
Ltac occurs_here := exists ""; eexists; string_norm; reflexivity.

(** The pattern starts at an operand or at a character of a literal. *)
Ltac occurs_find :=
  first [ occurs_here
        | apply Occurs_skip; occurs_find
        | apply Occurs_cons; occurs_find ].

(** The pattern occurs in an operand, by [H]. *)
Ltac occurs_within H :=
  first [ exact H
        | apply Occurs_left; exact H
        | apply Occurs_skip; occurs_within H
        | apply Occurs_cons; occurs_within H ].

Lemma Occurs_step (p q s : string) : Occurs q s -> Occurs p q -> Occurs p s.
Proof. intros H1 H2. exact (Occurs_trans _ _ _ H2 H1). Qed.

Section Output.

Variable sqlDataTypes : list string.

Lemma mysqlTable_in_output (obj : Diagram) (out : string) (table : Table) :
  jsonToMySQL sqlDataTypes obj = Ok out -> In table (d_tables obj) ->
  exists stmt, mysqlTable sqlDataTypes obj table = Ok stmt /\ Occurs stmt out.
Proof.
  unfold jsonToMySQL. intros H Hin.
  destruct (mapM (mysqlTable sqlDataTypes obj) (d_tables obj)) as [ts|] eqn:Et;
    [|discriminate]. cbn [bind] in H.
  destruct (mapM _ (d_references obj)) as [rs|]; [|discriminate]. cbn [bind] in H.
  injection H as <-.
  destruct (mapM_In _ _ _ _ Et Hin) as [stmt [Hs Hi]].
  exists stmt. split; [assumption|].
  apply Occurs_left. now apply Occurs_join.
Qed.

Lemma mysqlField_in_table (obj : Diagram) (stmt : string) (table : Table) (field : Field) :
  mysqlTable sqlDataTypes obj table = Ok stmt -> In field (t_fields table) ->
  exists line, mysqlField sqlDataTypes obj field = Ok line /\ Occurs line stmt.
Proof.
  unfold mysqlTable. intros H Hin.
  destruct (mapM _ (t_fields table)) as [cols|] eqn:Ec; [|discriminate].
  cbn [bind] in H. injection H as <-.
  destruct (mapM_In _ _ _ _ Ec Hin) as [line [Hl Hi]].
  exists line. split; [assumption|].
  eapply Occurs_step; [|apply (Occurs_join ("," ++ nl) _ _ Hi)].
  occurs_operand.
Qed.

Lemma mariadbTable_in_output (obj : Diagram) (out : string) (table : Table) :
  jsonToMariaDB sqlDataTypes obj = Ok out -> In table (d_tables obj) ->
  exists stmt, mariadbTable sqlDataTypes obj table = Ok stmt /\ Occurs stmt out.
Proof.
  unfold jsonToMariaDB. intros H Hin.
  destruct (mapM (mariadbTable sqlDataTypes obj) (d_tables obj)) as [ts|] eqn:Et;
    [|discriminate]. cbn [bind] in H.
  destruct (mapM _ (d_references obj)) as [rs|]; [|discriminate]. cbn [bind] in H.
  injection H as <-.
  destruct (mapM_In _ _ _ _ Et Hin) as [stmt [Hs Hi]].
  exists stmt. split; [assumption|].
  apply Occurs_left. now apply Occurs_join.
Qed.

Lemma mariadbField_in_table (obj : Diagram) (stmt : string) (table : Table) (field : Field) :
  mariadbTable sqlDataTypes obj table = Ok stmt -> In field (t_fields table) ->
  exists line, mariadbField sqlDataTypes obj field = Ok line /\ Occurs line stmt.
Proof.
  unfold mariadbTable. intros H Hin.
  destruct (mapM _ (t_fields table)) as [cols|] eqn:Ec; [|discriminate].
  cbn [bind] in H. injection H as <-.
  destruct (mapM_In _ _ _ _ Ec Hin) as [line [Hl Hi]].
  exists line. split; [assumption|].
  eapply Occurs_step; [|apply (Occurs_join ("," ++ nl) _ _ Hi)].
  occurs_operand.
Qed.

Lemma postgresTable_in_output (obj : Diagram) (out : string) (table : Table) :
  jsonToPostgreSQL sqlDataTypes obj = Ok out -> In table (d_tables obj) ->
  Occurs (postgresTable sqlDataTypes table) out.
Proof.
  unfold jsonToPostgreSQL. intros H Hin.
  destruct (mapM _ (d_references obj)) as [rs|]; [|discriminate]. cbn [bind] in H.
  injection H as <-.
  eapply Occurs_step;
    [|apply (Occurs_join nl _ _ (in_map (postgresTable sqlDataTypes) _ _ Hin))].
  occurs_operand.
Qed.

Lemma sqliteTable_in_output (obj : Diagram) (out : string) (table : Table) :
  jsonToSQLite obj = Ok out -> In table (d_tables obj) ->
  exists stmt, sqliteTable obj table = Ok stmt /\ Occurs stmt out.
Proof.
  unfold jsonToSQLite. intros H Hin.
  destruct (mapM (sqliteTable obj) (d_tables obj)) as [ts|] eqn:Et;
    [|discriminate]. cbn [bind] in H. injection H as <-.
  destruct (mapM_In _ _ _ _ Et Hin) as [stmt [Hs Hi]].
  exists stmt. split; [assumption | now apply Occurs_join].
Qed.

Lemma sqliteField_in_table (obj : Diagram) (stmt : string) (table : Table) (field : Field) :
  sqliteTable obj table = Ok stmt -> In field (t_fields table) ->
  Occurs (sqliteField field) stmt.
Proof.
  unfold sqliteTable. intros H Hin.
  destruct (getInlineFK table obj) as [fk|]; [|discriminate].
  cbn [bind] in H. injection H as <-.
  eapply Occurs_step;
    [|apply (Occurs_join ("," ++ nl) _ _ (in_map sqliteField _ _ Hin))].
  occurs_operand.
Qed.

Lemma sqlServerTable_in_output (obj : Diagram) (out : string) (table : Table) :
  jsonToSQLServer sqlDataTypes obj = Ok out -> In table (d_tables obj) ->
  Occurs (sqlServerTable sqlDataTypes table) out.
Proof.
  unfold jsonToSQLServer. intros H Hin.
  destruct (mapM _ (d_types obj)) as [tys|]; [|discriminate]. cbn [bind] in H.
  destruct (mapM _ (d_references obj)) as [rs|]; [|discriminate]. cbn [bind] in H.
  injection H as <-.
  eapply Occurs_step;
    [|apply (Occurs_join nl _ _ (in_map (sqlServerTable sqlDataTypes) _ _ Hin))].
  occurs_operand.
Qed.

End Output.

(** ** When the generators return

    A generator raises only on a reference that points outside the tables
    and fields, on a field of a user-defined type that the diagram does not
    declare (MySQL, MariaDB) and on a user-defined type without field (SQL
    Server). *)

Lemma at_index_total {A : Type} (l : list A) (i : nat) :
  (i <? List.length l)%nat = true -> exists x, at_index l i = Ok x.
Proof.
  intros H. apply Nat.ltb_lt in H. unfold at_index.
  destruct (nth_error l i) as [x|] eqn:E; [now exists x|].
  apply nth_error_None in E. lia.
Qed.

Lemma alterTable_total (qo qc terminator : string) (obj : Diagram) (r : Reference) :
  referenceInRange obj r = true -> exists s, alterTable qo qc terminator obj r = Ok s.
Proof.
  unfold referenceInRange, alterTable. intros H.
  destruct (nth_error (d_tables obj) (r_startTableId r)) as [st|] eqn:Es;
    [|discriminate].
  destruct (nth_error (d_tables obj) (r_endTableId r)) as [et|] eqn:Ee;
    [|discriminate].
  apply andb_true_iff in H as [H1 H2].
  assert (As : at_index (d_tables obj) (r_startTableId r) = Ok st)
    by (unfold at_index; now rewrite Es).
  assert (Ae : at_index (d_tables obj) (r_endTableId r) = Ok et)
    by (unfold at_index; now rewrite Ee).
  destruct (at_index_total _ _ H1) as [sf E1].
  destruct (at_index_total _ _ H2) as [ef E2].
  rewrite As. cbn [bind]. rewrite E1. cbn [bind].
  rewrite Ae. cbn [bind]. rewrite E2. cbn [bind]. eauto.
Qed.

Lemma references_total (qo qc terminator : string) (obj : Diagram) :
  referencesResolve obj = true ->
  exists rs, mapM (alterTable qo qc terminator obj) (d_references obj) = Ok rs.
Proof.
  unfold referencesResolve. rewrite forallb_forall. intros H.
  apply mapM_total. intros r Hr. apply alterTable_total. auto.
Qed.

Lemma jsonCheckClause_total (sqlDataTypes : list string) (q : string)
  (obj : Diagram) (field : Field) :
  typeResolves sqlDataTypes obj field = true ->
  exists s, jsonCheckClause sqlDataTypes q obj field = Ok s.
Proof.
  unfold typeResolves, jsonCheckClause.
  destruct ((f_check field =? "") || negb (hasCheck (f_type field))); cbn [andb];
    [|eauto].
  destruct (negb (includes sqlDataTypes (f_type field))); [|eauto].
  destruct (find _ (d_types obj)); [|discriminate].
  cbn [generateSchema bind]. eauto.
Qed.

Lemma jsonToMySQL_total (sqlDataTypes : list string) (obj : Diagram) :
  referencesResolve obj = true -> typesResolve sqlDataTypes obj = true ->
  exists out, jsonToMySQL sqlDataTypes obj = Ok out.
Proof.
  intros Hr Ht. unfold jsonToMySQL.
  destruct (references_total "`" "`" "" obj Hr) as [rs ->].
  assert (T : exists ts, mapM (mysqlTable sqlDataTypes obj) (d_tables obj) = Ok ts).
  { apply mapM_total. intros t Hin. unfold mysqlTable.
    unfold typesResolve in Ht. rewrite forallb_forall in Ht.
    specialize (Ht t Hin). rewrite forallb_forall in Ht.
    assert (C : exists cs, mapM (mysqlField sqlDataTypes obj) (t_fields t) = Ok cs).
    { apply mapM_total. intros f Hf. unfold mysqlField.
      destruct (jsonCheckClause_total sqlDataTypes dq obj f (Ht f Hf)) as [s ->].
      cbn [bind]. eauto. }
    destruct C as [cs ->]. cbn [bind]. eauto. }
  destruct T as [ts ->]. cbn [bind]. eauto.
Qed.

Lemma jsonToMariaDB_total (sqlDataTypes : list string) (obj : Diagram) :
  referencesResolve obj = true -> typesResolve sqlDataTypes obj = true ->
  exists out, jsonToMariaDB sqlDataTypes obj = Ok out.
Proof.
  intros Hr Ht. unfold jsonToMariaDB.
  destruct (references_total "`" "`" "" obj Hr) as [rs ->].
  assert (T : exists ts, mapM (mariadbTable sqlDataTypes obj) (d_tables obj) = Ok ts).
  { apply mapM_total. intros t Hin. unfold mariadbTable.
    unfold typesResolve in Ht. rewrite forallb_forall in Ht.
    specialize (Ht t Hin). rewrite forallb_forall in Ht.
    assert (C : exists cs, mapM (mariadbField sqlDataTypes obj) (t_fields t) = Ok cs).
    { apply mapM_total. intros f Hf. unfold mariadbField.
      destruct (jsonCheckClause_total sqlDataTypes "'" obj f (Ht f Hf)) as [s ->].
      cbn [bind]. eauto. }
    destruct C as [cs ->]. cbn [bind]. eauto. }
  destruct T as [ts ->]. cbn [bind]. eauto.
Qed.

Lemma jsonToPostgreSQL_total (sqlDataTypes : list string) (obj : Diagram) :
  referencesResolve obj = true ->
  exists out, jsonToPostgreSQL sqlDataTypes obj = Ok out.
Proof.
  intros Hr. unfold jsonToPostgreSQL.
  destruct (references_total dq dq "" obj Hr) as [rs ->]. cbn [bind]. eauto.
Qed.

Lemma jsonToSQLServer_total (sqlDataTypes : list string) (obj : Diagram) :
  referencesResolve obj = true -> typesHaveFields obj = true ->
  exists out, jsonToSQLServer sqlDataTypes obj = Ok out.
Proof.
  intros Hr Ht. unfold jsonToSQLServer.
  destruct (references_total "[" "]" (nl ++ "GO") obj Hr) as [rs ->].
  assert (T : exists tys, mapM (sqlServerType sqlDataTypes) (d_types obj) = Ok tys).
  { apply mapM_total. intros ty Hin.
    unfold typesHaveFields in Ht. rewrite forallb_forall in Ht.
    specialize (Ht ty Hin). unfold sqlServerType.
    destruct (ty_fields ty) as [|f rest]; [discriminate|].
    cbn. eauto. }
  destruct T as [tys ->]. cbn [bind]. eauto.
Qed.

Lemma inlineFKClause_not_empty (table : Table) (obj : Diagram) (r : Reference) (s : string) :
  inlineFKClause table obj r = Ok s -> (s =? "") = false.
Proof.
  unfold inlineFKClause. intros H.
  destruct (at_index (t_fields table) (r_startFieldId r)) as [sf|]; [|discriminate].
  cbn [bind] in H.
  destruct (at_index (d_tables obj) (r_endTableId r)) as [et|]; [|discriminate].
  cbn [bind] in H.
  destruct (at_index (t_fields et) (r_endFieldId r)) as [ef|]; [|discriminate].
  cbn [bind] in H. apply Ok_inj in H. rewrite <- H. reflexivity.
Qed.

Lemma fold_inlineFKStep_done (table : Table) (obj : Diagram)
  (refs : list Reference) (s : string) :
  (s =? "") = false ->
  fold_left (inlineFKStep table obj) refs (Ok s) = Ok s.
Proof.
  intros Hs. induction refs as [|r refs IH]; [reflexivity|].
  cbn [fold_left]. unfold inlineFKStep at 2. cbn [bind]. rewrite Hs. cbn [negb].
  exact IH.
Qed.

Lemma fold_inlineFKStep_error (table : Table) (obj : Diagram) (refs : list Reference) :
  fold_left (inlineFKStep table obj) refs TypeError = TypeError.
Proof. induction refs as [|r refs IH]; [reflexivity | exact IH]. Qed.

Lemma getInlineFK_find (table : Table) (obj : Diagram) :
  getInlineFK table obj
  = match find (startsAt table) (d_references obj) with
    | Some r => inlineFKClause table obj r
    | None => Ok ""
    end.
Proof.
  unfold getInlineFK. induction (d_references obj) as [|r refs IH]; [reflexivity|].
  cbn [fold_left find]. unfold inlineFKStep at 2. cbn [bind String.eqb negb].
  unfold startsAt at 1.
  destruct (r_startTableId r =? t_id table)%nat.
  - destruct (inlineFKClause table obj r) as [s|] eqn:E.
    + apply fold_inlineFKStep_done. exact (inlineFKClause_not_empty _ _ _ _ E).
    + apply fold_inlineFKStep_error.
  - exact IH.
Qed.

Lemma inlineFKClause_total (table : Table) (obj : Diagram) (r : Reference) :
  startsAt table r = true -> inlineReferenceInRange obj table r = true ->
  exists s, inlineFKClause table obj r = Ok s.
Proof.
  unfold startsAt, inlineReferenceInRange, inlineFKClause. intros -> H.
  apply andb_true_iff in H as [H1 H2].
  destruct (at_index_total _ _ H1) as [sf ->]. cbn [bind].
  unfold at_index at 1.
  destruct (nth_error (d_tables obj) (r_endTableId r)) as [et|]; [|discriminate].
  cbn [bind]. destruct (at_index_total _ _ H2) as [ef ->]. cbn [bind]. eauto.
Qed.

Lemma getInlineFK_total (table : Table) (obj : Diagram) :
  forallb (inlineReferenceInRange obj table) (d_references obj) = true ->
  exists fk, getInlineFK table obj = Ok fk.
Proof.
  intros H. rewrite forallb_forall in H. rewrite getInlineFK_find.
  destruct (find (startsAt table) (d_references obj)) as [r|] eqn:F; [|eauto].
  apply find_some in F as [Hin Hs].
  apply inlineFKClause_total; auto.
Qed.

Lemma jsonToSQLite_total (obj : Diagram) :
  inlineReferencesResolve obj = true -> exists out, jsonToSQLite obj = Ok out.
Proof.
  unfold inlineReferencesResolve, jsonToSQLite. rewrite forallb_forall. intros H.
  assert (T : exists ts, mapM (sqliteTable obj) (d_tables obj) = Ok ts).
  { apply mapM_total. intros t Hin. unfold sqliteTable.
    destruct (getInlineFK_total t obj (H t Hin)) as [fk ->]. cbn [bind]. eauto. }
  destruct T as [ts ->]. cbn [bind]. eauto.
Qed.

(** ** Enumerations *)

Lemma OccursBefore_append (x y s1 s2 : string) :
  Occurs x s1 -> Occurs y s2 -> OccursBefore x y (s1 ++ s2).
Proof.
  intros [a [b ->]] [c [d ->]]. exists a, (b ++ c), d.
  now rewrite !append_assoc.
Qed.

Lemma OccursBefore_in (x y q s : string) :
  OccursBefore x y q -> Occurs q s -> OccursBefore x y s.
Proof.
  intros [a [b [c ->]]] [u [v ->]]. exists (u ++ a), b, (c ++ v).
  now rewrite !append_assoc.
Qed.

(** The values as the generators write them: each one interpolated between
    two quote marks, the array joined. *)
Lemma valuesText_join (q : string) (values : list string) :
  valuesText q values = join ", " (map (quoted q) values).
Proof.
  induction values as [|v rest IH]; [reflexivity|].
  destruct rest as [|w rest]; [reflexivity|].
  change (valuesText q (v :: w :: rest))
    with (q ++ v ++ q ++ ", " ++ valuesText q (w :: rest)).
  change (join ", " (map (quoted q) (v :: w :: rest)))
    with (quoted q v ++ ", " ++ join ", " (map (quoted q) (w :: rest))).
  rewrite IH. unfold quoted. now rewrite !append_assoc.
Qed.

Lemma enumValues_join (q : string) (field : Field) :
  enumValues q field = join ", " (map (quoted q) (f_values field)).
Proof. apply valuesText_join. Qed.

Lemma getTypeString_mysql_enum (sqlDataTypes : list string) (field : Field) :
  f_type field = "ENUM" ->
  getTypeString sqlDataTypes field "mysql" false
  = Some ("ENUM(" ++ enumValues dq field ++ ")").
Proof.
  intros E. unfold getTypeString, getTypeString_mysql.
  rewrite E, enumValues_join. reflexivity.
Qed.

Lemma mysqlField_enum (sqlDataTypes : list string) (obj : Diagram)
  (field : Field) (line : string) :
  f_type field = "ENUM" -> mysqlField sqlDataTypes obj field = Ok line ->
  Occurs ("`" ++ f_name field ++ "` ENUM(" ++ enumValues dq field ++ ")") line.
Proof.
  intros E H. unfold mysqlField in H.
  destruct (jsonCheckClause sqlDataTypes dq obj field) as [chk|]; [|discriminate].
  cbn [bind] in H. apply Ok_inj in H. rewrite <- H.
  rewrite (getTypeString_mysql_enum sqlDataTypes field E). cbn [interpolate].
  unfold tab. occurs_find.
Qed.

Lemma mariadbField_enum (sqlDataTypes : list string) (obj : Diagram)
  (field : Field) (line : string) :
  f_type field = "ENUM" -> mariadbField sqlDataTypes obj field = Ok line ->
  Occurs ("`" ++ f_name field ++ "` ENUM(" ++ enumValues dq field ++ ")") line.
Proof.
  intros E H. unfold mariadbField in H.
  destruct (jsonCheckClause sqlDataTypes "'" obj field) as [chk|]; [|discriminate].
  cbn [bind] in H. apply Ok_inj in H. rewrite <- H.
  rewrite (getTypeString_mysql_enum sqlDataTypes field E). cbn [interpolate].
  unfold tab. occurs_find.
Qed.

Lemma sqliteField_enum (field : Field) :
  f_type field = "ENUM" ->
  Occurs (dq ++ f_name field ++ dq ++ " TEXT CHECK(" ++ dq ++ f_name field ++ dq
            ++ " in (" ++ enumValues "'" field ++ "))")
         (sqliteField field).
Proof.
  intros E. unfold sqliteField, getSQLiteType. rewrite E.
  cbn [includes existsb String.eqb Ascii.eqb Bool.eqb orb].
  rewrite enumValues_join. unfold tab. occurs_find.
Qed.

Lemma postgresTable_enum (sqlDataTypes : list string) (table : Table) (field : Field) :
  In field (t_fields table) -> f_type field = "ENUM" ->
  OccursBefore
    ("CREATE TYPE " ++ dq ++ f_name field ++ "_t" ++ dq ++ " AS ENUM ("
       ++ enumValues "'" field ++ ");")
    (dq ++ f_name field ++ dq ++ " " ++ f_name field ++ "_t")
    (postgresTable sqlDataTypes table).
Proof.
  intros Hin E. unfold postgresTable.
  assert (Hf : In field (filter isEnumOrSet (t_fields table))).
  { apply filter_In. split; [assumption|]. unfold isEnumOrSet. now rewrite E. }
  destruct (filter isEnumOrSet (t_fields table)) as [|f0 fs] eqn:F; [contradiction|].
  cbn [List.length Nat.ltb Nat.leb].
  rewrite <- (append_assoc (docComment (t_comment table))).
  apply OccursBefore_append.
  - apply Occurs_skip.
    eapply Occurs_step;
      [apply (Occurs_join "," _ _ (in_map (createEnumType (nl ++ nl)) _ _ Hf))|].
    rewrite enumValues_join. unfold createEnumType. occurs_here.
  - assert (J : Occurs (dq ++ f_name field ++ dq ++ " " ++ f_name field ++ "_t")
                      (join ("," ++ nl)
                            (map (postgresField sqlDataTypes) (t_fields table)))).
    { eapply Occurs_step;
        [apply (Occurs_join ("," ++ nl) _ _
                  (in_map (postgresField sqlDataTypes) _ _ Hin))|].
      unfold postgresField, getTypeString, getTypeString_postgres. rewrite E.
      cbn [String.eqb Ascii.eqb Bool.eqb andb interpolate].
      unfold tab. occurs_find. }
    occurs_within J.
Qed.

(** C2: for a table field of type [ENUM], MySQL and MariaDB emit the column
    with [ENUM(...)] over [field.values] in their order, SQLite emits the
    column with a [CHECK] that lists the same values in the same order, and
    PostgreSQL declares the type [<name>_t] with [CREATE TYPE] before the
    column that refers to it. Each generator returns on a diagram whose
    references and types resolve. *)
Theorem enum_columns (sqlDataTypes : list string) (obj : Diagram)
  (table : Table) (field : Field) :
  In table (d_tables obj) -> In field (t_fields table) -> f_type field = "ENUM" ->
  (referencesResolve obj = true -> typesResolve sqlDataTypes obj = true ->
   exists out, jsonToMySQL sqlDataTypes obj = Ok out
     /\ Occurs ("`" ++ f_name field ++ "` ENUM(" ++ enumValues dq field ++ ")") out)
  /\ (referencesResolve obj = true -> typesResolve sqlDataTypes obj = true ->
      exists out, jsonToMariaDB sqlDataTypes obj = Ok out
        /\ Occurs ("`" ++ f_name field ++ "` ENUM(" ++ enumValues dq field ++ ")") out)
  /\ (inlineReferencesResolve obj = true ->
      exists out, jsonToSQLite obj = Ok out
        /\ Occurs (dq ++ f_name field ++ dq ++ " TEXT CHECK(" ++ dq ++ f_name field
                     ++ dq ++ " in (" ++ enumValues "'" field ++ "))") out)
  /\ (referencesResolve obj = true ->
      exists out, jsonToPostgreSQL sqlDataTypes obj = Ok out
        /\ OccursBefore
             ("CREATE TYPE " ++ dq ++ f_name field ++ "_t" ++ dq ++ " AS ENUM ("
                ++ enumValues "'" field ++ ");")
             (dq ++ f_name field ++ dq ++ " " ++ f_name field ++ "_t")
             out).
Proof.
  intros Ht Hf E. repeat split.
  - intros Hr Hty. destruct (jsonToMySQL_total sqlDataTypes obj Hr Hty) as [out Ho].
    exists out. split; [assumption|].
    destruct (mysqlTable_in_output sqlDataTypes obj out table Ho Ht) as [stmt [Hs Os]].
    destruct (mysqlField_in_table sqlDataTypes obj stmt table field Hs Hf)
      as [line [Hl Ol]].
    eapply Occurs_step; [exact Os|]. eapply Occurs_step; [exact Ol|].
    exact (mysqlField_enum sqlDataTypes obj field line E Hl).
  - intros Hr Hty. destruct (jsonToMariaDB_total sqlDataTypes obj Hr Hty) as [out Ho].
    exists out. split; [assumption|].
    destruct (mariadbTable_in_output sqlDataTypes obj out table Ho Ht) as [stmt [Hs Os]].
    destruct (mariadbField_in_table sqlDataTypes obj stmt table field Hs Hf)
      as [line [Hl Ol]].
    eapply Occurs_step; [exact Os|]. eapply Occurs_step; [exact Ol|].
    exact (mariadbField_enum sqlDataTypes obj field line E Hl).
  - intros Hr. destruct (jsonToSQLite_total obj Hr) as [out Ho].
    exists out. split; [assumption|].
    destruct (sqliteTable_in_output obj out table Ho Ht) as [stmt [Hs Os]].
    eapply Occurs_step; [exact Os|].
    eapply Occurs_step; [exact (sqliteField_in_table obj stmt table field Hs Hf)|].
    exact (sqliteField_enum field E).
  - intros Hr. destruct (jsonToPostgreSQL_total sqlDataTypes obj Hr) as [out Ho].
    exists out. split; [assumption|].
    eapply OccursBefore_in;
      [|exact (postgresTable_in_output sqlDataTypes obj out table Ho Ht)].
    exact (postgresTable_enum sqlDataTypes table field Hf E).
Qed.

(** ** Referential actions *)


Lemma asciiUpperChar_asciiLowerChar (c : ascii) :
  asciiUpperChar (asciiLowerChar c) = asciiUpperChar c.
Proof. destruct c as [[] [] [] [] [] [] [] []]; reflexivity. Qed.

Lemma asciiLowerChar_isAsciiChar (c : ascii) :
  isAsciiChar (asciiLowerChar c) = isAsciiChar c.
Proof. destruct c as [[] [] [] [] [] [] [] []]; reflexivity. Qed.


Lemma asciiUpperCase_asciiLowerCase (s : string) :
  asciiUpperCase (asciiLowerCase s) = asciiUpperCase s.
Proof.
  induction s as [|c s IH]; [reflexivity|].
  cbn [asciiUpperCase asciiLowerCase mapString] in *.
  now rewrite asciiUpperChar_asciiLowerChar, IH.
Qed.

Lemma asciiLowerCase_isAscii (s : string) :
  isAscii (asciiLowerCase s) = isAscii s.
Proof.
  unfold isAscii, asciiLowerCase.
  induction s as [|c s IH]; [reflexivity|].
  cbn [mapString forallb_string].
  now rewrite asciiLowerChar_isAsciiChar, IH.
Qed.


(** Two spellings of one ASCII word give one upper-case text. *)
Lemma toUpperCase_case_insensitive (a b : string) :
  isAscii b = true -> asciiLowerCase a = asciiLowerCase b ->
  toUpperCase a = toUpperCase b.
Proof.
  intros B E.
  assert (A : isAscii a = true).
  { rewrite <- (asciiLowerCase_isAscii a), E, asciiLowerCase_isAscii. exact B. }
  rewrite (toUpperCase_ascii a A), (toUpperCase_ascii b B).
  rewrite <- (asciiUpperCase_asciiLowerCase a), <- (asciiUpperCase_asciiLowerCase b).
  now rewrite E.
Qed.







Lemma inlineFKClause_actions (table : Table) (obj : Diagram) (r : Reference) (s : string) :
  inlineFKClause table obj r = Ok s -> Occurs (referentialActions r) s.
Proof.
  unfold inlineFKClause. intros H.
  destruct (at_index (t_fields table) (r_startFieldId r)) as [sf|]; [|discriminate].
  cbn [bind] in H.
  destruct (at_index (d_tables obj) (r_endTableId r)) as [et|]; [|discriminate].
  cbn [bind] in H.
  destruct (at_index (t_fields et) (r_endFieldId r)) as [ef|]; [|discriminate].
  cbn [bind] in H. apply Ok_inj in H. rewrite <- H.
  assert (J : Occurs (referentialActions r) (referentialActions r))
    by apply Occurs_refl.
  occurs_within J.
Qed.



(** ** Indices *)

Lemma indices_adjacent_in_join (sep : string) (f : Index -> string)
  (l1 l2 : list Index) (i j : Index) :
  Occurs (f i ++ sep ++ f j) (join sep (map f (l1 ++ i :: j :: l2)%list)).
Proof.
  rewrite map_app. cbn [map]. apply Occurs_join_adjacent.
Qed.

Lemma has_indices (l1 l2 : list Index) (i j : Index) :
  (0 <? List.length (l1 ++ i :: j :: l2)%list)%nat = true.
Proof. rewrite length_app. cbn [List.length]. apply Nat.ltb_lt. lia. Qed.

Lemma mysqlTable_indices (sqlDataTypes : list string) (obj : Diagram)
  (table : Table) (stmt : string) (l1 l2 : list Index) (i j : Index) :
  mysqlTable sqlDataTypes obj table = Ok stmt ->
  t_indices table = (l1 ++ i :: j :: l2)%list ->
  Occurs (createIndex "`" "`" "" "" table i ++ ","
            ++ createIndex "`" "`" "" "" table j) stmt.
Proof.
  unfold mysqlTable. intros H E.
  destruct (mapM _ (t_fields table)) as [cols|]; [|discriminate].
  cbn [bind] in H. apply Ok_inj in H. rewrite <- H.
  rewrite E, has_indices.
  pose proof (indices_adjacent_in_join "," (createIndex "`" "`" "" "" table) l1 l2 i j)
    as J.
  unfold arrayToString. occurs_within J.
Qed.

Lemma mariadbTable_indices (sqlDataTypes : list string) (obj : Diagram)
  (table : Table) (stmt : string) (l1 l2 : list Index) (i j : Index) :
  mariadbTable sqlDataTypes obj table = Ok stmt ->
  t_indices table = (l1 ++ i :: j :: l2)%list ->
  Occurs (createIndex "`" "`" "" "" table i ++ ","
            ++ createIndex "`" "`" "" "" table j) stmt.
Proof.
  unfold mariadbTable. intros H E.
  destruct (mapM _ (t_fields table)) as [cols|]; [|discriminate].
  cbn [bind] in H. apply Ok_inj in H. rewrite <- H.
  rewrite E, has_indices.
  pose proof (indices_adjacent_in_join "," (createIndex "`" "`" "" "" table) l1 l2 i j)
    as J.
  unfold arrayToString. occurs_within J.
Qed.

Lemma postgresTable_indices (sqlDataTypes : list string)
  (table : Table) (l1 l2 : list Index) (i j : Index) :
  t_indices table = (l1 ++ i :: j :: l2)%list ->
  Occurs (createIndex dq dq "" "" table i ++ "," ++ createIndex dq dq "" "" table j)
         (postgresTable sqlDataTypes table).
Proof.
  unfold postgresTable. intros E. rewrite E, has_indices.
  pose proof (indices_adjacent_in_join "," (createIndex dq dq "" "" table) l1 l2 i j)
    as J.
  unfold arrayToString. occurs_within J.
Qed.

Lemma sqlServerTable_indices (sqlDataTypes : list string)
  (table : Table) (l1 l2 : list Index) (i j : Index) :
  t_indices table = (l1 ++ i :: j :: l2)%list ->
  Occurs (createIndex "[" "]" "" (nl ++ "GO" ++ nl) table i ++ ","
            ++ createIndex "[" "]" "" (nl ++ "GO" ++ nl) table j)
         (sqlServerTable sqlDataTypes table).
Proof.
  unfold sqlServerTable. intros E. rewrite E, has_indices.
  pose proof (indices_adjacent_in_join ","
                (createIndex "[" "]" "" (nl ++ "GO" ++ nl) table) l1 l2 i j) as J.
  unfold arrayToString. occurs_within J.
Qed.

Lemma sqliteTable_indices (obj : Diagram)
  (table : Table) (stmt : string) (l1 l2 : list Index) (i j : Index) :
  sqliteTable obj table = Ok stmt ->
  t_indices table = (l1 ++ i :: j :: l2)%list ->
  Occurs (createIndex dq dq "IF NOT EXISTS " "" table i ++ nl
            ++ createIndex dq dq "IF NOT EXISTS " "" table j) stmt.
Proof.
  unfold sqliteTable. intros H E.
  destruct (getInlineFK table obj) as [fk|]; [|discriminate].
  cbn [bind] in H. apply Ok_inj in H. rewrite <- H.
  rewrite E, has_indices.
  pose proof (indices_adjacent_in_join nl
                (createIndex dq dq "IF NOT EXISTS " "" table) l1 l2 i j) as J.
  occurs_within J.
Qed.

(* ------------------------------------------------------------------ *)
(** ** Texts that the output does not contain

    The tests [prefixb], [suffixb] and [occursb] decide what their names say;
    a literal that satisfies [literalPasses] passes, and so do the
    concatenations, alternatives and joined lists of texts that pass. *)

Lemma prefixb_spec (a s : string) : prefixb a s = true <-> exists y, s = a ++ y.
Proof.
  revert s. induction a as [|x a IH]; intros s.
  - simpl. split; [intros _; now exists s | reflexivity].
  - destruct s as [|y s]; simpl.
    + split; [discriminate | intros [z E]; discriminate].
    + rewrite andb_true_iff, IH. split.
      * intros [E [z ->]]. apply Ascii.eqb_eq in E. subst. now exists z.
      * intros [z E]. injection E as -> ->. split; [apply Ascii.eqb_refl | now exists z].
Qed.

Lemma suffixb_spec (a s : string) : suffixb a s = true <-> exists x, s = x ++ a.
Proof.
  unfold suffixb. rewrite existsb_exists. split.
  - intros [y [Hy E]]. apply String.eqb_eq in E. subst y. now apply suffixes_spec.
  - intros H. exists a. split; [now apply suffixes_spec | apply String.eqb_refl].
Qed.

Lemma occursb_spec (p s : string) : occursb p s = true <-> Occurs p s.
Proof.
  unfold occursb, Occurs. rewrite existsb_exists. split.
  - intros [suf [Hs Hp]]. apply suffixes_spec in Hs as [a ->].
    apply prefixb_spec in Hp as [b ->]. now exists a, b.
  - intros [a [b ->]]. exists (p ++ b). split.
    + apply suffixes_spec. now exists a.
    + apply prefixb_spec. now exists b.
Qed.

Lemma splits_spec (s a b : string) :
  In (a, b) (splits s) <-> s = a ++ b /\ a <> "".
Proof.
  revert a b. induction s as [|c s IH]; intros a b; cbn [splits].
  - split; [contradiction|]. intros [E Ha]. symmetry in E.
    apply append_eq_nil in E as [-> _]. now contradiction Ha.
  - split.
    + intros [E | H].
      * injection E as <- <-. split; [reflexivity | discriminate].
      * apply in_map_iff in H as [[a' b'] [E H]]. cbn [fst snd] in E.
        injection E as <- <-. apply IH in H as [-> _].
        split; [reflexivity | discriminate].
    + intros [E Ha]. destruct a as [|x a]; [now contradiction Ha|].
      simpl in E. injection E as -> ->.
      destruct a as [|y a].
      * left. reflexivity.
      * right. apply in_map_iff. exists (String y a, b). split; [reflexivity|].
        apply IH. split; [reflexivity | discriminate].
Qed.

Lemma cuts_spec (s a b : string) :
  In (a, b) (cuts s) <-> s = a ++ b /\ a <> "" /\ b <> "".
Proof.
  unfold cuts. rewrite filter_In, splits_spec. cbn [snd].
  destruct (String.eqb_spec b ""); cbn [negb]; intuition congruence.
Qed.

Section Absent.

Variable p : string.

(** An occurrence in [w ++ s] lies in [w], lies in [s], or begins in [w] and
    ends in [s]. *)
Lemma Occurs_append (w s : string) :
  Occurs p (w ++ s) ->
  Occurs p w \/ Occurs p s
  \/ exists a b x y, p = a ++ b /\ a <> "" /\ b <> "" /\ w = x ++ a /\ s = b ++ y.
Proof.
  intros [x [y E]].
  destruct (append_eq_append _ _ _ _ E) as [[e [-> Hs]] | [e [-> He]]].
  - right. left. now exists e, y.
  - symmetry in He.
    destruct (append_eq_append _ _ _ _ He) as [[t [Hp ->]] | [t [-> Hy]]].
    + destruct e as [|c e].
      * right. left. simpl in Hp. subst t. now exists "", y.
      * destruct t as [|d t].
        -- left. rewrite append_nil_r in Hp. subst p. exists x, "".
           now rewrite append_nil_r.
        -- right. right. exists (String c e), (String d t), x, y.
           repeat split; try assumption; discriminate.
    + left. now exists x, t.
Qed.

Lemma Passes_literal (pre post : bool) (l : string) :
  literalPasses p pre post l = true -> Passes p pre post l.
Proof.
  unfold literalPasses. intros H.
  apply andb_true_iff in H as [H Hpost]. apply andb_true_iff in H as [Hocc Hpre].
  intros w Hw Hclean. split.
  - intros O. apply Occurs_append in O as [O | [O | [a [b [x [y [Ep [Ha [Hb [Ew El]]]]]]]]]].
    + exact (Hw O).
    + apply occursb_spec in O. rewrite O in Hocc. discriminate.
    + destruct pre.
      * exact (Hclean eq_refl a b x Ep Ha Hb Ew).
      * cbn [orb] in Hpre. rewrite forallb_forall in Hpre.
        assert (C : In (a, b) (cuts p)) by (apply cuts_spec; auto).
        specialize (Hpre _ C). cbn [snd] in Hpre.
        assert (P : prefixb b l = true) by (apply prefixb_spec; now exists y).
        rewrite P in Hpre. discriminate.
  - intros ->. cbn [negb orb] in Hpost. rewrite forallb_forall in Hpost.
    intros a b x Ep Ha Hb E.
    assert (C : In (a, b) (cuts p)) by (apply cuts_spec; auto).
    specialize (Hpost _ C). cbn [fst] in Hpost.
    apply andb_true_iff in Hpost as [S1 S2].
    destruct (append_eq_append _ _ _ _ E) as [[t [-> El]] | [t [Ew Ea]]].
    + assert (S : suffixb a l = true) by (apply suffixb_spec; now exists t).
      rewrite S in S1. discriminate.
    + destruct t as [|d t].
      * simpl in Ea. subst a.
        assert (S : suffixb l l = true) by (apply suffixb_spec; now exists "").
        rewrite S in S1. discriminate.
      * destruct pre.
        -- apply (Hclean eq_refl (String d t) (l ++ b) x); try discriminate.
           ++ rewrite Ep, Ea. now rewrite append_assoc.
           ++ intros N. apply append_eq_nil in N as [_ N]. contradiction.
           ++ assumption.
        -- cbn [orb] in S2.
           assert (S : suffixb l a = true) by (apply suffixb_spec; now exists (String d t)).
           rewrite S in S2. discriminate.
Qed.

Lemma Passes_empty (pre : bool) : Passes p pre pre "".
Proof. intros w Hw Hc. rewrite append_nil_r. auto. Qed.

Lemma Passes_append (a m b : bool) (s1 s2 : string) :
  Passes p a m s1 -> Passes p m b s2 -> Passes p a b (s1 ++ s2).
Proof.
  intros H1 H2 w Hw Hc. destruct (H1 w Hw Hc) as [N1 C1].
  rewrite <- append_assoc. exact (H2 _ N1 C1).
Qed.

Lemma Passes_weaken (a b a' b' : bool) (s : string) :
  Passes p a b s -> implb a a' = true -> implb b' b = true -> Passes p a' b' s.
Proof.
  intros H Ha Hb w Hw Hc.
  destruct (H w Hw) as [N C].
  - intros ->. destruct a'; [auto | discriminate].
  - split; [exact N|]. intros ->. destruct b; [auto | discriminate].
Qed.

(** A text free of [p] passes after a clean text. *)
Lemma Passes_free (u : string) : NoOcc p u -> Passes p true false u.
Proof.
  intros Hu w Hw Hc. split; [|discriminate].
  intros O. apply Occurs_append in O as [O | [O | [a [b [x [y [Ep [Ha [Hb [Ew _]]]]]]]]]].
  - exact (Hw O).
  - exact (Hu O).
  - exact (Hc eq_refl a b x Ep Ha Hb Ew).
Qed.

Lemma Passes_if (a b1 b2 : bool) (c : bool) (x y : string) :
  Passes p a b1 x -> Passes p a b2 y -> Passes p a (b1 && b2) (if c then x else y).
Proof.
  intros Hx Hy. destruct c.
  - apply (Passes_weaken _ _ _ _ _ Hx); [now destruct a | now destruct b1, b2].
  - apply (Passes_weaken _ _ _ _ _ Hy); [now destruct a | now destruct b1, b2].
Qed.

Lemma Passes_join (a b : bool) (sep : string) (l : list string) :
  (forall x, In x l -> Passes p a b x) -> Passes p b a sep ->
  Passes p a (a && b) (join sep l).
Proof.
  intros Hl Hsep. induction l as [|x l IH].
  - apply (Passes_weaken _ _ _ _ _ (Passes_empty a)); now destruct a, b.
  - rewrite join_cons. destruct l as [|y l].
    + rewrite append_nil_r.
      apply (Passes_weaken _ _ _ _ _ (Hl x (or_introl eq_refl))); now destruct a, b.
    + apply (Passes_append a b (a && b)); [apply Hl; now left|].
      apply (Passes_append b a (a && b)); [exact Hsep|].
      apply IH. intros z Hz. apply Hl. now right.
Qed.

Lemma Passes_join_map {A : Type} (a b : bool) (sep : string) (f : A -> string)
  (l : list A) :
  (forall x, In x l -> Passes p a b (f x)) -> Passes p b a sep ->
  Passes p a (a && b) (join sep (map f l)).
Proof.
  intros Hl Hsep. apply Passes_join; [|exact Hsep].
  intros s Hs. apply in_map_iff in Hs as [x [<- Hx]]. auto.
Qed.

(** A text that passes after the empty text is free of [p]. *)
Lemma Passes_NoOcc (pre post : bool) (s : string) :
  p <> "" -> Passes p pre post s -> NoOcc p s.
Proof.
  intros Hp H. destruct (H "") as [N _].
  - intros [a [b E]]. symmetry in E. apply append_eq_nil in E as [_ E].
    apply append_eq_nil in E as [E _]. contradiction.
  - intros _ a b x _ Ha _ E. symmetry in E.
    apply append_eq_nil in E as [_ E]. contradiction.
  - exact N.
Qed.

End Absent.

Lemma Passes_post (p : string) (a b b' : bool) (s : string) :
  Passes p a b s -> implb b' b = true -> Passes p a b' s.
Proof. intros H Hb. apply (Passes_weaken p a b a b' s H); [now destruct a | exact Hb]. Qed.

Lemma Passes_pre (p : string) (a a' b : bool) (s : string) :
  Passes p a b s -> implb a a' = true -> Passes p a' b s.
Proof. intros H Ha. apply (Passes_weaken p a b a' b s H); [exact Ha | now destruct b]. Qed.

(** The literal that starts a text, and what follows it. *)
Ltac literal_prefix t :=
  lazymatch t with
  | String ?c ?r => let l := literal_prefix r in constr:(String c l)
  | _ => constr:(EmptyString)
  end.

Ltac literal_rest t :=
  lazymatch t with
  | String _ ?r => literal_rest r
  | _ => t
  end.

Ltac passes_literal :=
  first [ apply (Passes_literal _ _ true); vm_compute; reflexivity
        | apply (Passes_literal _ _ false); vm_compute; reflexivity ].

(** A fact of the context about the text of the goal. *)
Ltac passes_known :=
  match goal with
  | H : Passes _ _ _ ?x |- Passes _ _ _ ?x =>
      first [ exact H | eapply Passes_pre; [exact H | reflexivity] ]
  | H : NoOcc _ ?x |- Passes _ _ _ ?x => apply Passes_free; exact H
  | H : Passes _ _ _ _ |- Passes _ _ _ _ =>
      first [ exact H | eapply Passes_pre; [exact H | reflexivity] ]
  end.

(** What the context says of an element [x] of a list. *)
Ltac passes_use_element x Hin :=
  repeat match goal with
    | Hall : forall v, In v ?l -> @?P v |- _ =>
        lazymatch type of Hin with
        | In x l =>
            let H := fresh "Helt" in
            pose proof (Hall x Hin) as H; cbn beta in H;
            clear Hall
        end
    end.

(** Reads a concatenation from left to right. *)
Ltac passes_seq :=
  cbn [andb];
  lazymatch goal with
  | |- Passes _ _ _ EmptyString => apply Passes_empty
  | |- Passes _ _ _ (String ?c ?r) =>
      let l := literal_prefix (String c r) in
      let x := literal_rest (String c r) in
      lazymatch x with
      | EmptyString => passes_literal
      | _ => change (String c r) with (l ++ x);
             eapply Passes_append; [ passes_literal | passes_seq ]
      end
  | |- Passes _ _ _ (?x ++ ?y) =>
      eapply Passes_append; [ passes_seq | passes_seq ]
  | |- Passes _ _ _ (if _ then _ else _) =>
      eapply Passes_if; [ passes_seq | passes_seq ]
  | |- Passes _ _ _ (join _ _) =>
      first [ passes_known | passes_join ]
  | |- _ => passes_known
  end
with passes_join :=
  first
    [ eapply Passes_join_map; [ passes_element | passes_seq ]
    | eapply Passes_join; [ passes_element | passes_seq ]
    | eapply Passes_pre;
      [ eapply (Passes_join_map _ false); [ passes_element | passes_seq ]
      | reflexivity ]
    | eapply Passes_pre;
      [ eapply (Passes_join _ false); [ passes_element | passes_seq ]
      | reflexivity ] ]
with passes_element :=
  let x := fresh "x" in
  let Hin := fresh "Hin" in
  intros x Hin; passes_use_element x Hin;
  cbn beta; string_norm; passes_seq.

Ltac passes := eapply Passes_post; [ passes_seq | reflexivity ].

(** *** The texts of a diagram *)

Lemma freeOf_NoOcc (p s : string) : freeOf p s = true -> NoOcc p s.
Proof.
  unfold freeOf, NoOcc. intros H O. apply occursb_spec in O. rewrite O in H. discriminate.
Qed.

Lemma cleanField_spec (p : string) (f : Field) :
  cleanField p f = true -> CleanField p f.
Proof.
  unfold cleanField. intros H.
  repeat (apply andb_true_iff in H as [H ?]).
  constructor; try (now apply freeOf_NoOcc).
  intros v Hv. apply freeOf_NoOcc.
  match goal with X : forallb _ (f_values f) = true |- _ =>
    rewrite forallb_forall in X; now apply X end.
Qed.

Ltac clean_field H :=
  let Hn := fresh "Hname" in let Ht := fresh "Htype" in let Hl := fresh "Hlower" in
  let Hs := fresh "Hsize" in let Hv := fresh "Hvalues" in let Hd := fresh "Hdefault" in
  let Hc := fresh "Hcheck" in let Hm := fresh "Hcomment" in
  destruct H as [Hn Ht Hl Hs Hv Hd Hc Hm].

Lemma forallb_NoOcc (p : string) (l : list string) :
  forallb (freeOf p) l = true -> forall v, In v l -> NoOcc p v.
Proof.
  intros H v Hv. rewrite forallb_forall in H. apply freeOf_NoOcc. auto.
Qed.

Lemma cleanIndex_spec (p : string) (i : Index) :
  cleanIndex p i = true -> CleanIndex p i.
Proof.
  unfold cleanIndex. intros H. apply andb_true_iff in H as [H1 H2].
  constructor; [now apply freeOf_NoOcc | now apply forallb_NoOcc].
Qed.

Lemma cleanTable_spec (p : string) (t : Table) :
  cleanTable p t = true -> CleanTable p t.
Proof.
  unfold cleanTable. intros H.
  apply andb_true_iff in H as [H Hi]. apply andb_true_iff in H as [H Hf].
  apply andb_true_iff in H as [Hn Hc].
  rewrite forallb_forall in Hi, Hf.
  constructor; try (now apply freeOf_NoOcc).
  - intros f Hin. apply cleanField_spec. auto.
  - intros i Hin. apply cleanIndex_spec. auto.
Qed.

Lemma cleanReference_spec (p : string) (r : Reference) :
  cleanReference p r = true -> CleanReference p r.
Proof.
  unfold cleanReference. intros H. apply andb_true_iff in H as [H1 H2].
  constructor; now apply freeOf_NoOcc.
Qed.

Lemma cleanCType_spec (p : string) (ty : CType) :
  cleanCType p ty = true -> CleanCType p ty.
Proof.
  unfold cleanCType. intros H.
  apply andb_true_iff in H as [H Hf]. apply andb_true_iff in H as [Hn Hc].
  rewrite forallb_forall in Hf.
  constructor; try (now apply freeOf_NoOcc).
  intros f Hin. apply cleanField_spec. auto.
Qed.

Lemma cleanDiagram_spec (p : string) (obj : Diagram) :
  cleanDiagram p obj = true -> CleanDiagram p obj.
Proof.
  unfold cleanDiagram. intros H.
  apply andb_true_iff in H as [H Hty]. apply andb_true_iff in H as [Ht Hr].
  rewrite forallb_forall in Hty, Ht, Hr.
  constructor.
  - intros t Hin. apply cleanTable_spec. auto.
  - intros r Hin. apply cleanReference_spec. auto.
  - intros ty Hin. apply cleanCType_spec. auto.
Qed.

Lemma at_index_In {A : Type} (l : list A) (i : nat) (x : A) :
  at_index l i = Ok x -> In x l.
Proof.
  unfold at_index. destruct (nth_error l i) eqn:E; [|discriminate].
  intros [= <-]. exact (nth_error_In l i E).
Qed.

Lemma mapM_In_inv {A B : Type} (f : A -> result B) (l : list A) (ys : list B) (y : B) :
  mapM f l = Ok ys -> In y ys -> exists x, In x l /\ f x = Ok y.
Proof.
  revert ys. induction l as [|a l IH]; intros ys H Hin; simpl in H.
  - injection H as <-. contradiction.
  - destruct (f a) as [b|] eqn:Hb; [|discriminate]. simpl in H.
    destruct (mapM f l) as [bs|] eqn:Hbs; [|discriminate]. simpl in H.
    injection H as <-. destruct Hin as [<- | Hin].
    + exists a. split; [now left | assumption].
    + destruct (IH bs eq_refl Hin) as [x [Hx Hy]]. exists x. split; [now right | assumption].
Qed.

Ltac unfold_clauses :=
  unfold lineComment, blockComment, docComment, notNullClause, uniqueClause,
    defaultClause, checkClause, parseDefault, primaryKeyClause, primaryKeyText,
    createEnumType, referentialActions, quoted, arrayToString, nl, tab, dq.

Ltac clean_index H :=
  let Hn := fresh "Hiname" in let Hf := fresh "Hifields" in
  destruct H as [Hn Hf].

Ltac prove_sqliteField :=
  let H := fresh "H" in
  intros H; clean_field H;
  unfold sqliteField, getSQLiteType; unfold_clauses;
  string_norm; passes.

Ltac prove_sqliteIndex :=
  let H := fresh "H" in let Ht := fresh "Ht" in
  intros Ht H; clean_index H;
  unfold createIndex; unfold_clauses; string_norm; passes.

Lemma sqliteField_no_alter (f : Field) :
  CleanField alterTableWords f -> Passes alterTableWords false false (sqliteField f).
Proof. prove_sqliteField. Qed.

Lemma sqliteField_no_comma (f : Field) :
  CleanField commaBeforeCreate f -> Passes commaBeforeCreate false false (sqliteField f).
Proof. prove_sqliteField. Qed.

Lemma sqliteField_no_key (f : Field) :
  CleanField primaryKeyWords f -> Passes primaryKeyWords false false (sqliteField f).
Proof. prove_sqliteField. Qed.

Lemma sqliteIndex_no_alter (table : Table) (i : Index) :
  NoOcc alterTableWords (t_name table) -> CleanIndex alterTableWords i ->
  Passes alterTableWords true true (createIndex dq dq "IF NOT EXISTS " "" table i).
Proof. prove_sqliteIndex. Qed.

Lemma sqliteIndex_no_comma (table : Table) (i : Index) :
  NoOcc commaBeforeCreate (t_name table) -> CleanIndex commaBeforeCreate i ->
  Passes commaBeforeCreate true true (createIndex dq dq "IF NOT EXISTS " "" table i).
Proof. prove_sqliteIndex. Qed.

Ltac prove_inlineFK :=
  let Hd := fresh "Hd" in let Ht := fresh "Ht" in let H := fresh "H" in
  intros Hd Ht H; rewrite getInlineFK_find in H;
  destruct Hd as [Htables Hrefs _];
  lazymatch type of H with
  | match find ?g ?l with _ => _ end = _ =>
      let r := fresh "r" in let F := fresh "F" in
      destruct (find g l) as [r|] eqn:F;
      [ apply find_some in F as [F _]; unfold inlineFKClause in H;
        lazymatch type of H with
        | bind ?m _ = _ =>
            let sf := fresh "sf" in let E1 := fresh "E1" in
            destruct m as [sf|] eqn:E1; [|discriminate]; cbn [bind] in H;
            lazymatch type of H with
            | bind ?m2 _ = _ =>
                let et := fresh "et" in let E2 := fresh "E2" in
                destruct m2 as [et|] eqn:E2; [|discriminate]; cbn [bind] in H;
                lazymatch type of H with
                | bind ?m3 _ = _ =>
                    let ef := fresh "ef" in let E3 := fresh "E3" in
                    destruct m3 as [ef|] eqn:E3; [|discriminate]; cbn [bind] in H;
                    apply Ok_inj in H; rewrite <- H;
                    apply at_index_In in E1, E2, E3;
                    pose proof (clean_name _ _ (clean_table_fields _ _ (Htables _ Ht) _ E1));
                    pose proof (clean_table_name _ _ (Htables _ E2));
                    pose proof (clean_name _ _ (clean_table_fields _ _ (Htables _ E2) _ E3));
                    pose proof (clean_update _ _ (Hrefs _ F));
                    pose proof (clean_delete _ _ (Hrefs _ F));
                    unfold_clauses; string_norm; passes
                end
            end
        end
      | apply Ok_inj in H; rewrite <- H;
        eapply Passes_post; [apply Passes_empty | reflexivity] ]
  end.

Lemma inlineFK_no_alter (obj : Diagram) (table : Table) (fk : string) :
  CleanDiagram alterTableWords obj -> In table (d_tables obj) ->
  getInlineFK table obj = Ok fk -> Passes alterTableWords true false fk.
Proof. prove_inlineFK. Qed.

Lemma inlineFK_no_comma (obj : Diagram) (table : Table) (fk : string) :
  CleanDiagram commaBeforeCreate obj -> In table (d_tables obj) ->
  getInlineFK table obj = Ok fk -> Passes commaBeforeCreate true false fk.
Proof. prove_inlineFK. Qed.

Lemma inlineFK_no_key (obj : Diagram) (table : Table) (fk : string) :
  CleanDiagram primaryKeyWords obj -> In table (d_tables obj) ->
  getInlineFK table obj = Ok fk -> Passes primaryKeyWords true false fk.
Proof. prove_inlineFK. Qed.

Lemma primary_names_clean (p : string) (table : Table) :
  CleanTable p table ->
  forall f, In f (filter f_primary (t_fields table)) -> NoOcc p (f_name f).
Proof.
  intros H f Hin. apply filter_In in Hin as [Hin _].
  exact (clean_name _ _ (clean_table_fields _ _ H _ Hin)).
Qed.

(** The statement of a table, once the facts on its parts are in the
    context. *)
Ltac prove_sqliteTable fieldLemma indexLemma fkLemma :=
  let Hd := fresh "Hd" in let Ht := fresh "Ht" in let H := fresh "H" in
  intros Hd Ht H; unfold sqliteTable in H;
  lazymatch type of H with
  | bind ?m _ = _ =>
      let fk := fresh "fk" in let Efk := fresh "Efk" in
      destruct m as [fk|] eqn:Efk; [|discriminate]; cbn [bind] in H;
      apply Ok_inj in H; rewrite <- H;
      pose proof (fkLemma _ _ _ Hd Ht Efk);
      pose proof (primary_names_clean _ _ (clean_tables _ _ Hd _ Ht));
      pose proof (fun f Hf => fieldLemma f
                    (clean_table_fields _ _ (clean_tables _ _ Hd _ Ht) f Hf));
      pose proof (fun i Hi => indexLemma _ i
                    (clean_table_name _ _ (clean_tables _ _ Hd _ Ht))
                    (clean_table_indices _ _ (clean_tables _ _ Hd _ Ht) i Hi));
      pose proof (clean_table_name _ _ (clean_tables _ _ Hd _ Ht));
      pose proof (clean_table_comment _ _ (clean_tables _ _ Hd _ Ht));
      unfold_clauses; string_norm; passes
  end.

Lemma sqliteTable_no_alter (obj : Diagram) (table : Table) (stmt : string) :
  CleanDiagram alterTableWords obj -> In table (d_tables obj) ->
  sqliteTable obj table = Ok stmt -> Passes alterTableWords true true stmt.
Proof. prove_sqliteTable sqliteField_no_alter sqliteIndex_no_alter inlineFK_no_alter. Qed.

Lemma sqliteTable_no_comma (obj : Diagram) (table : Table) (stmt : string) :
  CleanDiagram commaBeforeCreate obj -> In table (d_tables obj) ->
  sqliteTable obj table = Ok stmt -> Passes commaBeforeCreate true true stmt.
Proof. prove_sqliteTable sqliteField_no_comma sqliteIndex_no_comma inlineFK_no_comma. Qed.

Lemma jsonToSQLite_absent (p : string) (obj : Diagram) (out : string) :
  p <> "" ->
  (forall t stmt, In t (d_tables obj) -> sqliteTable obj t = Ok stmt ->
                  Passes p true true stmt) ->
  Passes p true true nl ->
  jsonToSQLite obj = Ok out -> NoOcc p out.
Proof.
  intros Hp Ht Hnl H. unfold jsonToSQLite in H.
  destruct (mapM (sqliteTable obj) (d_tables obj)) as [ts|] eqn:E; [|discriminate].
  cbn [bind] in H. apply Ok_inj in H. rewrite <- H.
  apply (Passes_NoOcc p true (true && true)); [exact Hp|].
  apply Passes_join; [|exact Hnl].
  intros s Hs. destruct (mapM_In_inv _ _ _ _ E Hs) as [t [Hin Hst]]. eauto.
Qed.

(** ** SQLite: the foreign key of a table *)

Lemma find_first {A : Type} (g : A -> bool) (l1 l2 : list A) (x : A) :
  (forall y, In y l1 -> g y = false) -> g x = true ->
  find g (l1 ++ x :: l2)%list = Some x.
Proof.
  intros H Hx. induction l1 as [|y l1 IH]; cbn [List.app find].
  - now rewrite Hx.
  - rewrite (H y (or_introl eq_refl)). apply IH. intros z Hz. apply H. now right.
Qed.

Lemma find_none {A : Type} (g : A -> bool) (l : list A) :
  (forall y, In y l -> g y = false) -> find g l = None.
Proof.
  intros H. induction l as [|y l IH]; [reflexivity|]. cbn [find].
  rewrite (H y (or_introl eq_refl)). apply IH. intros z Hz. apply H. now right.
Qed.

Lemma no_overlap (p t u x y : string) :
  unbordered p = true -> p = t ++ u -> t <> "" -> p ++ x = u ++ y -> u = "".
Proof.
  intros Hb Ep Ht E. destruct u as [|c u]; [reflexivity|]. exfalso.
  unfold unbordered in Hb. rewrite forallb_forall in Hb.
  assert (C : In (t, String c u) (cuts p))
    by (apply cuts_spec; repeat split; [assumption | assumption | discriminate]).
  specialize (Hb _ C). cbn [snd] in Hb.
  destruct (append_eq_append _ _ _ _ E) as [[e [Eu Ex]] | [e [Ep' Ey]]].
  - apply (f_equal String.length) in Ep, Eu. rewrite length_append in Ep, Eu.
    destruct t; [contradiction | simpl in Ep, Eu; lia].
  - assert (P : prefixb (String c u) p = true) by (apply prefixb_spec; now exists e).
    rewrite P in Hb. discriminate.
Qed.

Lemma OccursOnce_between (p a b : string) :
  unbordered p = true -> NoOcc p a -> NoOcc p b -> OccursOnce p (a ++ p ++ b).
Proof.
  intros Hb Ha Hb'. exists a, b. split; [reflexivity|].
  intros a' b' E.
  destruct (append_eq_append _ _ _ _ E) as [[t [Ea' Et]] | [t [Ea Et]]].
  - (* the other occurrence starts here or later *)
    destruct t as [|c t].
    + rewrite append_nil_r in Ea'. simpl in Et. subst a'.
      split; [reflexivity|]. symmetry. exact (append_inv_head _ _ _ Et).
    + exfalso. apply Hb'.
      destruct (append_eq_append _ _ _ _ Et) as [[e [Ee Eb]] | [e [Ep Eb']]].
      * rewrite Eb. now exists e, b'.
      * assert (U : e = "")
          by (apply (no_overlap p (String c t) e b' b Hb Ep); [discriminate | exact Eb']).
        subst e. simpl in Eb'. rewrite <- Eb'. now exists "", b'.
  - (* the other occurrence starts earlier *)
    destruct t as [|c t].
    + rewrite append_nil_r in Ea. simpl in Et. subst a'.
      split; [reflexivity|]. exact (append_inv_head _ _ _ Et).
    + exfalso. apply Ha.
      destruct (append_eq_append _ _ _ _ Et) as [[e [Ee Eb]] | [e [Ep Eb']]].
      * rewrite Ea, Ee. exists a', e. reflexivity.
      * assert (U : e = "")
          by (apply (no_overlap p (String c t) e b b' Hb Ep); [discriminate | exact Eb']).
        subst e. rewrite append_nil_r in Ep. rewrite Ea, <- Ep.
        exists a', "". now rewrite append_nil_r.
Qed.

Lemma find_is_some {A : Type} (g : A -> bool) (l : list A) :
  (exists x, In x l /\ g x = true) -> exists y, find g l = Some y.
Proof.
  intros [x [Hin Hx]]. destruct (find g l) as [y|] eqn:F; [now exists y|].
  rewrite (List.find_none g l F x Hin) in Hx. discriminate.
Qed.

Lemma sqliteField_no_foreign_key (f : Field) :
  CleanField foreignKeyWords f -> Passes foreignKeyWords false false (sqliteField f).
Proof. prove_sqliteField. Qed.

Lemma sqliteIndex_no_foreign_key (table : Table) (i : Index) :
  NoOcc foreignKeyWords (t_name table) -> CleanIndex foreignKeyWords i ->
  Passes foreignKeyWords true true (createIndex dq dq "IF NOT EXISTS " "" table i).
Proof. prove_sqliteIndex. Qed.

(** The statement of a table has the words [FOREIGN KEY] once when a
    reference starts at the table, and not at all when none does. *)
Lemma sqliteTable_foreign_key_count (obj : Diagram) (table : Table) (stmt : string) :
  CleanDiagram foreignKeyWords obj -> In table (d_tables obj) ->
  sqliteTable obj table = Ok stmt ->
  match find (startsAt table) (d_references obj) with
  | Some _ => OccursOnce foreignKeyWords stmt
  | None => NoOcc foreignKeyWords stmt
  end.
Proof.
  intros Hd Ht H. unfold sqliteTable in H. rewrite getInlineFK_find in H.
  pose proof (primary_names_clean _ _ (clean_tables _ _ Hd _ Ht)) as Hnames.
  pose proof (fun f Hf => sqliteField_no_foreign_key f
                (clean_table_fields _ _ (clean_tables _ _ Hd _ Ht) f Hf)) as Hfields.
  pose proof (fun i Hi => sqliteIndex_no_foreign_key _ i
                (clean_table_name _ _ (clean_tables _ _ Hd _ Ht))
                (clean_table_indices _ _ (clean_tables _ _ Hd _ Ht) i Hi)) as Hindices.
  pose proof (clean_table_name _ _ (clean_tables _ _ Hd _ Ht)) as Hname.
  pose proof (clean_table_comment _ _ (clean_tables _ _ Hd _ Ht)) as Hcomment.
  destruct (find (startsAt table) (d_references obj)) as [r|] eqn:F.
  - apply find_some in F as [F _]. unfold inlineFKClause in H.
    destruct (at_index (t_fields table) (r_startFieldId r)) as [sf|] eqn:E1;
      [|discriminate].
    cbn [bind] in H.
    destruct (at_index (d_tables obj) (r_endTableId r)) as [et|] eqn:E2;
      [|discriminate].
    cbn [bind] in H.
    destruct (at_index (t_fields et) (r_endFieldId r)) as [ef|] eqn:E3;
      [|discriminate].
    cbn [bind] in H. apply Ok_inj in H.
    apply at_index_In in E1, E2, E3.
    pose proof (clean_name _ _ (clean_table_fields _ _ (clean_tables _ _ Hd _ Ht) _ E1)).
    pose proof (clean_table_name _ _ (clean_tables _ _ Hd _ E2)).
    pose proof (clean_name _ _
                  (clean_table_fields _ _ (clean_tables _ _ Hd _ E2) _ E3)).
    pose proof (clean_update _ _ (clean_references _ _ Hd _ F)).
    pose proof (clean_delete _ _ (clean_references _ _ Hd _ F)).
    assert (S : stmt
                = (blockComment (t_comment table)
                     ++ "CREATE TABLE IF NOT EXISTS " ++ dq ++ t_name table ++ dq
                     ++ " (" ++ nl
                     ++ join ("," ++ nl) (map sqliteField (t_fields table))
                     ++ (if hasPrimary table
                         then primaryKeyText dq dq table ++ "," ++ nl else "")
                     ++ tab)
                    ++ foreignKeyWords
                    ++ " (" ++ dq ++ f_name sf ++ dq ++ ") REFERENCES "
                    ++ dq ++ t_name et ++ dq ++ "(" ++ dq ++ f_name ef ++ dq ++ ")"
                    ++ nl ++ tab ++ referentialActions r ++ nl ++ ");" ++ nl
                    ++ (if (0 <? List.length (t_indices table))%nat
                        then join nl (map (createIndex dq dq "IF NOT EXISTS " "" table)
                                          (t_indices table))
                        else "")).
    { rewrite <- H. cbn [append String.eqb negb].
      unfold foreignKeyWords, nl, tab, dq.
      destruct (hasPrimary table); string_norm; reflexivity. }
    rewrite S. apply OccursOnce_between; [reflexivity | |].
    + apply (Passes_NoOcc foreignKeyWords true false); [discriminate|].
      unfold_clauses. string_norm. passes.
    + apply (Passes_NoOcc foreignKeyWords true false); [discriminate|].
      unfold_clauses. string_norm. passes.
  - cbn [bind] in H. apply Ok_inj in H. rewrite <- H.
    apply (Passes_NoOcc foreignKeyWords true false); [discriminate|].
    cbn [String.eqb negb]. unfold_clauses. string_norm. passes.
Qed.

(** C5: SQLite gets its foreign keys inside [CREATE TABLE]. For a table,
    [getInlineFK] is the clause of the first reference of the diagram whose
    [startTableId] is the [id] of the table, whatever references follow, and
    is empty when there is none; a clause starts with [FOREIGN KEY]; the
    statement of the table is the heading, the column lines, the primary key
    clause if any, that one clause and the closing parenthesis, followed by
    the index statements; when no text of the diagram contains [FOREIGN KEY],
    the statement has these words once if some reference starts at the
    table, however many do, and not at all otherwise; and when no text of
    the diagram contains [ALTER TABLE], the output does not contain it. *)
Theorem sqlite_inline_foreign_key (obj : Diagram) (table : Table) :
  In table (d_tables obj) ->
  (forall l1 r l2,
      d_references obj = (l1 ++ r :: l2)%list ->
      (forall r', In r' l1 -> startsAt table r' = false) ->
      startsAt table r = true ->
      getInlineFK table obj = inlineFKClause table obj r)
  /\ ((forall r, In r (d_references obj) -> startsAt table r = false) ->
      getInlineFK table obj = Ok "")
  /\ (forall r fk, inlineFKClause table obj r = Ok fk ->
      (exists rest, fk = "FOREIGN KEY (" ++ rest)
      /\ Occurs (referentialActions r) fk)
  /\ (forall stmt, sqliteTable obj table = Ok stmt ->
      exists fk,
        getInlineFK table obj = Ok fk
        /\ stmt = blockComment (t_comment table)
                    ++ "CREATE TABLE IF NOT EXISTS " ++ dq ++ t_name table ++ dq
                    ++ " (" ++ nl
                    ++ join ("," ++ nl) (map sqliteField (t_fields table))
                    ++ (if hasPrimary table
                        then primaryKeyText dq dq table
                               ++ (if negb (fk =? "") then "," ++ nl else "")
                        else "")
                    ++ tab ++ fk ++ nl ++ ");" ++ nl
                    ++ (if (0 <? List.length (t_indices table))%nat
                        then join nl (map (createIndex dq dq "IF NOT EXISTS " "" table)
                                          (t_indices table))
                        else ""))
  /\ (cleanDiagram foreignKeyWords obj = true ->
      forall stmt, sqliteTable obj table = Ok stmt ->
        ((exists r, In r (d_references obj) /\ startsAt table r = true) ->
         OccursOnce foreignKeyWords stmt)
        /\ ((forall r, In r (d_references obj) -> startsAt table r = false) ->
            NoOcc foreignKeyWords stmt))
  /\ (cleanDiagram alterTableWords obj = true ->
      forall out, jsonToSQLite obj = Ok out -> NoOcc alterTableWords out)
  /\ (inlineReferencesResolve obj = true ->
      exists out stmt, jsonToSQLite obj = Ok out
                       /\ sqliteTable obj table = Ok stmt /\ Occurs stmt out).
Proof.
  intros Ht. split.
  { intros l1 r l2 E Hl1 Hr. rewrite getInlineFK_find, E.
    now rewrite (find_first (startsAt table) l1 l2 r Hl1 Hr). }
  split.
  { intros H. rewrite getInlineFK_find. now rewrite (find_none _ _ H). }
  split.
  { intros r fk H. split; [|exact (inlineFKClause_actions _ _ _ _ H)].
    unfold inlineFKClause in H.
    destruct (at_index (t_fields table) (r_startFieldId r)) as [sf|]; [|discriminate].
    cbn [bind] in H.
    destruct (at_index (d_tables obj) (r_endTableId r)) as [et|]; [|discriminate].
    cbn [bind] in H.
    destruct (at_index (t_fields et) (r_endFieldId r)) as [ef|]; [|discriminate].
    cbn [bind] in H. apply Ok_inj in H. rewrite <- H.
    eexists. cbn [append]. reflexivity. }
  split.
  { intros stmt H. unfold sqliteTable in H.
    destruct (getInlineFK table obj) as [fk|]; [|discriminate].
    cbn [bind] in H. apply Ok_inj in H.
    exists fk. split; [reflexivity|]. now rewrite <- H. }
  split.
  { intros Hc stmt Hs. apply cleanDiagram_spec in Hc.
    pose proof (sqliteTable_foreign_key_count obj table stmt Hc Ht Hs) as C.
    split.
    - intros Hex. destruct (find_is_some _ _ Hex) as [y Hy].
      now rewrite Hy in C.
    - intros Hnone. now rewrite (find_none _ _ Hnone) in C. }
  split.
  { intros Hc out Ho. apply cleanDiagram_spec in Hc.
    apply (jsonToSQLite_absent alterTableWords obj out); [discriminate | | | exact Ho].
    - intros t stmt Hin Hs. exact (sqliteTable_no_alter obj t stmt Hc Hin Hs).
    - apply (Passes_literal _ true true). reflexivity. }
  intros Hr. destruct (jsonToSQLite_total obj Hr) as [out Ho].
  destruct (sqliteTable_in_output obj out table Ho Ht) as [stmt [Hs Os]].
  now exists out, stmt.
Qed.

(** ** The separator of the index statements *)

Lemma createIndex_starts (qo qc ifNotExists terminator : string) (table : Table) (i : Index) :
  exists rest, createIndex qo qc ifNotExists terminator table i = nl ++ "CREATE" ++ rest.
Proof. unfold createIndex. eexists. cbn [append]. reflexivity. Qed.

Lemma comma_before_create (x : string) (qo qc ifNotExists terminator : string)
  (table : Table) (j : Index) (s : string) :
  Occurs (x ++ "," ++ createIndex qo qc ifNotExists terminator table j) s ->
  Occurs commaBeforeCreate s.
Proof.
  intros H. eapply Occurs_step; [exact H|].
  destruct (createIndex_starts qo qc ifNotExists terminator table j) as [rest ->].
  apply Occurs_skip. unfold commaBeforeCreate. occurs_here.
Qed.

(** C8: between two successive index statements of a table, MySQL, MariaDB,
    PostgreSQL and SQL Server emit a comma, the separator of an array turned
    into a string, while SQLite emits a line break; when no text of the
    diagram contains a comma followed by a line break and [CREATE], the SQLite
    output does not contain that text, which the four other outputs do. *)
Theorem index_statements_separator (sqlDataTypes : list string) (obj : Diagram)
  (table : Table) (l1 l2 : list Index) (i j : Index) :
  In table (d_tables obj) ->
  t_indices table = (l1 ++ i :: j :: l2)%list ->
  (referencesResolve obj = true -> typesResolve sqlDataTypes obj = true ->
   exists out, jsonToMySQL sqlDataTypes obj = Ok out
     /\ Occurs (createIndex "`" "`" "" "" table i ++ ","
                  ++ createIndex "`" "`" "" "" table j) out
     /\ Occurs commaBeforeCreate out)
  /\ (referencesResolve obj = true -> typesResolve sqlDataTypes obj = true ->
      exists out, jsonToMariaDB sqlDataTypes obj = Ok out
        /\ Occurs (createIndex "`" "`" "" "" table i ++ ","
                     ++ createIndex "`" "`" "" "" table j) out
        /\ Occurs commaBeforeCreate out)
  /\ (referencesResolve obj = true ->
      exists out, jsonToPostgreSQL sqlDataTypes obj = Ok out
        /\ Occurs (createIndex dq dq "" "" table i ++ ","
                     ++ createIndex dq dq "" "" table j) out
        /\ Occurs commaBeforeCreate out)
  /\ (referencesResolve obj = true -> typesHaveFields obj = true ->
      exists out, jsonToSQLServer sqlDataTypes obj = Ok out
        /\ Occurs (createIndex "[" "]" "" (nl ++ "GO" ++ nl) table i ++ ","
                     ++ createIndex "[" "]" "" (nl ++ "GO" ++ nl) table j) out
        /\ Occurs commaBeforeCreate out)
  /\ (inlineReferencesResolve obj = true ->
      exists out, jsonToSQLite obj = Ok out
        /\ Occurs (createIndex dq dq "IF NOT EXISTS " "" table i ++ nl
                     ++ createIndex dq dq "IF NOT EXISTS " "" table j) out
        /\ (cleanDiagram commaBeforeCreate obj = true -> NoOcc commaBeforeCreate out)).
Proof.
  intros Ht E. split.
  { intros Hr Hty. destruct (jsonToMySQL_total sqlDataTypes obj Hr Hty) as [out Ho].
    exists out. split; [assumption|].
    destruct (mysqlTable_in_output sqlDataTypes obj out table Ho Ht) as [stmt [Hs Os]].
    assert (O : Occurs (createIndex "`" "`" "" "" table i ++ ","
                          ++ createIndex "`" "`" "" "" table j) out).
    { eapply Occurs_step; [exact Os|].
      exact (mysqlTable_indices sqlDataTypes obj table stmt l1 l2 i j Hs E). }
    split; [exact O | exact (comma_before_create _ _ _ _ _ _ _ _ O)]. }
  split.
  { intros Hr Hty. destruct (jsonToMariaDB_total sqlDataTypes obj Hr Hty) as [out Ho].
    exists out. split; [assumption|].
    destruct (mariadbTable_in_output sqlDataTypes obj out table Ho Ht) as [stmt [Hs Os]].
    assert (O : Occurs (createIndex "`" "`" "" "" table i ++ ","
                          ++ createIndex "`" "`" "" "" table j) out).
    { eapply Occurs_step; [exact Os|].
      exact (mariadbTable_indices sqlDataTypes obj table stmt l1 l2 i j Hs E). }
    split; [exact O | exact (comma_before_create _ _ _ _ _ _ _ _ O)]. }
  split.
  { intros Hr. destruct (jsonToPostgreSQL_total sqlDataTypes obj Hr) as [out Ho].
    exists out. split; [assumption|].
    assert (O : Occurs (createIndex dq dq "" "" table i ++ ","
                          ++ createIndex dq dq "" "" table j) out).
    { eapply Occurs_step;
        [exact (postgresTable_in_output sqlDataTypes obj out table Ho Ht)|].
      exact (postgresTable_indices sqlDataTypes table l1 l2 i j E). }
    split; [exact O | exact (comma_before_create _ _ _ _ _ _ _ _ O)]. }
  split.
  { intros Hr Hty. destruct (jsonToSQLServer_total sqlDataTypes obj Hr Hty) as [out Ho].
    exists out. split; [assumption|].
    assert (O : Occurs (createIndex "[" "]" "" (nl ++ "GO" ++ nl) table i ++ ","
                          ++ createIndex "[" "]" "" (nl ++ "GO" ++ nl) table j) out).
    { eapply Occurs_step;
        [exact (sqlServerTable_in_output sqlDataTypes obj out table Ho Ht)|].
      exact (sqlServerTable_indices sqlDataTypes table l1 l2 i j E). }
    split; [exact O | exact (comma_before_create _ _ _ _ _ _ _ _ O)]. }
  intros Hr. destruct (jsonToSQLite_total obj Hr) as [out Ho].
  exists out. split; [assumption|]. split.
  { destruct (sqliteTable_in_output obj out table Ho Ht) as [stmt [Hs Os]].
    eapply Occurs_step; [exact Os|].
    exact (sqliteTable_indices obj table stmt l1 l2 i j Hs E). }
  intros Hc. apply cleanDiagram_spec in Hc.
  apply (jsonToSQLite_absent commaBeforeCreate obj out); [discriminate | | | exact Ho].
  - intros t stmt Hin Hs. exact (sqliteTable_no_comma obj t stmt Hc Hin Hs).
  - apply (Passes_literal _ true true). reflexivity.
Qed.

(** ** The primary key of a table *)

Lemma hasPrecision_cases (type : string) :
  hasPrecision type = true ->
  type = "DOUBLE" \/ type = "NUMERIC" \/ type = "DECIMAL" \/ type = "FLOAT".
Proof.
  unfold hasPrecision. rewrite includes_In. simpl. intuition.
Qed.

Ltac compute_tests :=
  cbn [String.eqb Ascii.eqb Bool.eqb andb orb negb interpolate
       isSized hasPrecision includes existsb].

(** The lower case of a type name of the vocabulary. *)
Ltac lower_literal :=
  lazymatch goal with
  | |- context [toLowerCase ?s] =>
      rewrite (toLowerCase_ascii s eq_refl);
      let v := eval vm_compute in (asciiLowerCase s) in
      change (asciiLowerCase s) with v
  end.

Lemma postgresField_no_key (sqlDataTypes : list string) (f : Field) :
  CleanField primaryKeyWords f ->
  Passes primaryKeyWords false false (postgresField sqlDataTypes f).
Proof.
  intros H. clean_field H.
  unfold postgresField, getTypeString. compute_tests.
  unfold getTypeString_postgres.
  destruct (hasPrecision (f_type f)) eqn:HP.
  - apply hasPrecision_cases in HP.
    destruct HP as [E | [E | [E | E]]]; rewrite E; compute_tests;
      lower_literal;
      unfold_clauses; string_norm; passes.
  - compute_tests. unfold_clauses. string_norm. passes.
Qed.

(** Takes the [switch] of [getTypeString_mssql] apart. *)
Ltac switch_cases :=
  repeat lazymatch goal with
    | |- context [match (if ?c then _ else _) with Return _ => _ | Break _ => _ end] =>
        destruct c; cbn beta iota
    end.

Lemma sqlServerField_no_key (sqlDataTypes : list string) (f : Field) :
  CleanField primaryKeyWords f ->
  Passes primaryKeyWords false false (sqlServerField sqlDataTypes f).
Proof.
  intros H. clean_field H.
  unfold sqlServerField, getTypeString. compute_tests.
  unfold getTypeString_mssql. cbn zeta.
  switch_cases; unfold_clauses; string_norm; passes.
Qed.

Lemma schemaProperty_no_key (sqlDataTypes : list string) (f : Field) :
  CleanField primaryKeyWords f ->
  Passes primaryKeyWords false false (schemaProperty sqlDataTypes f).
Proof.
  intros H. clean_field H.
  unfold schemaProperty, getJsonType. unfold_clauses. string_norm. passes.
Qed.

Lemma generateSchemaOf_no_key (sqlDataTypes : list string) (type : CType) :
  CleanCType primaryKeyWords type ->
  Passes primaryKeyWords false false (generateSchemaOf sqlDataTypes type).
Proof.
  intros [_ _ Hf].
  pose proof (fun f Hin => schemaProperty_no_key sqlDataTypes f (Hf f Hin)).
  unfold generateSchemaOf. unfold_clauses. string_norm. passes.
Qed.

Lemma jsonCheckClause_no_key (sqlDataTypes : list string) (q : string)
  (obj : Diagram) (f : Field) (chk : string) :
  q = dq \/ q = "'" ->
  CleanDiagram primaryKeyWords obj -> CleanField primaryKeyWords f ->
  jsonCheckClause sqlDataTypes q obj f = Ok chk ->
  Passes primaryKeyWords false false chk.
Proof.
  intros Hq Hd H E. clean_field H. unfold jsonCheckClause in E.
  destruct ((f_check f =? "") || negb (hasCheck (f_type f))).
  - destruct (negb (includes sqlDataTypes (f_type f))).
    + destruct (find _ (d_types obj)) as [ty|] eqn:F; [|discriminate].
      apply find_some in F as [F _].
      pose proof (generateSchemaOf_no_key sqlDataTypes ty (clean_types _ _ Hd ty F)).
      cbn [generateSchema bind] in E. apply Ok_inj in E. rewrite <- E.
      destruct Hq as [-> | ->]; unfold_clauses; string_norm; passes.
    + apply Ok_inj in E. rewrite <- E. apply Passes_empty.
  - apply Ok_inj in E. rewrite <- E. string_norm. passes.
Qed.

Lemma mysqlField_no_key (sqlDataTypes : list string) (obj : Diagram)
  (f : Field) (line : string) :
  CleanDiagram primaryKeyWords obj -> CleanField primaryKeyWords f ->
  mysqlField sqlDataTypes obj f = Ok line ->
  Passes primaryKeyWords false false line.
Proof.
  intros Hd H E. unfold mysqlField in E.
  destruct (jsonCheckClause sqlDataTypes dq obj f) as [chk|] eqn:C; [|discriminate].
  pose proof (jsonCheckClause_no_key sqlDataTypes dq obj f chk
                (or_introl eq_refl) Hd H C).
  clean_field H. cbn [bind] in E. apply Ok_inj in E. rewrite <- E.
  unfold getTypeString. compute_tests. unfold getTypeString_mysql.
  unfold_clauses. string_norm. passes.
Qed.

Lemma mariadbField_no_key (sqlDataTypes : list string) (obj : Diagram)
  (f : Field) (line : string) :
  CleanDiagram primaryKeyWords obj -> CleanField primaryKeyWords f ->
  mariadbField sqlDataTypes obj f = Ok line ->
  Passes primaryKeyWords false false line.
Proof.
  intros Hd H E. unfold mariadbField in E.
  destruct (jsonCheckClause sqlDataTypes "'" obj f) as [chk|] eqn:C; [|discriminate].
  pose proof (jsonCheckClause_no_key sqlDataTypes "'" obj f chk
                (or_intror eq_refl) Hd H C).
  clean_field H. cbn [bind] in E. apply Ok_inj in E. rewrite <- E.
  unfold getTypeString. compute_tests. unfold getTypeString_mysql.
  unfold_clauses. string_norm. passes.
Qed.

Lemma index_no_key (qo qc ifNotExists terminator : string) (table : Table) (i : Index) :
  In (qo, qc, ifNotExists, terminator)
     [ ("`", "`", "", ""); (dq, dq, "", ""); (dq, dq, "IF NOT EXISTS ", "");
       ("[", "]", "", nl ++ "GO" ++ nl) ] ->
  NoOcc primaryKeyWords (t_name table) -> CleanIndex primaryKeyWords i ->
  Passes primaryKeyWords false true (createIndex qo qc ifNotExists terminator table i).
Proof.
  intros Hq Ht H. clean_index H. cbn [In] in Hq.
  destruct Hq as [E | [E | [E | [E | []]]]]; injection E as <- <- <- <-;
    unfold createIndex; unfold_clauses; string_norm; passes.
Qed.

Lemma primaryKeyText_list (qo qc : string) (table : Table) :
  primaryKeyText qo qc table = primaryKeyList qo qc table.
Proof.
  unfold primaryKeyText, primaryKeyList, primaryNames. now rewrite map_map.
Qed.

Ltac table_facts Hd Ht :=
  pose proof (primary_names_clean _ _ (clean_tables _ _ Hd _ Ht));
  pose proof (clean_table_name _ _ (clean_tables _ _ Hd _ Ht));
  pose proof (clean_table_comment _ _ (clean_tables _ _ Hd _ Ht)).

Ltac index_facts qo qc ifNotExists terminator Hd Ht :=
  pose proof (fun i Hi =>
                index_no_key qo qc ifNotExists terminator _ i
                  ltac:(cbn [In]; tauto)
                  (clean_table_name _ _ (clean_tables _ _ Hd _ Ht))
                  (clean_table_indices _ _ (clean_tables _ _ Hd _ Ht) i Hi)).

Lemma mysqlTable_parts (sqlDataTypes : list string) (obj : Diagram)
  (table : Table) (stmt : string) :
  mysqlTable sqlDataTypes obj table = Ok stmt ->
  exists lines,
    mapM (mysqlField sqlDataTypes obj) (t_fields table) = Ok lines
    /\ TableParts "`" "`" obj table (join ("," ++ nl) lines) "" stmt.
Proof.
  unfold mysqlTable. intros H.
  destruct (mapM _ (t_fields table)) as [lines|] eqn:E; [|discriminate].
  cbn [bind] in H. apply Ok_inj in H.
  exists lines. split; [reflexivity|].
  split.
  { intros Hp. exists (blockComment (t_comment table) ++ "CREATE TABLE "). eexists.
    rewrite <- H. unfold primaryKeyClause. rewrite Hp, primaryKeyText_list.
    rewrite !append_assoc. cbn [append]. reflexivity. }
  exists (blockComment (t_comment table) ++ "CREATE TABLE `" ++ t_name table
            ++ "` (" ++ nl).
  eexists. split.
  - rewrite <- H. rewrite !append_assoc. reflexivity.
  - intros Hd Ht. table_facts Hd Ht. index_facts "`" "`" "" "" Hd Ht.
    assert (L : forall l, In l lines -> Passes primaryKeyWords false false l).
    { intros l Hl. destruct (mapM_In_inv _ _ _ _ E Hl) as [f [Hf Hline]].
      exact (mysqlField_no_key sqlDataTypes obj f l Hd
               (clean_table_fields _ _ (clean_tables _ _ Hd _ Ht) f Hf) Hline). }
    split; unfold_clauses; string_norm; passes.
Qed.

Lemma mariadbTable_parts (sqlDataTypes : list string) (obj : Diagram)
  (table : Table) (stmt : string) :
  mariadbTable sqlDataTypes obj table = Ok stmt ->
  exists lines,
    mapM (mariadbField sqlDataTypes obj) (t_fields table) = Ok lines
    /\ TableParts "`" "`" obj table (join ("," ++ nl) lines) "" stmt.
Proof.
  unfold mariadbTable. intros H.
  destruct (mapM _ (t_fields table)) as [lines|] eqn:E; [|discriminate].
  cbn [bind] in H. apply Ok_inj in H.
  exists lines. split; [reflexivity|].
  split.
  { intros Hp. exists (blockComment (t_comment table) ++ "CREATE OR REPLACE TABLE "). eexists.
    rewrite <- H. unfold primaryKeyClause. rewrite Hp, primaryKeyText_list.
    rewrite !append_assoc. cbn [append]. reflexivity. }
  exists (blockComment (t_comment table) ++ "CREATE OR REPLACE TABLE `"
            ++ t_name table ++ "` (" ++ nl).
  eexists. split.
  - rewrite <- H. rewrite !append_assoc. reflexivity.
  - intros Hd Ht. table_facts Hd Ht. index_facts "`" "`" "" "" Hd Ht.
    assert (L : forall l, In l lines -> Passes primaryKeyWords false false l).
    { intros l Hl. destruct (mapM_In_inv _ _ _ _ E Hl) as [f [Hf Hline]].
      exact (mariadbField_no_key sqlDataTypes obj f l Hd
               (clean_table_fields _ _ (clean_tables _ _ Hd _ Ht) f Hf) Hline). }
    split; unfold_clauses; string_norm; passes.
Qed.

Lemma enum_fields_clean (p : string) (table : Table) :
  CleanTable p table ->
  forall f, In f (filter isEnumOrSet (t_fields table)) -> CleanField p f.
Proof.
  intros H f Hin. apply filter_In in Hin as [Hin _].
  exact (clean_table_fields _ _ H _ Hin).
Qed.

Lemma createEnumType_no_key (terminator : string) (f : Field) :
  terminator = nl \/ terminator = nl ++ nl ->
  CleanField primaryKeyWords f ->
  Passes primaryKeyWords false true (createEnumType terminator f).
Proof.
  intros Ht H. clean_field H.
  destruct Ht as [-> | ->]; unfold_clauses; string_norm; passes.
Qed.

Lemma postgresTable_parts (sqlDataTypes : list string) (obj : Diagram) (table : Table) :
  TableParts dq dq obj table
    (join ("," ++ nl) (map (postgresField sqlDataTypes) (t_fields table))) ""
    (postgresTable sqlDataTypes table).
Proof.
  unfold postgresTable.
  split.
  { intros Hp. exists (docComment (t_comment table)
              ++ (if (0 <? List.length (filter isEnumOrSet (t_fields table)))%nat
                  then arrayToString (map (createEnumType (nl ++ nl))
                                          (filter isEnumOrSet (t_fields table)))
                  else "")
              ++ "CREATE TABLE "). eexists.
    unfold primaryKeyClause. rewrite Hp, primaryKeyText_list.
    rewrite !append_assoc. cbn [append]. reflexivity. }
  exists (docComment (t_comment table)
            ++ (if (0 <? List.length (filter isEnumOrSet (t_fields table)))%nat
                then arrayToString (map (createEnumType (nl ++ nl))
                                        (filter isEnumOrSet (t_fields table)))
                else "")
            ++ "CREATE TABLE " ++ dq ++ t_name table ++ dq ++ " (" ++ nl).
  eexists. split.
  - rewrite !append_assoc. reflexivity.
  - intros Hd Ht. table_facts Hd Ht. index_facts dq dq "" "" Hd Ht.
    pose proof (fun f Hf =>
                  postgresField_no_key sqlDataTypes f
                    (clean_table_fields _ _ (clean_tables _ _ Hd _ Ht) f Hf)).
    pose proof (fun f Hf =>
                  createEnumType_no_key (nl ++ nl) f (or_intror eq_refl)
                    (enum_fields_clean _ _ (clean_tables _ _ Hd _ Ht) f Hf)).
    split; unfold docComment, blockComment, arrayToString, nl, tab, dq;
      string_norm; passes.
Qed.

Lemma sqlServerTable_parts (sqlDataTypes : list string) (obj : Diagram) (table : Table) :
  TableParts "[" "]" obj table
    (join ("," ++ nl) (map (sqlServerField sqlDataTypes) (t_fields table))) ""
    (sqlServerTable sqlDataTypes table).
Proof.
  unfold sqlServerTable.
  split.
  { intros Hp. exists (docComment (t_comment table) ++ "CREATE TABLE "). eexists.
    unfold primaryKeyClause. rewrite Hp, primaryKeyText_list.
    rewrite !append_assoc. cbn [append]. reflexivity. }
  exists (docComment (t_comment table) ++ "CREATE TABLE [" ++ t_name table
            ++ "] (" ++ nl).
  eexists. split.
  - rewrite !append_assoc. reflexivity.
  - intros Hd Ht. table_facts Hd Ht.
    index_facts "[" "]" "" (nl ++ "GO" ++ nl) Hd Ht.
    pose proof (fun f Hf =>
                  sqlServerField_no_key sqlDataTypes f
                    (clean_table_fields _ _ (clean_tables _ _ Hd _ Ht) f Hf)).
    split; unfold docComment, blockComment, arrayToString, nl, tab, dq;
      string_norm; passes.
Qed.

Lemma sqliteTable_parts (obj : Diagram) (table : Table) (stmt : string) :
  sqliteTable obj table = Ok stmt ->
  exists fk,
    getInlineFK table obj = Ok fk
    /\ TableParts dq dq obj table
         (join ("," ++ nl) (map sqliteField (t_fields table)))
         ((if negb (fk =? "") then "," ++ nl else "") ++ tab ++ fk) stmt.
Proof.
  unfold sqliteTable. intros H.
  destruct (getInlineFK table obj) as [fk|] eqn:Efk; [|discriminate].
  cbn [bind] in H. apply Ok_inj in H.
  exists fk. split; [reflexivity|]. split.
  { intros Hp.
    exists (blockComment (t_comment table) ++ "CREATE TABLE IF NOT EXISTS "). eexists.
    rewrite <- H. rewrite Hp, primaryKeyText_list.
    rewrite !append_assoc. cbn [append]. reflexivity. }
  exists (blockComment (t_comment table) ++ "CREATE TABLE IF NOT EXISTS " ++ dq
            ++ t_name table ++ dq ++ " (" ++ nl).
  exists ((if hasPrimary table
           then (if negb (fk =? "") then "," ++ nl else "") else "")
            ++ tab ++ fk ++ nl ++ ");" ++ nl
            ++ (if (0 <? List.length (t_indices table))%nat
                then join nl (map (createIndex dq dq "IF NOT EXISTS " "" table)
                                  (t_indices table))
                else "")).
  split.
  - rewrite <- H. unfold primaryKeyClause.
    destruct (hasPrimary table); rewrite !append_assoc; reflexivity.
  - intros Hd Ht. table_facts Hd Ht.
    index_facts dq dq "IF NOT EXISTS " "" Hd Ht.
    pose proof (inlineFK_no_key _ _ _ Hd Ht Efk).
    pose proof (fun f Hf =>
                  sqliteField_no_key f
                    (clean_table_fields _ _ (clean_tables _ _ Hd _ Ht) f Hf)).
    split; unfold docComment, blockComment, arrayToString, nl, tab, dq;
      string_norm; passes.
Qed.

Lemma primary_key_rule (qo qc : string) (obj : Diagram) (table : Table)
  (columns between stmt : string) :
  In (qo, qc) [("`", "`"); (dq, dq); ("[", "]")] ->
  In table (d_tables obj) ->
  TableParts qo qc obj table columns between stmt ->
  PrimaryKeyRule qo qc obj table columns between stmt.
Proof.
  intros Hq Ht [Hplace [before [after [E Hclean]]]]. split; [exact Hplace|].
  intros Hc. apply cleanDiagram_spec in Hc.
  destruct (Hclean Hc Ht) as [Hbefore Hafter].
  pose proof (primary_names_clean _ _ (clean_tables _ _ Hc _ Ht)) as Hnames.
  split; intros Hp; rewrite E; unfold primaryKeyClause; rewrite Hp.
  - assert (S : before ++ columns ++ primaryKeyText qo qc table ++ after
                = ((before ++ columns) ++ "," ++ nl ++ tab) ++ primaryKeyWords
                    ++ "(" ++ join ", " (map (fun f => qo ++ f_name f ++ qc)
                                             (filter f_primary (t_fields table)))
                    ++ ")" ++ after).
    { unfold primaryKeyText, primaryKeyWords. rewrite !append_assoc.
      cbn [append]. reflexivity. }
    rewrite S. apply OccursOnce_between; [reflexivity | |].
    + apply (Passes_NoOcc primaryKeyWords true false); [discriminate|].
      apply (Passes_append _ true false false); [exact Hbefore|].
      apply (Passes_literal _ false false). reflexivity.
    + apply (Passes_NoOcc primaryKeyWords true false); [discriminate|].
      cbn [In] in Hq.
      destruct Hq as [Q | [Q | [Q | []]]]; injection Q as <- <-;
        unfold nl, tab, dq; string_norm; passes.
  - cbn [append]. rewrite <- append_assoc.
    apply (Passes_NoOcc primaryKeyWords true false); [discriminate|].
    apply (Passes_append _ true false false); assumption.
Qed.

Lemma hasPrimary_spec (table : Table) :
  hasPrimary table = true <-> exists f, In f (t_fields table) /\ f_primary f = true.
Proof.
  unfold hasPrimary. split.
  - intros H. destruct (filter f_primary (t_fields table)) as [|f l] eqn:E;
      [discriminate|].
    exists f. apply filter_In. rewrite E. now left.
  - intros [f Hf]. apply filter_In in Hf.
    destruct (filter f_primary (t_fields table)); [contradiction | reflexivity].
Qed.

(** C3: in the five dialects, the statement of a table with a field flagged
    [primary] is: the name of the table and the opening parenthesis, the
    column lines, the clause [PRIMARY KEY(...)] that lists the names of the
    flagged fields in the order of the table, then (SQLite only) the foreign
    key, and the closing parenthesis. No column line depends on the flag.
    When no text of the diagram carries the words [PRIMARY KEY], these occur
    once in the statement of a table with a flagged field and do not occur in
    the statement of a table without. On a diagram whose references and types
    resolve, the statement is produced and stands in the output. *)
Theorem primary_key_clause (sqlDataTypes : list string) (obj : Diagram) (table : Table) :
  In table (d_tables obj) ->
  (hasPrimary table = true <-> exists f, In f (t_fields table) /\ f_primary f = true)
  /\ primaryNames table = map f_name (filter f_primary (t_fields table))
  /\ (forall stmt, mysqlTable sqlDataTypes obj table = Ok stmt ->
      exists lines,
        mapM (mysqlField sqlDataTypes obj) (t_fields table) = Ok lines
        /\ PrimaryKeyRule "`" "`" obj table (join ("," ++ nl) lines) "" stmt)
  /\ (forall stmt, mariadbTable sqlDataTypes obj table = Ok stmt ->
      exists lines,
        mapM (mariadbField sqlDataTypes obj) (t_fields table) = Ok lines
        /\ PrimaryKeyRule "`" "`" obj table (join ("," ++ nl) lines) "" stmt)
  /\ PrimaryKeyRule dq dq obj table
       (join ("," ++ nl) (map (postgresField sqlDataTypes) (t_fields table))) ""
       (postgresTable sqlDataTypes table)
  /\ PrimaryKeyRule "[" "]" obj table
       (join ("," ++ nl) (map (sqlServerField sqlDataTypes) (t_fields table))) ""
       (sqlServerTable sqlDataTypes table)
  /\ (forall stmt, sqliteTable obj table = Ok stmt ->
      exists fk,
        getInlineFK table obj = Ok fk
        /\ PrimaryKeyRule dq dq obj table
             (join ("," ++ nl) (map sqliteField (t_fields table)))
             ((if negb (fk =? "") then "," ++ nl else "") ++ tab ++ fk) stmt)
  /\ (forall f b,
        mysqlField sqlDataTypes obj (setPrimary b f) = mysqlField sqlDataTypes obj f
        /\ mariadbField sqlDataTypes obj (setPrimary b f)
           = mariadbField sqlDataTypes obj f
        /\ postgresField sqlDataTypes (setPrimary b f) = postgresField sqlDataTypes f
        /\ sqlServerField sqlDataTypes (setPrimary b f) = sqlServerField sqlDataTypes f
        /\ sqliteField (setPrimary b f) = sqliteField f)
  /\ (referencesResolve obj = true -> typesResolve sqlDataTypes obj = true ->
      InOutput (jsonToMySQL sqlDataTypes obj) (mysqlTable sqlDataTypes obj table)
      /\ InOutput (jsonToMariaDB sqlDataTypes obj) (mariadbTable sqlDataTypes obj table))
  /\ (referencesResolve obj = true ->
      InOutput (jsonToPostgreSQL sqlDataTypes obj) (Ok (postgresTable sqlDataTypes table)))
  /\ (referencesResolve obj = true -> typesHaveFields obj = true ->
      InOutput (jsonToSQLServer sqlDataTypes obj) (Ok (sqlServerTable sqlDataTypes table)))
  /\ (inlineReferencesResolve obj = true ->
      InOutput (jsonToSQLite obj) (sqliteTable obj table)).
Proof.
  intros Ht. split; [apply hasPrimary_spec|]. split; [reflexivity|].
  split.
  { intros stmt H. destruct (mysqlTable_parts sqlDataTypes obj table stmt H)
      as [lines [E P]].
    exists lines. split; [exact E|].
    apply primary_key_rule; [cbn [In]; tauto | exact Ht | exact P]. }
  split.
  { intros stmt H. destruct (mariadbTable_parts sqlDataTypes obj table stmt H)
      as [lines [E P]].
    exists lines. split; [exact E|].
    apply primary_key_rule; [cbn [In]; tauto | exact Ht | exact P]. }
  split.
  { apply primary_key_rule; [cbn [In]; tauto | exact Ht |].
    apply postgresTable_parts. }
  split.
  { apply primary_key_rule; [cbn [In]; tauto | exact Ht |].
    apply sqlServerTable_parts. }
  split.
  { intros stmt H. destruct (sqliteTable_parts obj table stmt H) as [fk [Efk P]].
    exists fk. split; [exact Efk|].
    apply primary_key_rule; [cbn [In]; tauto | exact Ht | exact P]. }
  split.
  { intros f b. repeat split. }
  split.
  { intros Hr Hty. split.
    - destruct (jsonToMySQL_total sqlDataTypes obj Hr Hty) as [out Ho].
      destruct (mysqlTable_in_output sqlDataTypes obj out table Ho Ht) as [s [Hs Os]].
      now exists out, s.
    - destruct (jsonToMariaDB_total sqlDataTypes obj Hr Hty) as [out Ho].
      destruct (mariadbTable_in_output sqlDataTypes obj out table Ho Ht) as [s [Hs Os]].
      now exists out, s. }
  split.
  { intros Hr. destruct (jsonToPostgreSQL_total sqlDataTypes obj Hr) as [out Ho].
    exists out, (postgresTable sqlDataTypes table). repeat split; [assumption|].
    exact (postgresTable_in_output sqlDataTypes obj out table Ho Ht). }
  split.
  { intros Hr Hty. destruct (jsonToSQLServer_total sqlDataTypes obj Hr Hty) as [out Ho].
    exists out, (sqlServerTable sqlDataTypes table). repeat split; [assumption|].
    exact (sqlServerTable_in_output sqlDataTypes obj out table Ho Ht). }
  intros Hr. destruct (jsonToSQLite_total obj Hr) as [out Ho].
  destruct (sqliteTable_in_output obj out table Ho Ht) as [s [Hs Os]].
  now exists out, s.
Qed.

(* ------------------------------------------------------------------ *)
(** ** The sizes of the types *)

Lemma isSized_cases (type : string) :
  isSized type = true ->
  type = "CHAR" \/ type = "VARCHAR" \/ type = "BINARY" \/ type = "VARBINARY"
  \/ type = "TEXT".
Proof. unfold isSized. rewrite includes_In. simpl. intuition. Qed.

Lemma includes_false (l : list string) (x : string) :
  includes l x = false -> forall y, In y l -> (x =? y) = false.
Proof.
  unfold includes. intros H y Hy.
  destruct (x =? y) eqn:E; [|reflexivity].
  assert (C : existsb (String.eqb x) l = true)
    by (apply existsb_exists; now exists y).
  congruence.
Qed.

Lemma getSize_unsized (type : string) :
  isSized type = false -> getSize type = SizeString "".
Proof.
  intros H. unfold getSize.
  rewrite (includes_false _ _ H "CHAR"), (includes_false _ _ H "BINARY"),
    (includes_false _ _ H "VARCHAR"), (includes_false _ _ H "VARBINARY"),
    (includes_false _ _ H "TEXT"); simpl; tauto.
Qed.

Lemma getSize_truthy (type : string) :
  sizeTruthy (getSize type) = isSized type.
Proof.
  destruct (isSized type) eqn:H.
  - apply isSized_cases in H.
    destruct H as [E | [E | [E | [E | E]]]]; rewrite E; vm_compute; reflexivity.
  - now rewrite (getSize_unsized type H).
Qed.

(** X1: [getSize] gives a size that counts as true in a condition exactly
    for the types that [isSized] accepts: it is a number for [CHAR],
    [VARCHAR], [BINARY], [VARBINARY] and [TEXT], and the empty string for
    every other type. *)
Theorem getSize_isSized (type : string) :
  sizeTruthy (getSize type) = isSized type
  /\ (isSized type = true -> exists n, getSize type = SizeNumber n)
  /\ (isSized type = false -> getSize type = SizeString "").
Proof.
  split; [apply getSize_truthy|]. split; [|apply getSize_unsized].
  intros H. apply isSized_cases in H.
  destruct H as [E | [E | [E | [E | E]]]]; rewrite E; eexists; reflexivity.
Qed.

(** X2: a field that carries the size that [getSize] gives for its type is
    typed by MySQL with that size in parentheses when the type is sized; when
    the type has a precision, that size is the empty string, MySQL emits the
    bare type and PostgreSQL the type in lower case. *)
Theorem default_size_rendering (sqlDataTypes : list string) (field : Field) :
  f_size field = getSize (f_type field) ->
  (isSized (f_type field) = true ->
   getTypeString sqlDataTypes field "mysql" false
   = Some (f_type field ++ "(" ++ sizeToString (getSize (f_type field)) ++ ")"))
  /\ (hasPrecision (f_type field) = true ->
      getTypeString sqlDataTypes field "mysql" false = Some (f_type field)
      /\ getTypeString sqlDataTypes field "postgres" false
         = Some (toLowerCase (f_type field))).
Proof.
  intros Es. unfold getTypeString. cbn [String.eqb Ascii.eqb Bool.eqb].
  pose proof (getSize_truthy (f_type field)) as T.
  split.
  - intros H. unfold getTypeString_mysql. rewrite Es, T, H.
    rewrite orb_true_r.
    apply isSized_cases in H.
    destruct H as [E | [E | [E | [E | E]]]]; rewrite E; reflexivity.
  - intros H.
    assert (S : isSized (f_type field) = false).
    { apply hasPrecision_cases in H.
      destruct H as [E | [E | [E | E]]]; rewrite E; reflexivity. }
    pose proof (getSize_unsized (f_type field) S) as G. split.
    + unfold getTypeString_mysql. rewrite Es, T, S, H. cbn [orb].
      rewrite append_nil_r.
      apply hasPrecision_cases in H.
      destruct H as [E | [E | [E | E]]]; rewrite E; reflexivity.
    + unfold getTypeString_postgres. rewrite Es, G, S, H.
      apply hasPrecision_cases in H.
      destruct H as [E | [E | [E | E]]]; rewrite E; reflexivity.
Qed.

(** X3: for a sized type whose size is absent, zero or empty, MySQL emits
    the bare type name, while PostgreSQL appends the size in parentheses all
    the same, and so does SQL Server for every sized type but [TEXT]: an
    absent size is printed as [undefined]. *)
Theorem sized_type_without_size (sqlDataTypes : list string) (field : Field) :
  isSized (f_type field) = true ->
  sizeTruthy (f_size field) = false ->
  getTypeString sqlDataTypes field "mysql" false = Some (f_type field)
  /\ (exists base,
        getTypeString sqlDataTypes field "postgres" false
        = Some (base ++ "(" ++ sizeToString (f_size field) ++ ")"))
  /\ (f_type field <> "TEXT" ->
      exists base,
        getTypeString sqlDataTypes field "mssql" false
        = Some (base ++ "(" ++ sizeToString (f_size field) ++ ")")).
Proof.
  intros H T. unfold getTypeString. cbn [String.eqb Ascii.eqb Bool.eqb].
  unfold getTypeString_mysql, getTypeString_postgres, getTypeString_mssql.
  rewrite T. apply isSized_cases in H.
  destruct H as [E | [E | [E | [E | E]]]]; rewrite E;
    (split; [reflexivity|]);
    (split; [eexists; reflexivity|]);
    intros N; try congruence; eexists; reflexivity.
Qed.

(** X4: for [DOUBLE], [NUMERIC], [DECIMAL] and [FLOAT], PostgreSQL appends
    the size to the type name without parentheses, unless the size is the
    empty string, in which case it emits the type in lower case; MySQL
    appends the size in parentheses when it counts as true; SQL Server and
    SQLite do not read the size. *)
Theorem precision_type_size (sqlDataTypes : list string) (field : Field) :
  hasPrecision (f_type field) = true ->
  getTypeString sqlDataTypes field "postgres" false
  = Some (if sizeNotEmptyString (f_size field)
          then f_type field ++ sizeToString (f_size field)
          else toLowerCase (f_type field))
  /\ getTypeString sqlDataTypes field "mysql" false
     = Some (f_type field
               ++ (if sizeTruthy (f_size field)
                   then "(" ++ sizeToString (f_size field) ++ ")" else ""))
  /\ (forall sz baseType,
        getTypeString sqlDataTypes (setSize sz field) "mssql" baseType
        = getTypeString sqlDataTypes field "mssql" baseType)
  /\ (forall sz, getSQLiteType (setSize sz field) = getSQLiteType field).
Proof.
  intros H. apply hasPrecision_cases in H.
  unfold getTypeString. cbn [String.eqb Ascii.eqb Bool.eqb].
  unfold getTypeString_postgres, getTypeString_mysql, getTypeString_mssql.
  cbn [setSize f_type f_size f_name f_values f_increment].
  destruct H as [E | [E | [E | E]]]; rewrite E; repeat split.
Qed.

(** X5: [getSQLiteType] agrees with the type predicates: a type with a
    precision is stored as [REAL], a sized type as [TEXT], a type whose
    default value is quoted as [TEXT], with a [CHECK] for [ENUM], and a type
    that takes a check as [INTEGER], [REAL] or [TEXT]; apart from [ENUM] the
    result is one of [INTEGER], [REAL], [TEXT] and [BLOB]. *)
Theorem sqlite_storage_classes (field : Field) :
  (hasPrecision (f_type field) = true -> getSQLiteType field = "REAL")
  /\ (isSized (f_type field) = true -> getSQLiteType field = "TEXT")
  /\ (hasQuotes (f_type field) = true ->
      exists rest, getSQLiteType field = "TEXT" ++ rest)
  /\ (hasCheck (f_type field) = true ->
      In (getSQLiteType field) ["INTEGER"; "REAL"; "TEXT"])
  /\ (In (getSQLiteType field) ["INTEGER"; "REAL"; "TEXT"] \/
      getSQLiteType field = "BLOB" \/ f_type field = "ENUM").
Proof.
  split; [|split; [|split; [|split]]].
  - intros H. apply hasPrecision_cases in H.
    destruct H as [E | [E | [E | E]]]; unfold getSQLiteType; rewrite E; reflexivity.
  - intros H. apply isSized_cases in H.
    destruct H as [E | [E | [E | [E | E]]]]; unfold getSQLiteType; rewrite E;
      reflexivity.
  - intros H. apply hasQuotes_spec in H. unfold quotedTypes in H. cbn [In] in H.
    unfold getSQLiteType.
    repeat (destruct H as [E | H]; [rewrite <- E; eexists; cbn; reflexivity|]).
    contradiction.
  - intros H. unfold hasCheck in H. apply includes_In in H. cbn [In] in H.
    unfold getSQLiteType.
    repeat (destruct H as [E | H]; [rewrite <- E; cbn; tauto|]).
    contradiction.
  - unfold getSQLiteType.
    repeat match goal with |- context [if ?b then _ else _] =>
      let E := fresh "E" in destruct b eqn:E end;
      try (left; simpl; tauto); try (right; left; reflexivity).
    right. right. now apply String.eqb_eq.
Qed.

(** ** The serializer of default values, continued *)

(** X6: [parseDefault] is idempotent: on a field whose default value is its
    own result it returns that value unchanged, since a value it has wrapped
    in single quotes is taken for quoted. *)
Theorem parseDefault_idempotent (field : Field) :
  parseDefault (setDefault (parseDefault field) field) = parseDefault field.
Proof.
  unfold parseDefault at 1. cbn [setDefault f_default f_type].
  unfold parseDefault.
  destruct (strHasQuotes (f_default field) || isFunction (f_default field)
            || isKeyword (f_default field) || negb (hasQuotes (f_type field))) eqn:C.
  - now rewrite C.
  - assert (Q : strHasQuotes ("'" ++ f_default field ++ "'") = true).
    { apply strHasQuotes_spec. exists "'"%char, (f_default field).
      split; reflexivity. }
    now rewrite Q.
Qed.

Lemma snoc_inj (a b : string) (c d : ascii) :
  a ++ String c "" = b ++ String d "" -> a = b /\ c = d.
Proof.
  revert b. induction a as [|x a IH]; intros [|y b] H; cbn [append] in H.
  - injection H as ->. now split.
  - injection H as _ H. symmetry in H. apply append_eq_nil in H as [_ H].
    discriminate.
  - injection H as _ H. apply append_eq_nil in H as [_ H]. discriminate.
  - injection H as -> H. destruct (IH b H) as [-> ->]. now split.
Qed.

Lemma forallb_string_append (p : ascii -> bool) (a b : string) :
  forallb_string p (a ++ b) = forallb_string p a && forallb_string p b.
Proof.
  induction a as [|c a IH]; [reflexivity|].
  cbn [append forallb_string]. now rewrite IH, andb_assoc.
Qed.

Lemma snoc_exists (s : string) :
  s <> "" -> exists body c, s = body ++ String c "".
Proof.
  intros H. destruct (lastChar s) as [c|] eqn:L.
  - apply lastChar_inv in L as [body E]. now exists body, c.
  - destruct s as [|x s]; [congruence|].
    exfalso. clear H. revert x L. induction s as [|y s IH]; intros x L.
    + discriminate.
    + exact (IH y L).
Qed.

(** A text that ends with two closing parentheses is no function call. *)
Lemma isFunction_nested (s : string) : isFunction (s ++ "))") = false.
Proof.
  destruct (isFunction (s ++ "))")) eqn:F; [|reflexivity]. exfalso.
  apply isFunction_spec in F as [pre [w [args [E [_ [_ Ha]]]]]].
  change (s ++ "))") with (s ++ ")" ++ ")") in E.
  rewrite <- append_assoc in E.
  replace (pre ++ w ++ "(" ++ args ++ ")")
    with ((pre ++ w ++ "(" ++ args) ++ ")") in E
    by (now rewrite !append_assoc).
  apply snoc_inj in E as [E _].
  destruct args as [|a args'] eqn:Ea.
  - replace (pre ++ w ++ "(" ++ "") with ((pre ++ w) ++ "(") in E
      by (now rewrite !append_assoc).
    apply snoc_inj in E as [_ E]. discriminate.
  - destruct (snoc_exists (String a args')) as [body [c Eb]]; [discriminate|].
    rewrite Eb in E, Ha.
    replace (pre ++ w ++ "(" ++ body ++ String c "")
      with ((pre ++ w ++ "(" ++ body) ++ String c "") in E
      by (now rewrite !append_assoc).
    apply snoc_inj in E as [_ E]. subst c.
    rewrite forallb_string_append in Ha. apply andb_true_iff in Ha as [_ Ha].
    discriminate.
Qed.

(** X7: a default value that ends with two closing parentheses, such as a
    call whose last argument is a call, is no function for [isFunction]; for
    a type whose values are quoted, [parseDefault] wraps it in single
    quotes. *)
Theorem nested_call_default_is_quoted (field : Field) (s : string) :
  f_default field = s ++ "))" ->
  isFunction (f_default field) = false
  /\ (hasQuotes (f_type field) = true ->
      parseDefault field = "'" ++ f_default field ++ "'").
Proof.
  intros E.
  assert (F : isFunction (f_default field) = false)
    by (rewrite E; apply isFunction_nested).
  split; [exact F|]. intros HQ.
  assert (Q : strHasQuotes (f_default field) = false).
  { destruct (strHasQuotes (f_default field)) eqn:Q; [|reflexivity]. exfalso.
    apply strHasQuotes_spec in Q as [q [body [Hq Eq]]].
    rewrite E in Eq.
    change (s ++ "))") with (s ++ ")" ++ ")") in Eq.
    rewrite <- append_assoc in Eq.
    change (String q (body ++ String q "")) with (String q body ++ String q "") in Eq.
    apply snoc_inj in Eq as [_ Eq]. subst q. discriminate. }
  assert (K : isKeyword (f_default field) = false).
  { destruct (isKeyword (f_default field)) eqn:K; [|reflexivity]. exfalso.
    apply isKeyword_spec in K. unfold IsKeyword in K.
    rewrite E, (toUpperCase_ascii_suffix s "))" eq_refl) in K.
    change (asciiUpperCase "))") with (")" ++ ")") in K.
    rewrite <- append_assoc in K.
    destruct K as [K | K].
    - change "CURRENT_TIMESTAMP" with ("CURRENT_TIMESTAM" ++ "P") in K.
      apply snoc_inj in K as [_ K]. discriminate.
    - change "NULL" with ("NUL" ++ "L") in K.
      apply snoc_inj in K as [_ K]. discriminate. }
  unfold parseDefault. now rewrite Q, F, K, HQ.
Qed.

(** X8: a default value that is [NULL] or [CURRENT_TIMESTAMP] in any case
    of the ASCII letters is a keyword, and [parseDefault] returns it unchanged
    whatever the type of the field. *)
Theorem keyword_default_any_case (field : Field) (keyword : string) :
  isAscii keyword = true ->
  isKeyword keyword = true ->
  asciiLowerCase (f_default field) = asciiLowerCase keyword ->
  isKeyword (f_default field) = true /\ parseDefault field = f_default field.
Proof.
  intros A K E.
  assert (K' : isKeyword (f_default field) = true).
  { unfold isKeyword in *.
    now rewrite (toUpperCase_case_insensitive _ _ A E). }
  split; [exact K'|].
  unfold parseDefault. rewrite K'. now rewrite orb_true_r.
Qed.

(** ** What the generators do not read

    A change of the fields that keeps what a generator reads keeps its
    result, text or exception. *)

Lemma at_index_map {A B : Type} (h : A -> B) (l : list A) (i : nat) :
  at_index (map h l) i = (x <- at_index l i ;; Ok (h x)).
Proof.
  unfold at_index. rewrite nth_error_map.
  destruct (nth_error l i); reflexivity.
Qed.

Lemma mapM_ext {A B : Type} (f f' : A -> result B) (l : list A) :
  (forall x, In x l -> f x = f' x) -> mapM f l = mapM f' l.
Proof.
  induction l as [|a l IH]; intros H; [reflexivity|].
  cbn [mapM]. rewrite (H a (or_introl eq_refl)), IH; [reflexivity|].
  intros x Hx. apply H. now right.
Qed.

Lemma mapM_map {A B C : Type} (h : A -> B) (f : B -> result C) (l : list A) :
  mapM f (map h l) = mapM (fun x => f (h x)) l.
Proof.
  induction l as [|a l IH]; [reflexivity|].
  cbn [map mapM]. now rewrite IH.
Qed.

Section FieldChange.

Variable sqlDataTypes : list string.
Variable g : Field -> Field.
Hypothesis g_name : forall f, f_name (g f) = f_name f.
Hypothesis g_type : forall f, f_type (g f) = f_type f.
Hypothesis g_values : forall f, f_values (g f) = f_values f.
Hypothesis g_primary : forall f, f_primary (g f) = f_primary f.

Lemma filter_map_same (p : Field -> bool) (l : list Field) :
  (forall f, p (g f) = p f) -> filter p (map g l) = map g (filter p l).
Proof.
  intros H. induction l as [|a l IH]; [reflexivity|].
  cbn [map filter]. rewrite H, IH. destruct (p a); reflexivity.
Qed.

Lemma hasPrimary_mapTableFields (t : Table) :
  hasPrimary (mapTableFields g t) = hasPrimary t.
Proof.
  unfold hasPrimary. cbn [mapTableFields t_fields].
  now rewrite (filter_map_same f_primary _ g_primary), length_map.
Qed.

Lemma primaryKeyText_mapTableFields (qo qc : string) (t : Table) :
  primaryKeyText qo qc (mapTableFields g t) = primaryKeyText qo qc t.
Proof.
  unfold primaryKeyText. cbn [mapTableFields t_fields].
  rewrite (filter_map_same f_primary _ g_primary), map_map.
  rewrite (map_ext (fun x => qo ++ f_name (g x) ++ qc)
                   (fun f => qo ++ f_name f ++ qc)); [reflexivity|].
  intros f. now rewrite g_name.
Qed.

Lemma primaryKeyClause_mapTableFields (qo qc : string) (t : Table) :
  primaryKeyClause qo qc (mapTableFields g t) = primaryKeyClause qo qc t.
Proof.
  unfold primaryKeyClause.
  now rewrite hasPrimary_mapTableFields, primaryKeyText_mapTableFields.
Qed.

Lemma isEnumOrSet_same (f : Field) : isEnumOrSet (g f) = isEnumOrSet f.
Proof. unfold isEnumOrSet. now rewrite g_type. Qed.

Lemma enumTypes_mapTableFields (terminator : string) (l : list Field) :
  map (createEnumType terminator) (filter isEnumOrSet (map g l))
  = map (createEnumType terminator) (filter isEnumOrSet l).
Proof.
  rewrite (filter_map_same isEnumOrSet _ isEnumOrSet_same), map_map.
  apply map_ext. intros f. unfold createEnumType. now rewrite g_name, g_values.
Qed.

Lemma alterTable_mapFields (qo qc terminator : string) (obj : Diagram) (r : Reference) :
  alterTable qo qc terminator (mapFields g obj) r = alterTable qo qc terminator obj r.
Proof.
  unfold alterTable. cbn [mapFields d_tables]. rewrite !at_index_map.
  destruct (at_index (d_tables obj) (r_startTableId r)) as [st|]; [|reflexivity].
  cbn [bind mapTableFields t_fields t_name]. rewrite at_index_map.
  destruct (at_index (t_fields st) (r_startFieldId r)) as [sf|]; [|reflexivity].
  cbn [bind].
  destruct (at_index (d_tables obj) (r_endTableId r)) as [et|]; [|reflexivity].
  cbn [bind mapTableFields t_fields t_name]. rewrite at_index_map.
  destruct (at_index (t_fields et) (r_endFieldId r)) as [ef|]; [|reflexivity].
  cbn [bind]. now rewrite !g_name.
Qed.

Lemma references_mapFields (qo qc terminator : string) (obj : Diagram) :
  mapM (alterTable qo qc terminator (mapFields g obj)) (d_references obj)
  = mapM (alterTable qo qc terminator obj) (d_references obj).
Proof. apply mapM_ext. intros r _. apply alterTable_mapFields. Qed.

Lemma jsonToPostgreSQL_mapFields (obj : Diagram) :
  (forall f, postgresField sqlDataTypes (g f) = postgresField sqlDataTypes f) ->
  jsonToPostgreSQL sqlDataTypes (mapFields g obj) = jsonToPostgreSQL sqlDataTypes obj.
Proof.
  intros Hline. unfold jsonToPostgreSQL.
  change (d_references (mapFields g obj)) with (d_references obj).
  rewrite references_mapFields.
  cbn [mapFields d_tables d_types]. rewrite map_map.
  rewrite (map_ext (fun t => postgresTable sqlDataTypes (mapTableFields g t))
                   (postgresTable sqlDataTypes)); [reflexivity|].
  intros t. unfold postgresTable.
  rewrite primaryKeyClause_mapTableFields.
  cbn [mapTableFields t_fields t_name t_comment t_indices].
  rewrite (filter_map_same isEnumOrSet _ isEnumOrSet_same), length_map.
  rewrite <- (filter_map_same isEnumOrSet _ isEnumOrSet_same).
  rewrite enumTypes_mapTableFields, map_map.
  rewrite (map_ext _ _ Hline). reflexivity.
Qed.

Lemma jsonToSQLServer_mapFields (obj : Diagram) :
  (forall f, sqlServerField sqlDataTypes (g f) = sqlServerField sqlDataTypes f) ->
  jsonToSQLServer sqlDataTypes (mapFields g obj) = jsonToSQLServer sqlDataTypes obj.
Proof.
  intros Hline. unfold jsonToSQLServer.
  change (d_references (mapFields g obj)) with (d_references obj).
  rewrite references_mapFields.
  cbn [mapFields d_tables d_types]. rewrite map_map.
  rewrite (map_ext (fun t => sqlServerTable sqlDataTypes (mapTableFields g t))
                   (sqlServerTable sqlDataTypes)); [reflexivity|].
  intros t. unfold sqlServerTable.
  rewrite primaryKeyClause_mapTableFields.
  cbn [mapTableFields t_fields t_name t_comment t_indices].
  rewrite map_map, (map_ext _ _ Hline). reflexivity.
Qed.

Lemma inlineFKClause_mapFields (obj : Diagram) (t : Table) (r : Reference) :
  inlineFKClause (mapTableFields g t) (mapFields g obj) r = inlineFKClause t obj r.
Proof.
  unfold inlineFKClause. cbn [mapFields d_tables mapTableFields t_fields].
  rewrite !at_index_map.
  destruct (at_index (t_fields t) (r_startFieldId r)) as [sf|]; [|reflexivity].
  cbn [bind].
  destruct (at_index (d_tables obj) (r_endTableId r)) as [et|]; [|reflexivity].
  cbn [bind mapTableFields t_fields t_name]. rewrite at_index_map.
  destruct (at_index (t_fields et) (r_endFieldId r)) as [ef|]; [|reflexivity].
  cbn [bind]. now rewrite !g_name.
Qed.

Lemma getInlineFK_mapFields (obj : Diagram) (t : Table) :
  getInlineFK (mapTableFields g t) (mapFields g obj) = getInlineFK t obj.
Proof.
  rewrite !getInlineFK_find.
  change (d_references (mapFields g obj)) with (d_references obj).
  change (find (startsAt (mapTableFields g t)) (d_references obj))
    with (find (startsAt t) (d_references obj)).
  destruct (find (startsAt t) (d_references obj)); [|reflexivity].
  apply inlineFKClause_mapFields.
Qed.

Lemma jsonToSQLite_mapFields (obj : Diagram) :
  (forall f, sqliteField (g f) = sqliteField f) ->
  jsonToSQLite (mapFields g obj) = jsonToSQLite obj.
Proof.
  intros Hline. unfold jsonToSQLite.
  cbn [mapFields d_tables]. fold (mapFields g obj). rewrite mapM_map.
  rewrite (mapM_ext _ (sqliteTable obj)); [reflexivity|].
  intros t _. unfold sqliteTable.
  rewrite getInlineFK_mapFields, hasPrimary_mapTableFields,
    primaryKeyText_mapTableFields.
  cbn [mapTableFields t_fields t_name t_comment t_indices].
  rewrite map_map, (map_ext _ _ Hline). reflexivity.
Qed.

Lemma jsonToMySQL_mapFields (obj : Diagram) :
  (forall f, mysqlField sqlDataTypes obj (g f) = mysqlField sqlDataTypes obj f) ->
  jsonToMySQL sqlDataTypes (mapFields g obj) = jsonToMySQL sqlDataTypes obj.
Proof.
  intros Hline. unfold jsonToMySQL.
  change (d_references (mapFields g obj)) with (d_references obj).
  rewrite references_mapFields.
  cbn [mapFields d_tables]. fold (mapFields g obj). rewrite mapM_map.
  rewrite (mapM_ext _ (mysqlTable sqlDataTypes obj)); [reflexivity|].
  intros t _. unfold mysqlTable.
  rewrite primaryKeyClause_mapTableFields.
  cbn [mapTableFields t_fields t_name t_comment t_indices].
  rewrite mapM_map.
  rewrite (mapM_ext _ (mysqlField sqlDataTypes obj)); [reflexivity|].
  intros f _. rewrite <- Hline. reflexivity.
Qed.

Lemma jsonToMariaDB_mapFields (obj : Diagram) :
  (forall f, mariadbField sqlDataTypes obj (g f) = mariadbField sqlDataTypes obj f) ->
  jsonToMariaDB sqlDataTypes (mapFields g obj) = jsonToMariaDB sqlDataTypes obj.
Proof.
  intros Hline. unfold jsonToMariaDB.
  change (d_references (mapFields g obj)) with (d_references obj).
  rewrite references_mapFields.
  cbn [mapFields d_tables]. fold (mapFields g obj). rewrite mapM_map.
  rewrite (mapM_ext _ (mariadbTable sqlDataTypes obj)); [reflexivity|].
  intros t _. unfold mariadbTable.
  rewrite primaryKeyClause_mapTableFields.
  cbn [mapTableFields t_fields t_name t_comment t_indices].
  rewrite mapM_map.
  rewrite (mapM_ext _ (mariadbField sqlDataTypes obj)); [reflexivity|].
  intros f _. rewrite <- Hline. reflexivity.
Qed.

End FieldChange.

Lemma getTypeString_postgres_increment (b : bool) (f : Field) :
  hasSerial (f_type f) = false ->
  getTypeString_postgres (setIncrement b f) = getTypeString_postgres f.
Proof.
  intros H. unfold getTypeString_postgres. cbn [setIncrement f_type f_increment].
  unfold hasSerial in H.
  rewrite (includes_false _ _ H "SMALLINT"), (includes_false _ _ H "INT"),
    (includes_false _ _ H "BIGINT"); simpl; tauto.
Qed.

(** X9: the result of [jsonToPostgreSQL] does not depend on the flag
    [unique] of any field of a table, nor on the flag [increment] of a field
    whose type is none of [SMALLINT], [INT] and [BIGINT]. *)
Theorem postgres_ignores_unique (sqlDataTypes : list string)
  (u v : Field -> bool) (obj : Diagram) :
  jsonToPostgreSQL sqlDataTypes (mapFields (postgresUnread u v) obj)
  = jsonToPostgreSQL sqlDataTypes obj.
Proof.
  apply jsonToPostgreSQL_mapFields; intros f; unfold postgresUnread;
    destruct (hasSerial (f_type f)) eqn:H; try reflexivity.
  unfold postgresField, getTypeString. cbn [String.eqb Ascii.eqb Bool.eqb].
  change (getTypeString_postgres (setUnique (u f) (setIncrement (v f) f)))
    with (getTypeString_postgres (setIncrement (v f) f)).
  rewrite (getTypeString_postgres_increment _ _ H). reflexivity.
Qed.

(** X10: the result of [jsonToSQLite] depends neither on the flag
    [increment] nor on the size of any field of a table. *)
Theorem sqlite_ignores_increment_and_size
  (v : Field -> bool) (sz : Field -> Size) (obj : Diagram) :
  jsonToSQLite (mapFields (sqliteUnread v sz) obj) = jsonToSQLite obj.
Proof. apply jsonToSQLite_mapFields; intros f; reflexivity. Qed.

Lemma checkClause_unchecked (x : string) (f : Field) :
  hasCheck (f_type f) = false -> checkClause (setCheck x f) = checkClause f.
Proof.
  intros H. unfold checkClause. cbn [setCheck f_type f_check].
  rewrite H. cbn [negb]. now rewrite !orb_true_r.
Qed.

Lemma jsonCheckClause_unchecked (sqlDataTypes : list string) (q x : string)
  (obj : Diagram) (f : Field) :
  hasCheck (f_type f) = false ->
  jsonCheckClause sqlDataTypes q obj (setCheck x f)
  = jsonCheckClause sqlDataTypes q obj f.
Proof.
  intros H. unfold jsonCheckClause. cbn [setCheck f_type f_check f_name].
  rewrite H. cbn [negb]. now rewrite !orb_true_r.
Qed.

(** X11: the check expression of a field whose type [hasCheck] rejects is
    read by none of the five generators: replacing it by any text leaves
    each result the same. *)
Theorem unchecked_type_drops_check (sqlDataTypes : list string)
  (c : Field -> string) (obj : Diagram) :
  jsonToMySQL sqlDataTypes (mapFields (uncheckedUnread c) obj)
  = jsonToMySQL sqlDataTypes obj
  /\ jsonToMariaDB sqlDataTypes (mapFields (uncheckedUnread c) obj)
     = jsonToMariaDB sqlDataTypes obj
  /\ jsonToPostgreSQL sqlDataTypes (mapFields (uncheckedUnread c) obj)
     = jsonToPostgreSQL sqlDataTypes obj
  /\ jsonToSQLite (mapFields (uncheckedUnread c) obj) = jsonToSQLite obj
  /\ jsonToSQLServer sqlDataTypes (mapFields (uncheckedUnread c) obj)
     = jsonToSQLServer sqlDataTypes obj.
Proof.
  assert (P : forall (A : Type) (h : Field -> A) (f : Field),
             (forall x, h (setCheck x f) = h f) ->
             h (uncheckedUnread c f) = h f).
  { intros A h f H. unfold uncheckedUnread.
    destruct (hasCheck (f_type f)); [reflexivity | apply H]. }
  repeat split.
  - apply jsonToMySQL_mapFields; intros f; try (apply P; reflexivity).
    unfold uncheckedUnread. destruct (hasCheck (f_type f)) eqn:H; [reflexivity|].
    unfold mysqlField. rewrite (jsonCheckClause_unchecked _ _ _ _ _ H). reflexivity.
  - apply jsonToMariaDB_mapFields; intros f; try (apply P; reflexivity).
    unfold uncheckedUnread. destruct (hasCheck (f_type f)) eqn:H; [reflexivity|].
    unfold mariadbField. rewrite (jsonCheckClause_unchecked _ _ _ _ _ H). reflexivity.
  - apply jsonToPostgreSQL_mapFields; intros f; try (apply P; reflexivity).
    unfold uncheckedUnread. destruct (hasCheck (f_type f)) eqn:H; [reflexivity|].
    unfold postgresField. rewrite (checkClause_unchecked _ _ H). reflexivity.
  - apply jsonToSQLite_mapFields; intros f; try (apply P; reflexivity).
    unfold uncheckedUnread. destruct (hasCheck (f_type f)) eqn:H; [reflexivity|].
    unfold sqliteField. rewrite (checkClause_unchecked _ _ H). reflexivity.
  - apply jsonToSQLServer_mapFields; intros f; try (apply P; reflexivity).
    unfold uncheckedUnread. destruct (hasCheck (f_type f)) eqn:H; [reflexivity|].
    unfold sqlServerField. rewrite (checkClause_unchecked _ _ H). reflexivity.
Qed.

(** ** Texts in order *)

Lemma InOrder_skip (l : list string) (a s : string) :
  InOrder l s -> InOrder l (a ++ s).
Proof.
  destruct l as [|x l]; [trivial|].
  intros [u [v [-> H]]]. exists (a ++ u), v. split; [|exact H].
  now rewrite !append_assoc.
Qed.

Lemma InOrder_left (l : list string) (s b : string) :
  InOrder l s -> InOrder l (s ++ b).
Proof.
  revert s. induction l as [|x l IH]; intros s; [trivial|].
  intros [u [v [-> H]]]. exists u, (v ++ b). split; [|exact (IH _ H)].
  now rewrite !append_assoc.
Qed.

Lemma InOrder_cons (x : string) (l : list string) (s1 s2 : string) :
  Occurs x s1 -> InOrder l s2 -> InOrder (x :: l) (s1 ++ s2).
Proof.
  intros [u [v ->]] H. exists u, (v ++ s2). split.
  - now rewrite !append_assoc.
  - now apply InOrder_skip.
Qed.

Lemma InOrder_one (x s : string) : Occurs x s -> InOrder [x] s.
Proof. intros [u [v ->]]. exists u, v. now split. Qed.

Lemma InOrder_head (x : string) (l : list string) (s : string) :
  InOrder l s -> InOrder (x :: l) (x ++ s).
Proof. intros H. exists "", s. now split. Qed.

Lemma InOrder_in (l : list string) (q s : string) :
  InOrder l q -> Occurs q s -> InOrder l s.
Proof.
  intros H [u [v ->]]. apply InOrder_skip. now apply InOrder_left.
Qed.

(** The elements of a joined list stand in the order of the list. *)
Lemma InOrder_join (sep : string) (l : list string) : InOrder l (join sep l).
Proof.
  induction l as [|x l IH]; [exact I|].
  rewrite join_cons. exists "". eexists. split; [reflexivity|].
  destruct l; [exact I|]. now apply InOrder_skip.
Qed.

Lemma InOrder_join_pair (sep x y : string) (l1 l2 l3 : list string) :
  InOrder [x; y] (join sep (l1 ++ x :: l2 ++ y :: l3)).
Proof.
  induction l1 as [|z l1 IH].
  - cbn [List.app]. rewrite join_cons.
    destruct (l2 ++ y :: l3)%list eqn:E; [destruct l2; discriminate|]. rewrite <- E.
    apply (InOrder_cons x [y] x); [apply Occurs_refl|].
    apply InOrder_skip, InOrder_one, Occurs_join, in_elt.
  - cbn [List.app]. rewrite join_cons.
    destruct (l1 ++ x :: l2 ++ y :: l3)%list eqn:E; [destruct l1; discriminate|].
    now do 2 apply InOrder_skip.
Qed.

(** ** User-defined types and sets *)

Lemma hasCheck_named (sqlDataTypes : list string) (type : string) :
  incl namedTypes sqlDataTypes -> includes sqlDataTypes type = false ->
  hasCheck type = false /\ ~ In type namedTypes.
Proof.
  intros Hincl Hunknown.
  assert (H : ~ In type namedTypes).
  { intros Hin. apply Hincl in Hin. apply includes_In in Hin. congruence. }
  split; [|exact H].
  unfold hasCheck, includes. cbn [existsb]. not_a_named_type H. reflexivity.
Qed.

Lemma getTypeString_mysql_unknown (sqlDataTypes : list string) (field : Field) :
  incl namedTypes sqlDataTypes -> includes sqlDataTypes (f_type field) = false ->
  getTypeString sqlDataTypes field "mysql" false = Some "JSON".
Proof.
  intros Hincl Hunknown.
  destruct (hasCheck_named _ _ Hincl Hunknown) as [_ H].
  unfold getTypeString. cbn [String.eqb Ascii.eqb Bool.eqb].
  unfold getTypeString_mysql, hasPrecision, isSized, includes. cbn [existsb].
  not_a_named_type H. cbn [orb]. fold (includes sqlDataTypes (f_type field)).
  now rewrite Hunknown.
Qed.

Lemma jsonCheckClause_unknown (sqlDataTypes : list string) (q : string)
  (obj : Diagram) (field : Field) (type : CType) :
  incl namedTypes sqlDataTypes -> includes sqlDataTypes (f_type field) = false ->
  find (fun t => ty_name t =? toLowerCase (f_type field)) (d_types obj) = Some type ->
  jsonCheckClause sqlDataTypes q obj field = Ok (schemaCheck sqlDataTypes q type field).
Proof.
  intros Hincl Hunknown F.
  destruct (hasCheck_named _ _ Hincl Hunknown) as [C _].
  unfold jsonCheckClause. rewrite C, Hunknown, F. cbn [negb].
  rewrite orb_true_r. reflexivity.
Qed.

(** X12: for a field whose type is outside [sqlDataTypes], which has the
    names of [namedTypes], and is declared in the diagram, MySQL and MariaDB
    type the column [JSON] and, whatever the check expression of the field,
    append a [CHECK] with [JSON_SCHEMA_VALID] over the schema of the first
    type whose name is the type of the field in lower case; the schema
    stands between double quotes for MySQL and between single quotes for
    MariaDB. *)
Theorem custom_type_column (sqlDataTypes : list string) (obj : Diagram)
  (field : Field) (type : CType) :
  incl namedTypes sqlDataTypes ->
  includes sqlDataTypes (f_type field) = false ->
  find (fun t => ty_name t =? toLowerCase (f_type field)) (d_types obj) = Some type ->
  (exists line,
     mysqlField sqlDataTypes obj field = Ok line
     /\ InOrder [ "`" ++ f_name field ++ "` JSON";
                  schemaCheck sqlDataTypes dq type field ] line)
  /\ (exists line,
        mariadbField sqlDataTypes obj field = Ok line
        /\ InOrder [ "`" ++ f_name field ++ "` JSON";
                     schemaCheck sqlDataTypes "'" type field ] line).
Proof.
  intros Hincl Hunknown F. split.
  - unfold mysqlField.
    rewrite (jsonCheckClause_unknown _ dq _ _ _ Hincl Hunknown F),
      (getTypeString_mysql_unknown _ _ Hincl Hunknown).
    cbn [bind interpolate]. eexists. split; [reflexivity|].
    apply InOrder_skip.
    replace (tab ++ "`" ++ f_name field ++ "` " ++ "JSON" ++
             notNullClause field ++
             (if f_increment field then " AUTO_INCREMENT" else "") ++
             uniqueClause field ++ defaultClause field ++
             schemaCheck sqlDataTypes dq type field ++
             (if negb (f_comment field =? "")
              then " COMMENT '" ++ f_comment field ++ "'" else ""))
      with (tab ++ ("`" ++ f_name field ++ "` JSON") ++
            notNullClause field ++
            (if f_increment field then " AUTO_INCREMENT" else "") ++
            uniqueClause field ++ defaultClause field ++
            schemaCheck sqlDataTypes dq type field ++
            (if negb (f_comment field =? "")
             then " COMMENT '" ++ f_comment field ++ "'" else ""))
      by (unfold tab; cbn [append]; now rewrite !append_assoc).
    apply InOrder_skip, InOrder_head.
    do 4 apply InOrder_skip. apply InOrder_one, Occurs_head.
  - unfold mariadbField.
    rewrite (jsonCheckClause_unknown _ "'" _ _ _ Hincl Hunknown F),
      (getTypeString_mysql_unknown _ _ Hincl Hunknown).
    cbn [bind interpolate]. eexists. split; [reflexivity|].
    apply InOrder_skip.
    replace (tab ++ "`" ++ f_name field ++ "` " ++ "JSON" ++
             notNullClause field ++
             (if f_increment field then " AUTO_INCREMENT" else "") ++
             uniqueClause field ++ defaultClause field ++
             schemaCheck sqlDataTypes "'" type field)
      with (tab ++ ("`" ++ f_name field ++ "` JSON") ++
            notNullClause field ++
            (if f_increment field then " AUTO_INCREMENT" else "") ++
            uniqueClause field ++ defaultClause field ++
            schemaCheck sqlDataTypes "'" type field)
      by (unfold tab; cbn [append]; now rewrite !append_assoc).
    apply InOrder_skip, InOrder_head.
    do 4 apply InOrder_skip. apply InOrder_one, Occurs_refl.
Qed.

Lemma mysqlField_set (sqlDataTypes : list string) (obj : Diagram)
  (field : Field) (line : string) :
  f_type field = "SET" -> mysqlField sqlDataTypes obj field = Ok line ->
  Occurs ("`" ++ f_name field ++ "` SET(" ++ enumValues dq field ++ ")") line.
Proof.
  intros E H. unfold mysqlField in H.
  destruct (jsonCheckClause sqlDataTypes dq obj field) as [chk|]; [|discriminate].
  cbn [bind] in H. apply Ok_inj in H. rewrite <- H.
  unfold getTypeString, getTypeString_mysql. rewrite E.
  cbn [String.eqb Ascii.eqb Bool.eqb hasPrecision isSized includes existsb orb
       interpolate].
  rewrite enumValues_join. unfold tab. occurs_find.
Qed.

Lemma mariadbField_set (sqlDataTypes : list string) (obj : Diagram)
  (field : Field) (line : string) :
  f_type field = "SET" -> mariadbField sqlDataTypes obj field = Ok line ->
  Occurs ("`" ++ f_name field ++ "` SET(" ++ enumValues dq field ++ ")") line.
Proof.
  intros E H. unfold mariadbField in H.
  destruct (jsonCheckClause sqlDataTypes "'" obj field) as [chk|]; [|discriminate].
  cbn [bind] in H. apply Ok_inj in H. rewrite <- H.
  unfold getTypeString, getTypeString_mysql. rewrite E.
  cbn [String.eqb Ascii.eqb Bool.eqb hasPrecision isSized includes existsb orb
       interpolate].
  rewrite enumValues_join. unfold tab. occurs_find.
Qed.

Lemma postgresTable_set (sqlDataTypes : list string) (table : Table) (field : Field) :
  In field (t_fields table) -> f_type field = "SET" ->
  OccursBefore
    ("CREATE TYPE " ++ dq ++ f_name field ++ "_t" ++ dq ++ " AS ENUM ("
       ++ enumValues "'" field ++ ");")
    (dq ++ f_name field ++ dq ++ " " ++ f_name field ++ "_t[]")
    (postgresTable sqlDataTypes table).
Proof.
  intros Hin E. unfold postgresTable.
  assert (Hf : In field (filter isEnumOrSet (t_fields table))).
  { apply filter_In. split; [assumption|]. unfold isEnumOrSet. now rewrite E. }
  destruct (filter isEnumOrSet (t_fields table)) as [|f0 fs] eqn:F; [contradiction|].
  cbn [List.length Nat.ltb Nat.leb].
  rewrite <- (append_assoc (docComment (t_comment table))).
  apply OccursBefore_append.
  - apply Occurs_skip.
    eapply Occurs_step;
      [apply (Occurs_join "," _ _ (in_map (createEnumType (nl ++ nl)) _ _ Hf))|].
    rewrite enumValues_join. unfold createEnumType. occurs_here.
  - assert (J : Occurs (dq ++ f_name field ++ dq ++ " " ++ f_name field ++ "_t[]")
                      (join ("," ++ nl)
                            (map (postgresField sqlDataTypes) (t_fields table)))).
    { eapply Occurs_step;
        [apply (Occurs_join ("," ++ nl) _ _
                  (in_map (postgresField sqlDataTypes) _ _ Hin))|].
      unfold postgresField, getTypeString, getTypeString_postgres. rewrite E.
      cbn [String.eqb Ascii.eqb Bool.eqb andb interpolate].
      unfold tab. occurs_find. }
    occurs_within J.
Qed.

(** X13: for a table field of type [SET], MySQL and MariaDB emit [SET(...)]
    over the values, PostgreSQL declares the enumerated type [<name>_t]
    before the column, which is an array of it, SQLite emits [BLOB] and SQL
    Server [NVARCHAR(255)]; the columns of SQLite and SQL Server do not
    depend on the values. *)
Theorem set_columns (sqlDataTypes : list string) (obj : Diagram)
  (table : Table) (field : Field) :
  In table (d_tables obj) -> In field (t_fields table) -> f_type field = "SET" ->
  (referencesResolve obj = true -> typesResolve sqlDataTypes obj = true ->
   exists out, jsonToMySQL sqlDataTypes obj = Ok out
     /\ Occurs ("`" ++ f_name field ++ "` SET(" ++ enumValues dq field ++ ")") out)
  /\ (referencesResolve obj = true -> typesResolve sqlDataTypes obj = true ->
      exists out, jsonToMariaDB sqlDataTypes obj = Ok out
        /\ Occurs ("`" ++ f_name field ++ "` SET(" ++ enumValues dq field ++ ")") out)
  /\ (referencesResolve obj = true ->
      exists out, jsonToPostgreSQL sqlDataTypes obj = Ok out
        /\ OccursBefore
             ("CREATE TYPE " ++ dq ++ f_name field ++ "_t" ++ dq ++ " AS ENUM ("
                ++ enumValues "'" field ++ ");")
             (dq ++ f_name field ++ dq ++ " " ++ f_name field ++ "_t[]")
             out)
  /\ (inlineReferencesResolve obj = true ->
      exists out, jsonToSQLite obj = Ok out
        /\ Occurs (dq ++ f_name field ++ dq ++ " BLOB") out)
  /\ (referencesResolve obj = true -> typesHaveFields obj = true ->
      exists out, jsonToSQLServer sqlDataTypes obj = Ok out
        /\ Occurs ("[" ++ f_name field ++ "] NVARCHAR(255)") out)
  /\ (forall vs, sqliteField (setValues vs field) = sqliteField field)
  /\ (forall vs, sqlServerField sqlDataTypes (setValues vs field)
                 = sqlServerField sqlDataTypes field).
Proof.
  intros Ht Hf E. repeat split.
  - intros Hr Hty. destruct (jsonToMySQL_total sqlDataTypes obj Hr Hty) as [out Ho].
    exists out. split; [assumption|].
    destruct (mysqlTable_in_output sqlDataTypes obj out table Ho Ht) as [stmt [Hs Os]].
    destruct (mysqlField_in_table sqlDataTypes obj stmt table field Hs Hf)
      as [line [Hl Ol]].
    eapply Occurs_step; [exact Os|]. eapply Occurs_step; [exact Ol|].
    exact (mysqlField_set sqlDataTypes obj field line E Hl).
  - intros Hr Hty. destruct (jsonToMariaDB_total sqlDataTypes obj Hr Hty) as [out Ho].
    exists out. split; [assumption|].
    destruct (mariadbTable_in_output sqlDataTypes obj out table Ho Ht) as [stmt [Hs Os]].
    destruct (mariadbField_in_table sqlDataTypes obj stmt table field Hs Hf)
      as [line [Hl Ol]].
    eapply Occurs_step; [exact Os|]. eapply Occurs_step; [exact Ol|].
    exact (mariadbField_set sqlDataTypes obj field line E Hl).
  - intros Hr. destruct (jsonToPostgreSQL_total sqlDataTypes obj Hr) as [out Ho].
    exists out. split; [assumption|].
    eapply OccursBefore_in;
      [|exact (postgresTable_in_output sqlDataTypes obj out table Ho Ht)].
    exact (postgresTable_set sqlDataTypes table field Hf E).
  - intros Hr. destruct (jsonToSQLite_total obj Hr) as [out Ho].
    exists out. split; [assumption|].
    destruct (sqliteTable_in_output obj out table Ho Ht) as [stmt [Hs Os]].
    eapply Occurs_step; [exact Os|].
    eapply Occurs_step; [exact (sqliteField_in_table obj stmt table field Hs Hf)|].
    unfold sqliteField, getSQLiteType. rewrite E.
    cbn [includes existsb String.eqb Ascii.eqb Bool.eqb orb].
    unfold tab. occurs_find.
  - intros Hr Hty. destruct (jsonToSQLServer_total sqlDataTypes obj Hr Hty) as [out Ho].
    exists out. split; [assumption|].
    eapply Occurs_step;
      [exact (sqlServerTable_in_output sqlDataTypes obj out table Ho Ht)|].
    unfold sqlServerTable.
    assert (J : Occurs ("[" ++ f_name field ++ "] NVARCHAR(255)")
                  (join ("," ++ nl)
                        (map (sqlServerField sqlDataTypes) (t_fields table)))).
    { eapply Occurs_step;
        [apply (Occurs_join ("," ++ nl) _ _
                  (in_map (sqlServerField sqlDataTypes) _ _ Hf))|].
      unfold sqlServerField, getTypeString, getTypeString_mssql. rewrite E.
      cbn [String.eqb Ascii.eqb Bool.eqb andb interpolate].
      unfold tab. occurs_find. }
    occurs_within J.
  - intros vs. unfold sqliteField, getSQLiteType.
    cbn [setValues f_type f_name]. rewrite E. reflexivity.
  - intros vs. unfold sqlServerField, getTypeString, getTypeString_mssql.
    cbn [setValues f_type f_name f_size]. rewrite E. reflexivity.
Qed.

(** ** When the generators raise *)

Lemma at_index_Ok {A : Type} (l : list A) (i : nat) (x : A) :
  at_index l i = Ok x -> nth_error l i = Some x /\ (i <? List.length l)%nat = true.
Proof.
  unfold at_index. destruct (nth_error l i) as [y|] eqn:E; [|discriminate].
  intros [= ->]. split; [reflexivity|].
  apply Nat.ltb_lt. apply nth_error_Some. congruence.
Qed.

Lemma raises_iff {A : Type} (r : result A) (b : bool) :
  (b = true -> exists a, r = Ok a) -> ((exists a, r = Ok a) -> b = true) ->
  (r = TypeError <-> b = false).
Proof.
  intros H1 H2. split.
  - intros E. destruct b; [|reflexivity].
    destruct (H1 eq_refl) as [a Ea]. congruence.
  - intros E. destruct r as [a|]; [|reflexivity].
    rewrite H2 in E; [discriminate | now exists a].
Qed.

Lemma alterTable_inRange (qo qc terminator : string) (obj : Diagram)
  (r : Reference) (s : string) :
  alterTable qo qc terminator obj r = Ok s -> referenceInRange obj r = true.
Proof.
  unfold alterTable, referenceInRange. intros H.
  destruct (at_index (d_tables obj) (r_startTableId r)) as [st|] eqn:Es;
    [|discriminate]. cbn [bind] in H.
  destruct (at_index (t_fields st) (r_startFieldId r)) as [sf|] eqn:Ef;
    [|discriminate]. cbn [bind] in H.
  destruct (at_index (d_tables obj) (r_endTableId r)) as [et|] eqn:Ee;
    [|discriminate]. cbn [bind] in H.
  destruct (at_index (t_fields et) (r_endFieldId r)) as [ef|] eqn:Eg;
    [|discriminate].
  apply at_index_Ok in Es as [-> _]. apply at_index_Ok in Ee as [-> _].
  apply at_index_Ok in Ef as [_ ->]. apply at_index_Ok in Eg as [_ ->].
  reflexivity.
Qed.

Lemma references_inRange (qo qc terminator : string) (obj : Diagram)
  (rs : list string) :
  mapM (alterTable qo qc terminator obj) (d_references obj) = Ok rs ->
  referencesResolve obj = true.
Proof.
  intros H. unfold referencesResolve. apply forallb_forall. intros r Hr.
  destruct (mapM_In _ _ _ _ H Hr) as [s [Hs _]].
  exact (alterTable_inRange _ _ _ _ _ _ Hs).
Qed.

Lemma jsonCheckClause_resolves (sqlDataTypes : list string) (q : string)
  (obj : Diagram) (field : Field) (s : string) :
  jsonCheckClause sqlDataTypes q obj field = Ok s ->
  typeResolves sqlDataTypes obj field = true.
Proof.
  unfold jsonCheckClause, typeResolves.
  destruct ((f_check field =? "") || negb (hasCheck (f_type field))); cbn [andb];
    [|reflexivity].
  destruct (negb (includes sqlDataTypes (f_type field))); [|reflexivity].
  destruct (find _ (d_types obj)); [reflexivity | discriminate].
Qed.

Lemma jsonToMySQL_ready (sqlDataTypes : list string) (obj : Diagram) :
  (exists out, jsonToMySQL sqlDataTypes obj = Ok out) ->
  typesResolve sqlDataTypes obj && referencesResolve obj = true.
Proof.
  intros [out H]. unfold jsonToMySQL in H.
  destruct (mapM (mysqlTable sqlDataTypes obj) (d_tables obj)) as [ts|] eqn:Et;
    [|discriminate]. cbn [bind] in H.
  destruct (mapM _ (d_references obj)) as [rs|] eqn:Er; [|discriminate].
  apply andb_true_iff. split; [|exact (references_inRange _ _ _ _ _ Er)].
  unfold typesResolve. apply forallb_forall. intros t Ht.
  destruct (mapM_In _ _ _ _ Et Ht) as [stmt [Hs _]]. unfold mysqlTable in Hs.
  destruct (mapM (mysqlField sqlDataTypes obj) (t_fields t)) as [cs|] eqn:Ec;
    [|discriminate].
  apply forallb_forall. intros f Hf.
  destruct (mapM_In _ _ _ _ Ec Hf) as [line [Hl _]]. unfold mysqlField in Hl.
  destruct (jsonCheckClause sqlDataTypes dq obj f) as [chk|] eqn:Ej; [|discriminate].
  exact (jsonCheckClause_resolves _ _ _ _ _ Ej).
Qed.

Lemma jsonToMariaDB_ready (sqlDataTypes : list string) (obj : Diagram) :
  (exists out, jsonToMariaDB sqlDataTypes obj = Ok out) ->
  typesResolve sqlDataTypes obj && referencesResolve obj = true.
Proof.
  intros [out H]. unfold jsonToMariaDB in H.
  destruct (mapM (mariadbTable sqlDataTypes obj) (d_tables obj)) as [ts|] eqn:Et;
    [|discriminate]. cbn [bind] in H.
  destruct (mapM _ (d_references obj)) as [rs|] eqn:Er; [|discriminate].
  apply andb_true_iff. split; [|exact (references_inRange _ _ _ _ _ Er)].
  unfold typesResolve. apply forallb_forall. intros t Ht.
  destruct (mapM_In _ _ _ _ Et Ht) as [stmt [Hs _]]. unfold mariadbTable in Hs.
  destruct (mapM (mariadbField sqlDataTypes obj) (t_fields t)) as [cs|] eqn:Ec;
    [|discriminate].
  apply forallb_forall. intros f Hf.
  destruct (mapM_In _ _ _ _ Ec Hf) as [line [Hl _]]. unfold mariadbField in Hl.
  destruct (jsonCheckClause sqlDataTypes "'" obj f) as [chk|] eqn:Ej; [|discriminate].
  exact (jsonCheckClause_resolves _ _ _ _ _ Ej).
Qed.

Lemma jsonToSQLServer_ready (sqlDataTypes : list string) (obj : Diagram) :
  (exists out, jsonToSQLServer sqlDataTypes obj = Ok out) ->
  typesHaveFields obj && referencesResolve obj = true.
Proof.
  intros [out H]. unfold jsonToSQLServer in H.
  destruct (mapM (sqlServerType sqlDataTypes) (d_types obj)) as [tys|] eqn:Et;
    [|discriminate]. cbn [bind] in H.
  destruct (mapM _ (d_references obj)) as [rs|] eqn:Er; [|discriminate].
  apply andb_true_iff. split; [|exact (references_inRange _ _ _ _ _ Er)].
  unfold typesHaveFields. apply forallb_forall. intros ty Hty.
  destruct (mapM_In _ _ _ _ Et Hty) as [stmt [Hs _]]. unfold sqlServerType in Hs.
  destruct (ty_fields ty); [discriminate | reflexivity].
Qed.

(** X14: [jsonToPostgreSQL] raises exactly when a reference points outside
    the tables and fields of the diagram; [jsonToMySQL] and [jsonToMariaDB]
    raise exactly when a reference does, or when a field that gets the schema
    check has a type that the diagram does not declare; [jsonToSQLServer]
    raises exactly when a reference does, or when a type has no field. *)
Theorem generators_raise_exactly (sqlDataTypes : list string) (obj : Diagram) :
  (jsonToMySQL sqlDataTypes obj = TypeError
   <-> typesResolve sqlDataTypes obj && referencesResolve obj = false)
  /\ (jsonToMariaDB sqlDataTypes obj = TypeError
      <-> typesResolve sqlDataTypes obj && referencesResolve obj = false)
  /\ (jsonToPostgreSQL sqlDataTypes obj = TypeError
      <-> referencesResolve obj = false)
  /\ (jsonToSQLServer sqlDataTypes obj = TypeError
      <-> typesHaveFields obj && referencesResolve obj = false).
Proof.
  split; [|split; [|split]]; apply raises_iff.
  - intros H. apply andb_true_iff in H as [Ht Hr].
    exact (jsonToMySQL_total sqlDataTypes obj Hr Ht).
  - apply jsonToMySQL_ready.
  - intros H. apply andb_true_iff in H as [Ht Hr].
    exact (jsonToMariaDB_total sqlDataTypes obj Hr Ht).
  - apply jsonToMariaDB_ready.
  - apply jsonToPostgreSQL_total.
  - intros [out H]. unfold jsonToPostgreSQL in H.
    destruct (mapM _ (d_references obj)) as [rs|] eqn:Er; [|discriminate].
    exact (references_inRange _ _ _ _ _ Er).
  - intros H. apply andb_true_iff in H as [Ht Hr].
    exact (jsonToSQLServer_total sqlDataTypes obj Hr Ht).
  - apply jsonToSQLServer_ready.
Qed.

Lemma inlineFKClause_inRange (table : Table) (obj : Diagram) (r : Reference) (s : string) :
  inlineFKClause table obj r = Ok s -> inlineReferenceInRange obj table r = true.
Proof.
  unfold inlineFKClause, inlineReferenceInRange. intros H.
  destruct (at_index (t_fields table) (r_startFieldId r)) as [sf|] eqn:Ef;
    [|discriminate]. cbn [bind] in H.
  destruct (at_index (d_tables obj) (r_endTableId r)) as [et|] eqn:Ee;
    [|discriminate]. cbn [bind] in H.
  destruct (at_index (t_fields et) (r_endFieldId r)) as [ef|] eqn:Eg;
    [|discriminate].
  apply at_index_Ok in Ef as [_ ->]. apply at_index_Ok in Ee as [-> _].
  apply at_index_Ok in Eg as [_ ->].
  now destruct (r_startTableId r =? t_id table)%nat.
Qed.

Lemma getInlineFK_returns (table : Table) (obj : Diagram) :
  (exists fk, getInlineFK table obj = Ok fk) <-> firstReferenceResolves obj table = true.
Proof.
  rewrite getInlineFK_find. unfold firstReferenceResolves.
  destruct (find (startsAt table) (d_references obj)) as [r|] eqn:F.
  - apply find_some in F as [_ Hs]. split.
    + intros [fk H]. exact (inlineFKClause_inRange _ _ _ _ H).
    + intros H. now apply inlineFKClause_total.
  - split; [reflexivity | eauto].
Qed.

(** X15: [jsonToSQLite] raises exactly when, for some table, the first
    reference that starts at the table points outside the fields of that
    table or outside the tables and fields of the diagram; no other
    reference is read. *)
Theorem jsonToSQLite_raises_exactly (obj : Diagram) :
  jsonToSQLite obj = TypeError <-> firstReferencesResolve obj = false.
Proof.
  apply raises_iff; unfold firstReferencesResolve, jsonToSQLite.
  - rewrite forallb_forall. intros H.
    assert (T : exists ts, mapM (sqliteTable obj) (d_tables obj) = Ok ts).
    { apply mapM_total. intros t Hin. unfold sqliteTable.
      destruct (proj2 (getInlineFK_returns t obj) (H t Hin)) as [fk ->].
      cbn [bind]. eauto. }
    destruct T as [ts ->]. cbn [bind]. eauto.
  - intros [out H].
    destruct (mapM (sqliteTable obj) (d_tables obj)) as [ts|] eqn:Et; [|discriminate].
    apply forallb_forall. intros t Ht.
    destruct (mapM_In _ _ _ _ Et Ht) as [stmt [Hs _]]. unfold sqliteTable in Hs.
    apply getInlineFK_returns.
    destruct (getInlineFK t obj) as [fk|]; [eauto | discriminate].
Qed.

(** ** The order of the statements *)

Lemma mapM_app {A B : Type} (f : A -> result B) (l1 l2 : list A) (ys : list B) :
  mapM f (l1 ++ l2) = Ok ys ->
  exists ys1 ys2, mapM f l1 = Ok ys1 /\ mapM f l2 = Ok ys2 /\ ys = (ys1 ++ ys2)%list.
Proof.
  revert ys. induction l1 as [|a l1 IH]; intros ys H.
  - exists [], ys. now repeat split.
  - cbn [List.app mapM] in *. destruct (f a) as [b|]; [|discriminate].
    cbn [bind] in *.
    destruct (mapM f (l1 ++ l2)%list) as [bs|] eqn:E; [|discriminate].
    cbn [bind] in H. apply Ok_inj in H. subst ys.
    destruct (IH bs eq_refl) as [ys1 [ys2 [-> [-> ->]]]].
    exists (b :: ys1), ys2. now repeat split.
Qed.

Lemma mapM_pair {A B : Type} (f : A -> result B) (l1 l2 l3 : list A)
  (t u : A) (ys : list B) :
  mapM f (l1 ++ t :: l2 ++ u :: l3) = Ok ys ->
  exists y z ys1 ys2 ys3,
    f t = Ok y /\ f u = Ok z /\ ys = (ys1 ++ y :: ys2 ++ z :: ys3)%list.
Proof.
  intros H. apply mapM_app in H as [ys1 [r1 [_ [H ->]]]].
  cbn [mapM] in H. destruct (f t) as [y|]; [|discriminate]. cbn [bind] in H.
  destruct (mapM f (l2 ++ u :: l3)%list) as [r2|] eqn:E; [|discriminate].
  cbn [bind] in H. apply Ok_inj in H. subst r1.
  apply mapM_app in E as [ys2 [r3 [_ [E ->]]]].
  cbn [mapM] in E. destruct (f u) as [z|]; [|discriminate]. cbn [bind] in E.
  destruct (mapM f l3) as [ys3|]; [|discriminate].
  cbn [bind] in E. apply Ok_inj in E. subst r3.
  now exists y, z, ys1, ys2, ys3.
Qed.

Lemma references_statement (qo qc terminator : string) (obj : Diagram)
  (rs : list string) (r : Reference) :
  mapM (alterTable qo qc terminator obj) (d_references obj) = Ok rs ->
  In r (d_references obj) ->
  exists fk, alterTable qo qc terminator obj r = Ok fk /\ Occurs fk (join nl rs).
Proof.
  intros H Hr. destruct (mapM_In _ _ _ _ H Hr) as [fk [Hf Hi]].
  exists fk. split; [assumption | now apply Occurs_join].
Qed.

(** X16: in the outputs of MySQL, MariaDB, PostgreSQL and SQL Server the
    [ALTER TABLE] of every reference comes after the [CREATE TABLE] of every
    table; for PostgreSQL and SQL Server the statement of every type comes
    before both. *)
Theorem statements_order (sqlDataTypes : list string) (obj : Diagram)
  (table : Table) (r : Reference) :
  In table (d_tables obj) -> In r (d_references obj) ->
  (referencesResolve obj = true -> typesResolve sqlDataTypes obj = true ->
   exists out stmt fk,
     jsonToMySQL sqlDataTypes obj = Ok out
     /\ mysqlTable sqlDataTypes obj table = Ok stmt
     /\ alterTable "`" "`" "" obj r = Ok fk
     /\ InOrder [stmt; fk] out)
  /\ (referencesResolve obj = true -> typesResolve sqlDataTypes obj = true ->
      exists out stmt fk,
        jsonToMariaDB sqlDataTypes obj = Ok out
        /\ mariadbTable sqlDataTypes obj table = Ok stmt
        /\ alterTable "`" "`" "" obj r = Ok fk
        /\ InOrder [stmt; fk] out)
  /\ (referencesResolve obj = true ->
      exists out fk,
        jsonToPostgreSQL sqlDataTypes obj = Ok out
        /\ alterTable dq dq "" obj r = Ok fk
        /\ InOrder [postgresTable sqlDataTypes table; fk] out
        /\ forall ty, In ty (d_types obj) ->
             InOrder [postgresType sqlDataTypes ty;
                      postgresTable sqlDataTypes table; fk] out)
  /\ (referencesResolve obj = true -> typesHaveFields obj = true ->
      exists out fk,
        jsonToSQLServer sqlDataTypes obj = Ok out
        /\ alterTable "[" "]" (nl ++ "GO") obj r = Ok fk
        /\ InOrder [sqlServerTable sqlDataTypes table; fk] out
        /\ forall ty, In ty (d_types obj) ->
             exists tstmt,
               sqlServerType sqlDataTypes ty = Ok tstmt
               /\ InOrder [tstmt; sqlServerTable sqlDataTypes table; fk] out).
Proof.
  intros Ht Hr. split; [|split; [|split]].
  - intros Hrr Hty. destruct (jsonToMySQL_total sqlDataTypes obj Hrr Hty) as [out Ho].
    exists out. pose proof Ho as H. unfold jsonToMySQL in H.
    destruct (mapM (mysqlTable sqlDataTypes obj) (d_tables obj)) as [ts|] eqn:Et;
      [|discriminate]. cbn [bind] in H.
    destruct (mapM _ (d_references obj)) as [rs|] eqn:Er; [|discriminate].
    cbn [bind] in H. apply Ok_inj in H.
    destruct (mapM_In _ _ _ _ Et Ht) as [stmt [Hs Hi]].
    destruct (references_statement _ _ _ _ _ _ Er Hr) as [fk [Hf Of]].
    exists stmt, fk. repeat split; try assumption. rewrite <- H.
    apply InOrder_cons; [now apply Occurs_join|].
    now apply InOrder_skip, InOrder_one.
  - intros Hrr Hty. destruct (jsonToMariaDB_total sqlDataTypes obj Hrr Hty) as [out Ho].
    exists out. pose proof Ho as H. unfold jsonToMariaDB in H.
    destruct (mapM (mariadbTable sqlDataTypes obj) (d_tables obj)) as [ts|] eqn:Et;
      [|discriminate]. cbn [bind] in H.
    destruct (mapM _ (d_references obj)) as [rs|] eqn:Er; [|discriminate].
    cbn [bind] in H. apply Ok_inj in H.
    destruct (mapM_In _ _ _ _ Et Ht) as [stmt [Hs Hi]].
    destruct (references_statement _ _ _ _ _ _ Er Hr) as [fk [Hf Of]].
    exists stmt, fk. repeat split; try assumption. rewrite <- H.
    apply InOrder_cons; [now apply Occurs_join|].
    now apply InOrder_skip, InOrder_one.
  - intros Hrr. destruct (jsonToPostgreSQL_total sqlDataTypes obj Hrr) as [out Ho].
    exists out. pose proof Ho as H. unfold jsonToPostgreSQL in H.
    destruct (mapM _ (d_references obj)) as [rs|] eqn:Er; [|discriminate].
    cbn [bind] in H. apply Ok_inj in H.
    destruct (references_statement _ _ _ _ _ _ Er Hr) as [fk [Hf Of]].
    exists fk. split; [assumption|]. split; [assumption|].
    assert (T : InOrder [postgresTable sqlDataTypes table; fk]
                  (join nl (map (postgresTable sqlDataTypes) (d_tables obj)) ++ nl
                     ++ join nl rs)).
    { apply InOrder_cons; [now apply Occurs_join, in_map|].
      now apply InOrder_skip, InOrder_one. }
    rewrite <- H. split.
    + now do 2 apply InOrder_skip.
    + intros ty Hin. apply InOrder_cons; [now apply Occurs_join, in_map|].
      now apply InOrder_skip.
  - intros Hrr Hty. destruct (jsonToSQLServer_total sqlDataTypes obj Hrr Hty) as [out Ho].
    exists out. pose proof Ho as H. unfold jsonToSQLServer in H.
    destruct (mapM (sqlServerType sqlDataTypes) (d_types obj)) as [tys|] eqn:Ety;
      [|discriminate]. cbn [bind] in H.
    destruct (mapM _ (d_references obj)) as [rs|] eqn:Er; [|discriminate].
    cbn [bind] in H. apply Ok_inj in H.
    destruct (references_statement _ _ _ _ _ _ Er Hr) as [fk [Hf Of]].
    exists fk. split; [assumption|]. split; [assumption|].
    assert (T : InOrder [sqlServerTable sqlDataTypes table; fk]
                  (join nl (map (sqlServerTable sqlDataTypes) (d_tables obj)) ++ nl
                     ++ join nl rs)).
    { apply InOrder_cons; [now apply Occurs_join, in_map|].
      now apply InOrder_skip, InOrder_one. }
    rewrite <- H. split.
    + now do 2 apply InOrder_skip.
    + intros ty Hin. destruct (mapM_In _ _ _ _ Ety Hin) as [tstmt [Hs Hi]].
      exists tstmt. split; [assumption|].
      apply InOrder_cons; [now apply Occurs_join|].
      now apply InOrder_skip.
Qed.

(** X17: the five generators keep the order of the tables: when a table
    precedes another in the diagram, its statement precedes the statement of
    the other in the output. *)
Theorem tables_keep_their_order (sqlDataTypes : list string) (obj : Diagram)
  (l1 l2 l3 : list Table) (t u : Table) :
  d_tables obj = (l1 ++ t :: l2 ++ u :: l3)%list ->
  (referencesResolve obj = true -> typesResolve sqlDataTypes obj = true ->
   exists out st su,
     jsonToMySQL sqlDataTypes obj = Ok out
     /\ mysqlTable sqlDataTypes obj t = Ok st
     /\ mysqlTable sqlDataTypes obj u = Ok su
     /\ InOrder [st; su] out)
  /\ (referencesResolve obj = true -> typesResolve sqlDataTypes obj = true ->
      exists out st su,
        jsonToMariaDB sqlDataTypes obj = Ok out
        /\ mariadbTable sqlDataTypes obj t = Ok st
        /\ mariadbTable sqlDataTypes obj u = Ok su
        /\ InOrder [st; su] out)
  /\ (referencesResolve obj = true ->
      exists out,
        jsonToPostgreSQL sqlDataTypes obj = Ok out
        /\ InOrder [postgresTable sqlDataTypes t; postgresTable sqlDataTypes u] out)
  /\ (inlineReferencesResolve obj = true ->
      exists out st su,
        jsonToSQLite obj = Ok out
        /\ sqliteTable obj t = Ok st
        /\ sqliteTable obj u = Ok su
        /\ InOrder [st; su] out)
  /\ (referencesResolve obj = true -> typesHaveFields obj = true ->
      exists out,
        jsonToSQLServer sqlDataTypes obj = Ok out
        /\ InOrder [sqlServerTable sqlDataTypes t; sqlServerTable sqlDataTypes u] out).
Proof.
  intros E. split; [|split; [|split; [|split]]].
  - intros Hr Hty. destruct (jsonToMySQL_total sqlDataTypes obj Hr Hty) as [out Ho].
    exists out. pose proof Ho as H. unfold jsonToMySQL in H.
    destruct (mapM (mysqlTable sqlDataTypes obj) (d_tables obj)) as [ts|] eqn:Et;
      [|discriminate]. cbn [bind] in H.
    destruct (mapM _ (d_references obj)) as [rs|]; [|discriminate].
    cbn [bind] in H. apply Ok_inj in H.
    rewrite E in Et. apply mapM_pair in Et as [st [su [a [b [c [Ht [Hu ->]]]]]]].
    exists st, su. repeat split; try assumption.
    rewrite <- H. apply InOrder_left, InOrder_join_pair.
  - intros Hr Hty. destruct (jsonToMariaDB_total sqlDataTypes obj Hr Hty) as [out Ho].
    exists out. pose proof Ho as H. unfold jsonToMariaDB in H.
    destruct (mapM (mariadbTable sqlDataTypes obj) (d_tables obj)) as [ts|] eqn:Et;
      [|discriminate]. cbn [bind] in H.
    destruct (mapM _ (d_references obj)) as [rs|]; [|discriminate].
    cbn [bind] in H. apply Ok_inj in H.
    rewrite E in Et. apply mapM_pair in Et as [st [su [a [b [c [Ht [Hu ->]]]]]]].
    exists st, su. repeat split; try assumption.
    rewrite <- H. apply InOrder_left, InOrder_join_pair.
  - intros Hr. destruct (jsonToPostgreSQL_total sqlDataTypes obj Hr) as [out Ho].
    exists out. split; [assumption|]. unfold jsonToPostgreSQL in Ho.
    destruct (mapM _ (d_references obj)) as [rs|]; [|discriminate].
    cbn [bind] in Ho. apply Ok_inj in Ho. rewrite <- Ho, E.
    rewrite !map_app. cbn [map]. rewrite map_app. cbn [map].
    apply InOrder_skip, InOrder_skip, InOrder_left, InOrder_join_pair.
  - intros Hr. destruct (jsonToSQLite_total obj Hr) as [out Ho].
    exists out. pose proof Ho as H. unfold jsonToSQLite in H.
    destruct (mapM (sqliteTable obj) (d_tables obj)) as [ts|] eqn:Et; [|discriminate].
    cbn [bind] in H. apply Ok_inj in H.
    rewrite E in Et. apply mapM_pair in Et as [st [su [a [b [c [Ht [Hu ->]]]]]]].
    exists st, su. repeat split; try assumption.
    rewrite <- H. apply InOrder_join_pair.
  - intros Hr Hty. destruct (jsonToSQLServer_total sqlDataTypes obj Hr Hty) as [out Ho].
    exists out. split; [assumption|]. unfold jsonToSQLServer in Ho.
    destruct (mapM (sqlServerType sqlDataTypes) (d_types obj)) as [tys|];
      [|discriminate]. cbn [bind] in Ho.
    destruct (mapM _ (d_references obj)) as [rs|]; [|discriminate].
    cbn [bind] in Ho. apply Ok_inj in Ho. rewrite <- Ho, E.
    rewrite !map_app. cbn [map]. rewrite map_app. cbn [map].
    apply InOrder_skip, InOrder_skip, InOrder_left, InOrder_join_pair.
Qed.

(** X18: for a type with an [ENUM] or [SET] field, PostgreSQL declares the
    enumerated type of the field before the [CREATE TYPE] of the composite
    type, whose body has the line of the field. *)
Theorem postgres_composite_type (sqlDataTypes : list string) (obj : Diagram)
  (type : CType) (f : Field) :
  In type (d_types obj) -> In f (ty_fields type) -> isEnumOrSet f = true ->
  referencesResolve obj = true ->
  exists out,
    jsonToPostgreSQL sqlDataTypes obj = Ok out
    /\ InOrder [ createEnumType nl f;
                 "CREATE TYPE " ++ ty_name type ++ " AS (" ++ nl;
                 postgresTypeField sqlDataTypes f ] out.
Proof.
  intros Hty Hf He Hr.
  destruct (jsonToPostgreSQL_total sqlDataTypes obj Hr) as [out Ho].
  exists out. split; [assumption|]. unfold jsonToPostgreSQL in Ho.
  destruct (mapM _ (d_references obj)) as [rs|]; [|discriminate].
  cbn [bind] in Ho. apply Ok_inj in Ho. rewrite <- Ho.
  apply InOrder_left.
  apply (InOrder_in _ (postgresType sqlDataTypes type));
    [|now apply Occurs_join, in_map].
  unfold postgresType.
  assert (Hin : In f (filter isEnumOrSet (ty_fields type)))
    by (apply filter_In; now split).
  rewrite length_map.
  destruct (filter isEnumOrSet (ty_fields type)) as [|f0 fs] eqn:F; [contradiction|].
  cbn [List.length Nat.ltb Nat.leb].
  apply InOrder_cons; [now apply Occurs_join, in_map|].
  apply InOrder_skip.
  replace ("CREATE TYPE " ++ ty_name type ++ " AS (" ++ nl
             ++ join nl (map (postgresTypeField sqlDataTypes) (ty_fields type))
             ++ nl ++ ");")
    with (("CREATE TYPE " ++ ty_name type ++ " AS (" ++ nl)
            ++ join nl (map (postgresTypeField sqlDataTypes) (ty_fields type))
            ++ nl ++ ");")
    by (now rewrite !append_assoc).
  apply InOrder_head, InOrder_left, InOrder_one.
  now apply Occurs_join, in_map.
Qed.

(** ** Separators *)

Lemma mapM_adjacent {A B : Type} (f : A -> result B) (l1 l2 : list A)
  (a b : A) (ys : list B) :
  mapM f (l1 ++ a :: b :: l2) = Ok ys ->
  exists sa sb ys1 ys2,
    f a = Ok sa /\ f b = Ok sb /\ ys = (ys1 ++ sa :: sb :: ys2)%list.
Proof.
  intros H. apply mapM_app in H as [ys1 [r1 [_ [H ->]]]].
  cbn [mapM] in H. destruct (f a) as [sa|]; [|discriminate]. cbn [bind] in H.
  destruct (f b) as [sb|]; [|discriminate]. cbn [bind] in H.
  destruct (mapM f l2) as [ys2|]; [|discriminate].
  cbn [bind] in H. apply Ok_inj in H. subst r1.
  now exists sa, sb, ys1, ys2.
Qed.

(** X19: between the statements of two successive types PostgreSQL emits a
    comma, the separator of an array turned into a string, and SQL Server a
    line break. *)
Theorem type_statements_separator (sqlDataTypes : list string) (obj : Diagram)
  (l1 l2 : list CType) (a b : CType) :
  d_types obj = (l1 ++ a :: b :: l2)%list ->
  (referencesResolve obj = true ->
   exists out,
     jsonToPostgreSQL sqlDataTypes obj = Ok out
     /\ Occurs (postgresType sqlDataTypes a ++ "," ++ postgresType sqlDataTypes b) out)
  /\ (referencesResolve obj = true -> typesHaveFields obj = true ->
      exists out sa sb,
        jsonToSQLServer sqlDataTypes obj = Ok out
        /\ sqlServerType sqlDataTypes a = Ok sa
        /\ sqlServerType sqlDataTypes b = Ok sb
        /\ Occurs (sa ++ nl ++ sb) out).
Proof.
  intros E. split.
  - intros Hr. destruct (jsonToPostgreSQL_total sqlDataTypes obj Hr) as [out Ho].
    exists out. split; [assumption|]. unfold jsonToPostgreSQL in Ho.
    destruct (mapM _ (d_references obj)) as [rs|]; [|discriminate].
    cbn [bind] in Ho. apply Ok_inj in Ho. rewrite <- Ho, E.
    apply Occurs_left. unfold arrayToString. rewrite map_app. cbn [map].
    apply Occurs_join_adjacent.
  - intros Hr Hty. destruct (jsonToSQLServer_total sqlDataTypes obj Hr Hty) as [out Ho].
    exists out. pose proof Ho as H. unfold jsonToSQLServer in H.
    destruct (mapM (sqlServerType sqlDataTypes) (d_types obj)) as [tys|] eqn:Ety;
      [|discriminate]. cbn [bind] in H.
    destruct (mapM _ (d_references obj)) as [rs|]; [|discriminate].
    cbn [bind] in H. apply Ok_inj in H.
    rewrite E in Ety.
    apply mapM_adjacent in Ety as [sa [sb [x [z [Ha [Hb ->]]]]]].
    exists sa, sb. repeat split; try assumption. rewrite <- H.
    apply Occurs_left. apply Occurs_join_adjacent.
Qed.

(** X20: the [CREATE TYPE ... AS ENUM] statements of two successive
    enumerated fields are separated by a comma before the [CREATE TABLE] of a
    PostgreSQL table, and by nothing before the [CREATE TYPE] of a composite
    type. *)
Theorem enum_type_statements_separator (sqlDataTypes : list string)
  (fields : list Field) (l1 l2 : list Field) (f g : Field) :
  filter isEnumOrSet fields = (l1 ++ f :: g :: l2)%list ->
  (forall table, t_fields table = fields ->
     Occurs (createEnumType (nl ++ nl) f ++ "," ++ createEnumType (nl ++ nl) g)
            (postgresTable sqlDataTypes table))
  /\ (forall type, ty_fields type = fields ->
        Occurs (createEnumType nl f ++ createEnumType nl g)
               (postgresType sqlDataTypes type)).
Proof.
  intros E. split.
  - intros table Ef. unfold postgresTable. rewrite Ef, E.
    rewrite length_app. cbn [List.length].
    replace (0 <? List.length l1 + S (S (List.length l2)))%nat with true
      by (symmetry; apply Nat.ltb_lt; lia).
    apply Occurs_skip, Occurs_left. unfold arrayToString.
    rewrite map_app. cbn [map]. apply Occurs_join_adjacent.
  - intros type Ef. unfold postgresType. rewrite Ef, E.
    rewrite length_map, length_app. cbn [List.length].
    replace (0 <? List.length l1 + S (S (List.length l2)))%nat with true
      by (symmetry; apply Nat.ltb_lt; lia).
    apply Occurs_left. rewrite map_app. cbn [map].
    exact (Occurs_join_adjacent "" _ _ _ _).
Qed.

Lemma join_last (sep x : string) (l : list string) :
  exists a, join sep (l ++ [x]) = a ++ x.
Proof.
  induction l as [|y l [a IH]].
  - exists "". reflexivity.
  - cbn [List.app]. rewrite join_cons.
    destruct (l ++ [x])%list eqn:E; [destruct l; discriminate|].
    rewrite IH. exists (y ++ sep ++ a). now rewrite !append_assoc.
Qed.

(** X21: in the [CREATE TABLE] of SQLite the foreign key clause of a table
    follows the primary key clause after a comma and a line break; in a table
    without primary key it follows the line of the last column directly,
    after a tab and without a comma. *)
Theorem sqlite_foreign_key_separator (obj : Diagram) (table : Table)
  (r : Reference) (columns : list Field) (last : Field) :
  find (startsAt table) (d_references obj) = Some r ->
  inlineReferenceInRange obj table r = true ->
  t_fields table = (columns ++ [last])%list ->
  exists stmt fk,
    sqliteTable obj table = Ok stmt
    /\ inlineFKClause table obj r = Ok fk
    /\ (hasPrimary table = true ->
        Occurs (primaryKeyText dq dq table ++ "," ++ nl ++ tab ++ fk ++ nl ++ ");") stmt)
    /\ (hasPrimary table = false ->
        Occurs (sqliteField last ++ tab ++ fk ++ nl ++ ");") stmt).
Proof.
  intros F Hr Ef.
  pose proof (find_some _ _ F) as [_ Hs].
  destruct (inlineFKClause_total table obj r Hs Hr) as [fk Hfk].
  assert (G : getInlineFK table obj = Ok fk) by (now rewrite getInlineFK_find, F).
  unfold sqliteTable. rewrite G. cbn [bind].
  eexists. exists fk. split; [reflexivity|]. split; [assumption|].
  rewrite (inlineFKClause_not_empty _ _ _ _ Hfk). cbn [negb].
  split; intros P; rewrite P.
  - string_norm. occurs_find.
  - rewrite Ef, map_app. cbn [map].
    destruct (join_last ("," ++ nl) (sqliteField last) (map sqliteField columns))
      as [a ->].
    string_norm. occurs_find.
Qed.

(** ** The constraints of a column and of an index

    A column has the word of a constraint exactly when the field asks for
    it. The word is shown absent with [Passes], on fields and types whose
    texts do not contain it. *)

Lemma cleanTypes_spec (p : string) (obj : Diagram) :
  forallb (cleanCType p) (d_types obj) = true ->
  forall ty, In ty (d_types obj) -> CleanCType p ty.
Proof.
  intros H ty Hin. rewrite forallb_forall in H. apply cleanCType_spec. auto.
Qed.

Lemma schemaProperty_no_word (p : string) (sqlDataTypes : list string) (f : Field) :
  In p [notNullWords; uniqueWord; defaultWord; autoIncrementWord] ->
  CleanField p f -> Passes p false false (schemaProperty sqlDataTypes f).
Proof.
  intros Hp H. clean_field H. cbn [In] in Hp.
  destruct Hp as [<- | [<- | [<- | [<- | []]]]];
    unfold schemaProperty, getJsonType; unfold_clauses; string_norm; passes.
Qed.

Lemma generateSchemaOf_no_word (p : string) (sqlDataTypes : list string) (type : CType) :
  In p [notNullWords; uniqueWord; defaultWord; autoIncrementWord] ->
  CleanCType p type -> Passes p false false (generateSchemaOf sqlDataTypes type).
Proof.
  intros Hp [_ _ Hf].
  pose proof (fun f Hin => schemaProperty_no_word p sqlDataTypes f Hp (Hf f Hin)).
  cbn [In] in Hp.
  destruct Hp as [<- | [<- | [<- | [<- | []]]]];
    unfold generateSchemaOf; unfold_clauses; string_norm; passes.
Qed.

Lemma jsonCheckClause_no_word (p : string) (sqlDataTypes : list string) (q : string)
  (obj : Diagram) (f : Field) (chk : string) :
  In p [notNullWords; uniqueWord; defaultWord; autoIncrementWord] ->
  q = dq \/ q = "'" ->
  (forall ty, In ty (d_types obj) -> CleanCType p ty) -> CleanField p f ->
  jsonCheckClause sqlDataTypes q obj f = Ok chk ->
  Passes p false false chk.
Proof.
  intros Hp Hq Hd H E. clean_field H. unfold jsonCheckClause in E.
  destruct ((f_check f =? "") || negb (hasCheck (f_type f))).
  - destruct (negb (includes sqlDataTypes (f_type f))).
    + destruct (find _ (d_types obj)) as [ty|] eqn:F; [|discriminate].
      apply find_some in F as [F _].
      pose proof (generateSchemaOf_no_word p sqlDataTypes ty Hp
                    (Hd ty F)).
      cbn [generateSchema bind] in E. apply Ok_inj in E. rewrite <- E.
      cbn [In] in Hp.
      destruct Hp as [<- | [<- | [<- | [<- | []]]]];
        destruct Hq as [-> | ->]; unfold_clauses; string_norm; passes.
    + apply Ok_inj in E. rewrite <- E. apply Passes_empty.
  - apply Ok_inj in E. rewrite <- E. cbn [In] in Hp.
    destruct Hp as [<- | [<- | [<- | [<- | []]]]]; string_norm; passes.
Qed.

(** The column of MySQL or MariaDB without a word, once [tac] has unset the
    flag or the default value that brings it; [schema] says that the check
    of the column passes. *)
Ltac mysql_column_absent schema tac :=
  let Hd := fresh "Hd" in let H := fresh "H" in let E := fresh "E" in
  let C := fresh "C" in let chk := fresh "chk" in
  intros Hd H E;
  try unfold mysqlField in E; try unfold mariadbField in E;
  lazymatch type of E with
  | context [jsonCheckClause ?s ?q ?obj ?f] =>
      destruct (jsonCheckClause s q obj f) as [chk|] eqn:C; [|discriminate];
      pose proof (schema s q obj f chk
                    ltac:(cbn [In]; tauto) ltac:(tauto) Hd H C)
  end;
  clean_field H; cbn [bind] in E; apply Ok_inj in E; rewrite <- E;
  unfold getTypeString; compute_tests; unfold getTypeString_mysql;
  unfold_clauses; tac; cbn [String.eqb negb]; string_norm; passes.

Ltac sqlite_column_absent tac :=
  let H := fresh "H" in
  intros H; clean_field H;
  unfold sqliteField, getSQLiteType; unfold_clauses; tac;
  cbn [String.eqb negb]; string_norm; passes.

Ltac postgres_column_cases tac :=
  let HP := fresh "HP" in let E := fresh "E" in
  lazymatch goal with
  | |- context [hasPrecision (f_type ?f)] =>
      destruct (hasPrecision (f_type f)) eqn:HP;
      [ apply hasPrecision_cases in HP;
        destruct HP as [E | [E | [E | E]]]; rewrite E; compute_tests;
        lower_literal
      | compute_tests ]
  end;
  unfold_clauses; tac; cbn [String.eqb negb]; string_norm; passes.

Ltac postgres_column_absent tac :=
  let H := fresh "H" in
  intros H; clean_field H;
  unfold postgresField, getTypeString; compute_tests;
  unfold getTypeString_postgres;
  postgres_column_cases tac.

Ltac sqlServer_column_absent tac :=
  let H := fresh "H" in
  intros H; clean_field H;
  unfold sqlServerField, getTypeString; compute_tests;
  unfold getTypeString_mssql; cbn zeta;
  switch_cases; unfold_clauses; tac; cbn [String.eqb negb];
  string_norm; passes.

Section ColumnWords.

Variable sqlDataTypes : list string.

Lemma mysqlField_not_null (obj : Diagram) (f : Field) (line : string) :
  f_notNull f = false ->
  (forall ty, In ty (d_types obj) -> CleanCType notNullWords ty) ->
  CleanField notNullWords f ->
  mysqlField sqlDataTypes obj f = Ok line -> Passes notNullWords false false line.
Proof.
  intros N.
  mysql_column_absent (jsonCheckClause_no_word notNullWords) ltac:(rewrite N).
Qed.

Lemma mariadbField_not_null (obj : Diagram) (f : Field) (line : string) :
  f_notNull f = false ->
  (forall ty, In ty (d_types obj) -> CleanCType notNullWords ty) ->
  CleanField notNullWords f ->
  mariadbField sqlDataTypes obj f = Ok line -> Passes notNullWords false false line.
Proof.
  intros N.
  mysql_column_absent (jsonCheckClause_no_word notNullWords) ltac:(rewrite N).
Qed.

Lemma postgresField_not_null (f : Field) :
  f_notNull f = false ->
  CleanField notNullWords f ->
  Passes notNullWords false false (postgresField sqlDataTypes f).
Proof. intros N. postgres_column_absent ltac:(rewrite N). Qed.

Lemma sqliteField_not_null (f : Field) :
  f_notNull f = false ->
  CleanField notNullWords f -> Passes notNullWords false false (sqliteField f).
Proof. intros N. sqlite_column_absent ltac:(rewrite N). Qed.

Lemma sqlServerField_not_null (f : Field) :
  f_notNull f = false ->
  CleanField notNullWords f ->
  Passes notNullWords false false (sqlServerField sqlDataTypes f).
Proof. intros N. sqlServer_column_absent ltac:(rewrite N). Qed.

Lemma mysqlField_unique (obj : Diagram) (f : Field) (line : string) :
  f_unique f = false ->
  (forall ty, In ty (d_types obj) -> CleanCType uniqueWord ty) ->
  CleanField uniqueWord f ->
  mysqlField sqlDataTypes obj f = Ok line -> Passes uniqueWord false false line.
Proof.
  intros N.
  mysql_column_absent (jsonCheckClause_no_word uniqueWord) ltac:(rewrite N).
Qed.

Lemma mariadbField_unique (obj : Diagram) (f : Field) (line : string) :
  f_unique f = false ->
  (forall ty, In ty (d_types obj) -> CleanCType uniqueWord ty) ->
  CleanField uniqueWord f ->
  mariadbField sqlDataTypes obj f = Ok line -> Passes uniqueWord false false line.
Proof.
  intros N.
  mysql_column_absent (jsonCheckClause_no_word uniqueWord) ltac:(rewrite N).
Qed.

Lemma postgresField_unique (f : Field) :
  CleanField uniqueWord f ->
  Passes uniqueWord false false (postgresField sqlDataTypes f).
Proof. postgres_column_absent idtac. Qed.

Lemma sqliteField_unique (f : Field) :
  f_unique f = false ->
  CleanField uniqueWord f -> Passes uniqueWord false false (sqliteField f).
Proof. intros N. sqlite_column_absent ltac:(rewrite N). Qed.

Lemma sqlServerField_unique (f : Field) :
  f_unique f = false -> f_type f <> "UUID" ->
  CleanField uniqueWord f ->
  Passes uniqueWord false false (sqlServerField sqlDataTypes f).
Proof.
  intros N U. unfold sqlServerField, getTypeString, getTypeString_mssql.
  destruct (String.eqb_spec (f_type f) "UUID") as [E | _]; [contradiction|].
  sqlServer_column_absent ltac:(rewrite N).
Qed.

Lemma mysqlField_increment (obj : Diagram) (f : Field) (line : string) :
  f_increment f = false ->
  (forall ty, In ty (d_types obj) -> CleanCType autoIncrementWord ty) ->
  CleanField autoIncrementWord f ->
  mysqlField sqlDataTypes obj f = Ok line ->
  Passes autoIncrementWord false false line.
Proof.
  intros N.
  mysql_column_absent (jsonCheckClause_no_word autoIncrementWord) ltac:(rewrite N).
Qed.

Lemma mariadbField_increment (obj : Diagram) (f : Field) (line : string) :
  f_increment f = false ->
  (forall ty, In ty (d_types obj) -> CleanCType autoIncrementWord ty) ->
  CleanField autoIncrementWord f ->
  mariadbField sqlDataTypes obj f = Ok line ->
  Passes autoIncrementWord false false line.
Proof.
  intros N.
  mysql_column_absent (jsonCheckClause_no_word autoIncrementWord) ltac:(rewrite N).
Qed.

Lemma sqlServerField_increment (f : Field) :
  f_increment f = false ->
  CleanField identityWord f ->
  Passes identityWord false false (sqlServerField sqlDataTypes f).
Proof. intros N. sqlServer_column_absent ltac:(rewrite N). Qed.

Lemma serial_tests (f : Field) :
  hasSerial (f_type f) && f_increment f = false ->
  (f_type f =? "SMALLINT") && f_increment f = false
  /\ (f_type f =? "INT") && f_increment f = false
  /\ (f_type f =? "BIGINT") && f_increment f = false.
Proof.
  destruct (f_increment f); [|now rewrite !andb_false_r].
  rewrite !andb_true_r. unfold hasSerial. intros H.
  rewrite (includes_false _ _ H "SMALLINT"), (includes_false _ _ H "INT"),
    (includes_false _ _ H "BIGINT"); simpl; tauto.
Qed.

Lemma postgresField_serial (f : Field) :
  hasSerial (f_type f) && f_increment f = false ->
  CleanField serialWord f ->
  Passes serialWord false false (postgresField sqlDataTypes f).
Proof.
  intros N H. apply serial_tests in N as [N1 [N2 N3]]. clean_field H.
  unfold postgresField, getTypeString. compute_tests.
  unfold getTypeString_postgres. rewrite N1, N2, N3.
  postgres_column_cases idtac.
Qed.

Lemma mysqlField_default (obj : Diagram) (f : Field) (line : string) :
  f_default f = "" ->
  (forall ty, In ty (d_types obj) -> CleanCType defaultWord ty) ->
  CleanField defaultWord f ->
  mysqlField sqlDataTypes obj f = Ok line -> Passes defaultWord false false line.
Proof.
  intros N.
  mysql_column_absent (jsonCheckClause_no_word defaultWord) ltac:(rewrite N).
Qed.

Lemma mariadbField_default (obj : Diagram) (f : Field) (line : string) :
  f_default f = "" ->
  (forall ty, In ty (d_types obj) -> CleanCType defaultWord ty) ->
  CleanField defaultWord f ->
  mariadbField sqlDataTypes obj f = Ok line -> Passes defaultWord false false line.
Proof.
  intros N.
  mysql_column_absent (jsonCheckClause_no_word defaultWord) ltac:(rewrite N).
Qed.

Lemma postgresField_default (f : Field) :
  f_default f = "" ->
  CleanField defaultWord f ->
  Passes defaultWord false false (postgresField sqlDataTypes f).
Proof. intros N. postgres_column_absent ltac:(rewrite N). Qed.

Lemma sqliteField_default (f : Field) :
  f_default f = "" ->
  CleanField defaultWord f -> Passes defaultWord false false (sqliteField f).
Proof. intros N. sqlite_column_absent ltac:(rewrite N). Qed.

Lemma sqlServerField_default (f : Field) :
  f_default f = "" ->
  CleanField defaultWord f ->
  Passes defaultWord false false (sqlServerField sqlDataTypes f).
Proof. intros N. sqlServer_column_absent ltac:(rewrite N). Qed.

End ColumnWords.

Lemma word_follows_flag (word line : string) (flag : bool) :
  word <> "" ->
  (flag = true -> Occurs word line) ->
  (flag = false -> Passes word false false line) ->
  WordFollowsFlag word flag line.
Proof.
  intros Hw H1 H0. split.
  - intros O. destruct flag; [reflexivity|]. exfalso.
    exact (Passes_NoOcc word false false line Hw (H0 eq_refl) O).
  - exact H1.
Qed.

Lemma mysqlField_returns (sqlDataTypes : list string) (obj : Diagram) (f : Field) :
  typeResolves sqlDataTypes obj f = true ->
  exists line, mysqlField sqlDataTypes obj f = Ok line.
Proof.
  intros H. unfold mysqlField.
  destruct (jsonCheckClause_total sqlDataTypes dq obj f H) as [s ->].
  cbn [bind]. eauto.
Qed.

Lemma mariadbField_returns (sqlDataTypes : list string) (obj : Diagram) (f : Field) :
  typeResolves sqlDataTypes obj f = true ->
  exists line, mariadbField sqlDataTypes obj f = Ok line.
Proof.
  intros H. unfold mariadbField.
  destruct (jsonCheckClause_total sqlDataTypes "'" obj f H) as [s ->].
  cbn [bind]. eauto.
Qed.

(** The clause that a flag brings stands in the column of MySQL or MariaDB. *)
Ltac mysql_column_present E tac :=
  try unfold mysqlField in E; try unfold mariadbField in E;
  lazymatch type of E with
  | context [jsonCheckClause ?s ?q ?obj ?f] =>
      destruct (jsonCheckClause s q obj f); [|discriminate]
  end;
  cbn [bind] in E; apply Ok_inj in E; rewrite <- E;
  unfold notNullClause, uniqueClause, defaultClause; tac; string_norm; occurs_find.

Ltac column_present tac :=
  unfold postgresField, sqliteField, sqlServerField;
  unfold notNullClause, uniqueClause, defaultClause; tac; string_norm; occurs_find.

Lemma hasSerial_cases (type : string) :
  hasSerial type = true -> type = "SMALLINT" \/ type = "INT" \/ type = "BIGINT".
Proof. unfold hasSerial. rewrite includes_In. simpl. intuition. Qed.

(** X22: in the five dialects a column has the words [NOT NULL] exactly when
    the field is flagged [notNull], for a field and types whose texts do not
    contain these words; the columns of MySQL and MariaDB are those of a
    field whose type resolves. *)
Theorem not_null_exactly_when_flagged (sqlDataTypes : list string)
  (obj : Diagram) (field : Field) :
  forallb (cleanCType notNullWords) (d_types obj) = true ->
  cleanField notNullWords field = true ->
  typeResolves sqlDataTypes obj field = true ->
  (exists line, mysqlField sqlDataTypes obj field = Ok line
     /\ WordFollowsFlag notNullWords (f_notNull field) line)
  /\ (exists line, mariadbField sqlDataTypes obj field = Ok line
        /\ WordFollowsFlag notNullWords (f_notNull field) line)
  /\ WordFollowsFlag notNullWords (f_notNull field) (postgresField sqlDataTypes field)
  /\ WordFollowsFlag notNullWords (f_notNull field) (sqliteField field)
  /\ WordFollowsFlag notNullWords (f_notNull field) (sqlServerField sqlDataTypes field).
Proof.
  intros Hd Hf Ht.
  apply cleanField_spec in Hf. pose proof (cleanTypes_spec _ _ Hd) as Hty.
  split; [|split; [|split; [|split]]].
  - destruct (mysqlField_returns _ _ _ Ht) as [line E]. exists line.
    split; [assumption|]. apply word_follows_flag; [discriminate | |].
    + intros N. mysql_column_present E ltac:(rewrite N).
    + intros N. exact (mysqlField_not_null _ _ _ _ N Hty Hf E).
  - destruct (mariadbField_returns _ _ _ Ht) as [line E]. exists line.
    split; [assumption|]. apply word_follows_flag; [discriminate | |].
    + intros N. mysql_column_present E ltac:(rewrite N).
    + intros N. exact (mariadbField_not_null _ _ _ _ N Hty Hf E).
  - apply word_follows_flag; [discriminate | |].
    + intros N. column_present ltac:(rewrite N).
    + intros N. exact (postgresField_not_null _ _ N Hf).
  - apply word_follows_flag; [discriminate | |].
    + intros N. column_present ltac:(rewrite N).
    + intros N. exact (sqliteField_not_null _ N Hf).
  - apply word_follows_flag; [discriminate | |].
    + intros N. column_present ltac:(rewrite N).
    + intros N. exact (sqlServerField_not_null _ _ N Hf).
Qed.

(** X23: MySQL, MariaDB and SQLite give a column the word [UNIQUE] exactly
    when the field is flagged [unique], and so does SQL Server for a type
    other than [UUID]; the column of PostgreSQL never has it. The texts of
    the field and of the types are free of the word. *)
Theorem unique_exactly_when_flagged (sqlDataTypes : list string)
  (obj : Diagram) (field : Field) :
  forallb (cleanCType uniqueWord) (d_types obj) = true ->
  cleanField uniqueWord field = true ->
  typeResolves sqlDataTypes obj field = true ->
  (exists line, mysqlField sqlDataTypes obj field = Ok line
     /\ WordFollowsFlag uniqueWord (f_unique field) line)
  /\ (exists line, mariadbField sqlDataTypes obj field = Ok line
        /\ WordFollowsFlag uniqueWord (f_unique field) line)
  /\ NoOcc uniqueWord (postgresField sqlDataTypes field)
  /\ WordFollowsFlag uniqueWord (f_unique field) (sqliteField field)
  /\ (f_type field <> "UUID" ->
      WordFollowsFlag uniqueWord (f_unique field) (sqlServerField sqlDataTypes field)).
Proof.
  intros Hd Hf Ht.
  apply cleanField_spec in Hf. pose proof (cleanTypes_spec _ _ Hd) as Hty.
  split; [|split; [|split; [|split]]].
  - destruct (mysqlField_returns _ _ _ Ht) as [line E]. exists line.
    split; [assumption|]. apply word_follows_flag; [discriminate | |].
    + intros N. mysql_column_present E ltac:(rewrite N).
    + intros N. exact (mysqlField_unique _ _ _ _ N Hty Hf E).
  - destruct (mariadbField_returns _ _ _ Ht) as [line E]. exists line.
    split; [assumption|]. apply word_follows_flag; [discriminate | |].
    + intros N. mysql_column_present E ltac:(rewrite N).
    + intros N. exact (mariadbField_unique _ _ _ _ N Hty Hf E).
  - apply (Passes_NoOcc uniqueWord false false); [discriminate|].
    exact (postgresField_unique _ _ Hf).
  - apply word_follows_flag; [discriminate | |].
    + intros N. column_present ltac:(rewrite N).
    + intros N. exact (sqliteField_unique _ N Hf).
  - intros U. apply word_follows_flag; [discriminate | |].
    + intros N. column_present ltac:(rewrite N).
    + intros N. exact (sqlServerField_unique _ _ N U Hf).
Qed.

(** X24: a column has [AUTO_INCREMENT] for MySQL and MariaDB, and [IDENTITY]
    for SQL Server, exactly when the field is flagged [increment]; the column
    of PostgreSQL has the word [serial] exactly when the field is flagged and
    its type is [SMALLINT], [INT] or [BIGINT]. The texts of the field and of
    the types are free of these words. *)
Theorem increment_exactly_when_flagged (sqlDataTypes : list string)
  (obj : Diagram) (field : Field) :
  typeResolves sqlDataTypes obj field = true ->
  (forallb (cleanCType autoIncrementWord) (d_types obj) = true ->
   cleanField autoIncrementWord field = true ->
   (exists line, mysqlField sqlDataTypes obj field = Ok line
      /\ WordFollowsFlag autoIncrementWord (f_increment field) line)
   /\ (exists line, mariadbField sqlDataTypes obj field = Ok line
         /\ WordFollowsFlag autoIncrementWord (f_increment field) line))
  /\ (cleanField identityWord field = true ->
      WordFollowsFlag identityWord (f_increment field)
                      (sqlServerField sqlDataTypes field))
  /\ (cleanField serialWord field = true ->
      WordFollowsFlag serialWord (hasSerial (f_type field) && f_increment field)
                      (postgresField sqlDataTypes field)).
Proof.
  intros Ht. split; [|split].
  - intros Hd Hf. apply cleanField_spec in Hf.
    pose proof (cleanTypes_spec _ _ Hd) as Hty. split.
    + destruct (mysqlField_returns _ _ _ Ht) as [line E]. exists line.
      split; [assumption|]. apply word_follows_flag; [discriminate | |].
      * intros N. mysql_column_present E ltac:(rewrite N).
      * intros N. exact (mysqlField_increment _ _ _ _ N Hty Hf E).
    + destruct (mariadbField_returns _ _ _ Ht) as [line E]. exists line.
      split; [assumption|]. apply word_follows_flag; [discriminate | |].
      * intros N. mysql_column_present E ltac:(rewrite N).
      * intros N. exact (mariadbField_increment _ _ _ _ N Hty Hf E).
  - intros Hf. apply cleanField_spec in Hf.
    apply word_follows_flag; [discriminate | |].
    + intros N. column_present ltac:(rewrite N).
    + intros N. exact (sqlServerField_increment _ _ N Hf).
  - intros Hf. apply cleanField_spec in Hf.
    apply word_follows_flag; [discriminate | |].
    + intros N. apply andb_true_iff in N as [S I].
      unfold postgresField, getTypeString. compute_tests.
      unfold getTypeString_postgres. rewrite I.
      apply hasSerial_cases in S. destruct S as [E | [E | E]]; rewrite E;
        compute_tests; unfold tab; occurs_find.
    + intros N. exact (postgresField_serial _ _ N Hf).
Qed.

(** X25: in the five dialects the column of a field with a default value has
    the clause [DEFAULT] followed by the result of [parseDefault], and the
    column of a field whose default value is empty has no word [DEFAULT], for
    a field and types whose texts do not contain it. *)
Theorem default_clause_exactly_when_set (sqlDataTypes : list string)
  (obj : Diagram) (field : Field) :
  forallb (cleanCType defaultWord) (d_types obj) = true ->
  cleanField defaultWord field = true ->
  typeResolves sqlDataTypes obj field = true ->
  (exists line, mysqlField sqlDataTypes obj field = Ok line /\ DefaultRule field line)
  /\ (exists line, mariadbField sqlDataTypes obj field = Ok line
        /\ DefaultRule field line)
  /\ DefaultRule field (postgresField sqlDataTypes field)
  /\ DefaultRule field (sqliteField field)
  /\ DefaultRule field (sqlServerField sqlDataTypes field).
Proof.
  intros Hd Hf Ht.
  apply cleanField_spec in Hf. pose proof (cleanTypes_spec _ _ Hd) as Hty.
  assert (Set_ : f_default field <> "" -> negb (f_default field =? "") = true).
  { intros N. now destruct (String.eqb_spec (f_default field) ""). }
  split; [|split; [|split; [|split]]].
  - destruct (mysqlField_returns _ _ _ Ht) as [line E]. exists line.
    split; [assumption|]. split.
    + intros N. apply Set_ in N. mysql_column_present E ltac:(rewrite N).
    + intros N. apply (Passes_NoOcc defaultWord false false); [discriminate|].
      exact (mysqlField_default _ _ _ _ N Hty Hf E).
  - destruct (mariadbField_returns _ _ _ Ht) as [line E]. exists line.
    split; [assumption|]. split.
    + intros N. apply Set_ in N. mysql_column_present E ltac:(rewrite N).
    + intros N. apply (Passes_NoOcc defaultWord false false); [discriminate|].
      exact (mariadbField_default _ _ _ _ N Hty Hf E).
  - split.
    + intros N. apply Set_ in N. column_present ltac:(rewrite N).
    + intros N. apply (Passes_NoOcc defaultWord false false); [discriminate|].
      exact (postgresField_default _ _ N Hf).
  - split.
    + intros N. apply Set_ in N. column_present ltac:(rewrite N).
    + intros N. apply (Passes_NoOcc defaultWord false false); [discriminate|].
      exact (sqliteField_default _ N Hf).
  - split.
    + intros N. apply Set_ in N. column_present ltac:(rewrite N).
    + intros N. apply (Passes_NoOcc defaultWord false false); [discriminate|].
      exact (sqlServerField_default _ _ N Hf).
Qed.

Lemma createIndex_unique (qo qc ifNotExists terminator : string)
  (table : Table) (i : Index) :
  In (qo, qc, ifNotExists, terminator) indexDialects ->
  i_unique i = false ->
  NoOcc uniqueWord (t_name table) -> CleanIndex uniqueWord i ->
  Passes uniqueWord false false (createIndex qo qc ifNotExists terminator table i).
Proof.
  intros Hq N Ht H. clean_index H. unfold indexDialects in Hq. cbn [In] in Hq.
  destruct Hq as [E | [E | [E | [E | []]]]]; injection E as <- <- <- <-;
    unfold createIndex; unfold_clauses; rewrite N; string_norm; passes.
Qed.

(** X26: in the five dialects the [CREATE INDEX] statement has the word
    [UNIQUE] exactly when the index is flagged [unique], for names free of
    the word; it names the index, then the table, then the fields of the
    index in their order. *)
Theorem index_unique_exactly_when_flagged (qo qc ifNotExists terminator : string)
  (table : Table) (i : Index) :
  In (qo, qc, ifNotExists, terminator) indexDialects ->
  freeOf uniqueWord (t_name table) = true ->
  cleanIndex uniqueWord i = true ->
  WordFollowsFlag uniqueWord (i_unique i)
                  (createIndex qo qc ifNotExists terminator table i)
  /\ InOrder [ "INDEX " ++ ifNotExists ++ qo ++ i_name i ++ qc;
               "ON " ++ qo ++ t_name table ++ qc ++ " (";
               join ", " (map (fun f => qo ++ f ++ qc) (i_fields i)) ++ ");" ]
             (createIndex qo qc ifNotExists terminator table i).
Proof.
  intros Hq Ht Hi. apply freeOf_NoOcc in Ht. apply cleanIndex_spec in Hi.
  split.
  - apply word_follows_flag; [discriminate | |].
    + intros N. unfold createIndex. rewrite N. unfold nl. string_norm. occurs_find.
    + intros N. exact (createIndex_unique _ _ _ _ _ _ Hq N Ht Hi).
  - unfold createIndex.
    do 3 apply InOrder_skip.
    replace ("INDEX " ++ ifNotExists ++ qo ++ i_name i ++ qc ++ nl ++ "ON " ++ qo
               ++ t_name table ++ qc ++ " ("
               ++ join ", " (map (fun f => qo ++ f ++ qc) (i_fields i)) ++ ");"
               ++ terminator)
      with (("INDEX " ++ ifNotExists ++ qo ++ i_name i ++ qc) ++ nl
              ++ ("ON " ++ qo ++ t_name table ++ qc ++ " (")
              ++ (join ", " (map (fun f => qo ++ f ++ qc) (i_fields i)) ++ ");")
              ++ terminator)
      by (cbn [append]; now rewrite !append_assoc).
    apply InOrder_head, InOrder_skip, InOrder_head, InOrder_one, Occurs_head.
Qed.

(** ** The brackets of a schema *)

Lemma countChar_append (c : ascii) (a b : string) :
  countChar c (a ++ b) = countChar c a + countChar c b.
Proof.
  induction a as [|x a IH]; [reflexivity|].
  cbn [append countChar]. rewrite IH. lia.
Qed.

Lemma bracketFree_count (c : ascii) (s : string) :
  In c ["{"; "}"; "["; "]"]%char -> bracketFree s = true -> countChar c s = 0.
Proof.
  intros Hc. unfold bracketFree. induction s as [|x s IH]; [reflexivity|].
  cbn [forallb_string countChar]. intros H.
  apply andb_true_iff in H as [Hx H]. rewrite (IH H).
  apply negb_true_iff in Hx.
  repeat (apply orb_false_iff in Hx as [Hx ?]).
  cbn [In] in Hc. destruct Hc as [<- | [<- | [<- | [<- | []]]]];
    rewrite Ascii.eqb_sym;
    match goal with X : Ascii.eqb x ?c = false |- context [Ascii.eqb x ?c] =>
      rewrite X end; reflexivity.
Qed.

Lemma countChar_join_free (c : ascii) (sep : string) (l : list string) :
  countChar c sep = 0 -> (forall x, In x l -> countChar c x = 0) ->
  countChar c (join sep l) = 0.
Proof.
  intros Hs. induction l as [|x l IH]; intros H; [reflexivity|].
  rewrite join_cons, countChar_append, (H x (or_introl eq_refl)).
  destruct l as [|y l]; [reflexivity|].
  rewrite countChar_append, Hs, IH; [reflexivity|].
  intros z Hz. apply H. now right.
Qed.

Lemma countChar_join_same (c d : ascii) (sep : string) (l : list string) :
  countChar c sep = countChar d sep ->
  (forall x, In x l -> countChar c x = countChar d x) ->
  countChar c (join sep l) = countChar d (join sep l).
Proof.
  intros Hs. induction l as [|x l IH]; intros H; [reflexivity|].
  rewrite join_cons, !countChar_append, (H x (or_introl eq_refl)).
  destruct l as [|y l]; [reflexivity|].
  rewrite !countChar_append, Hs, IH; [reflexivity|].
  intros z Hz. apply H. now right.
Qed.

Lemma countChar_values (c : ascii) (f : Field) :
  In c ["{"; "}"; "["; "]"]%char -> forallb bracketFree (f_values f) = true ->
  countChar c (join ", " (map (quoted dq) (f_values f))) = 0.
Proof.
  intros Hc H. rewrite forallb_forall in H.
  apply countChar_join_free.
  - cbn [In] in Hc. destruct Hc as [<- | [<- | [<- | [<- | []]]]]; reflexivity.
  - intros x Hx. apply in_map_iff in Hx as [v [<- Hv]].
    unfold quoted. rewrite !countChar_append, (bracketFree_count c v Hc (H v Hv)).
    cbn [In] in Hc. destruct Hc as [<- | [<- | [<- | [<- | []]]]]; reflexivity.
Qed.

Lemma schemaProperty_count (sqlDataTypes : list string) (f : Field) (c d : ascii) :
  (c, d) = ("{", "}")%char \/ (c, d) = ("[", "]")%char ->
  bracketFree (f_name f) && forallb bracketFree (f_values f) = true ->
  countChar c (schemaProperty sqlDataTypes f)
  = countChar d (schemaProperty sqlDataTypes f).
Proof.
  intros Hcd H. apply andb_true_iff in H as [Hn Hv].
  assert (Hc : In c ["{"; "}"; "["; "]"]%char)
    by (destruct Hcd as [E | E]; injection E as -> _; simpl; tauto).
  assert (Hd : In d ["{"; "}"; "["; "]"]%char)
    by (destruct Hcd as [E | E]; injection E as _ ->; simpl; tauto).
  unfold schemaProperty, getJsonType.
  repeat match goal with |- context [if ?b then _ else _] => destruct b end;
    rewrite !countChar_append;
    rewrite ?(countChar_values c f Hc Hv), ?(countChar_values d f Hd Hv),
      (bracketFree_count c _ Hc Hn), (bracketFree_count d _ Hd Hn);
    destruct Hcd as [E | E]; injection E as -> ->; reflexivity.
Qed.

(** X27: [generateSchema] returns for a type that exists, and its text has as
    many opening as closing braces and as many opening as closing square
    brackets when the names and the values of the fields have none. *)
Theorem schema_brackets_balance (sqlDataTypes : list string) (type : CType) :
  plainNames type = true ->
  exists schema,
    generateSchema sqlDataTypes (Some type) = Ok schema /\ Balanced schema.
Proof.
  intros H. unfold plainNames in H. rewrite forallb_forall in H.
  eexists. split; [reflexivity|].
  assert (J : forall c d,
             (c, d) = ("{", "}")%char \/ (c, d) = ("[", "]")%char ->
             countChar c (generateSchemaOf sqlDataTypes type)
             = countChar d (generateSchemaOf sqlDataTypes type)).
  { intros c d Hcd. unfold generateSchemaOf. rewrite !countChar_append.
    rewrite (countChar_join_same c d
               ("," ++ nl ++ tab ++ tab ++ tab ++ tab)
               (map (schemaProperty sqlDataTypes) (ty_fields type))).
    - generalize (countChar d (join ("," ++ nl ++ tab ++ tab ++ tab ++ tab)
                                   (map (schemaProperty sqlDataTypes) (ty_fields type)))).
      intros n. destruct Hcd as [E | E]; injection E as -> ->; cbn; lia.
    - destruct Hcd as [E | E]; injection E as -> ->; reflexivity.
    - intros x Hx. apply in_map_iff in Hx as [f [<- Hf]].
      exact (schemaProperty_count sqlDataTypes f c d Hcd (H f Hf)). }
  split; apply J; tauto.
Qed.

End Exporters.

(* ------------------------------------------------------------------ *)
(** * The properties on the sample diagrams

    The case mapping is [asciiCaseMapping]: the samples are ASCII text, on
    which every case mapping agrees with it ([toUpperCase_ascii],
    [toLowerCase_ascii]). *)

#[global] Existing Instance asciiCaseMapping.

(** C1, as stated, fails in both directions. The default of an [ENUM] field
    is wrapped in single quotes by [parseDefault], while the rule of the
    specification counts enumerations among the types that need no quoting;
    and the defaults of a [TEXT], of a [UUID] and of a [BLOB] field are
    returned as they are, while these types of the vocabulary are none of
    those that the rule exempts. *)
Lemma parseDefault_departs_from_rule :
  (parseDefault enumFieldWithDefault = "'active'"
   /\ serializeDefault_spec builtinTypes enumFieldWithDefault = "active")
  /\ (parseDefault textFieldWithDefault = "hello"
      /\ serializeDefault_spec builtinTypes textFieldWithDefault = "'hello'")
  /\ (parseDefault uuidFieldWithDefault = "123e4567"
      /\ serializeDefault_spec builtinTypes uuidFieldWithDefault = "'123e4567'")
  /\ (parseDefault blobFieldWithDefault = "abc"
      /\ serializeDefault_spec builtinTypes blobFieldWithDefault = "'abc'").
Proof. vm_compute. repeat split. Qed.

Lemma parseDefault_rule_witness :
  parseDefault dateFieldWithDefault = "'" ++ f_default dateFieldWithDefault ++ "'"
  /\ parseDefault intFieldWithDefault = f_default intFieldWithDefault.
Proof.
  split.
  - apply (proj2 (parseDefault_rule dateFieldWithDefault)).
    + rewrite <- strHasQuotes_spec. vm_compute. discriminate.
    + rewrite <- isFunction_spec. vm_compute. discriminate.
    + rewrite <- isKeyword_spec. vm_compute. discriminate.
    + vm_compute. tauto.
  - apply (proj1 (parseDefault_rule intFieldWithDefault)).
    right. right. right. vm_compute. intuition discriminate.
Defined.

Lemma isFunction_anchored_at_end_only_witness :
  hasQuotes (f_type textWithCallField) = true
  /\ isFunction (f_default textWithCallField) = true
  /\ parseDefault textWithCallField = "abc foo(1)".
Proof.
  split; [reflexivity|].
  destruct (isFunction_anchored_at_end_only textWithCallField "abc " "foo" "1")
    as [F [P _]].
  - discriminate.
  - reflexivity.
  - reflexivity.
  - reflexivity.
  - split; [exact F | exact P].
Defined.

(** C4, as stated, fails for SQL Server: a type name outside the vocabulary
    is emitted as it is, not as [NVARCHAR(MAX)]. *)
Lemma getTypeString_mssql_unknown_is_not_nvarchar :
  includes builtinTypes (f_type pointField) = false
  /\ getTypeString builtinTypes pointField "mssql" false = Some "POINT"
  /\ getTypeString builtinTypes pointField "mssql" false <> Some "NVARCHAR(MAX)".
Proof. vm_compute. repeat split; discriminate. Qed.

Lemma unknown_type_mapping_witness :
  getTypeString builtinTypes pointField "mysql" false = Some "JSON"
  /\ getSQLiteType pointField = "BLOB"
  /\ getTypeString builtinTypes pointField "mssql" false = Some "POINT"
  /\ getTypeString builtinTypes pointField "postgres" false = Some "point".
Proof.
  refine (unknown_type_mapping builtinTypes pointField false _ _).
  - intros x Hx. exact Hx.
  - reflexivity.
Defined.

(** The mapping does not fail, but the MySQL and MariaDB generators do when
    the unknown type is not declared in the diagram: [generateSchema] reads
    [fields] of the [undefined] that [find] returns. *)
Lemma undeclared_type_raises :
  getTypeString builtinTypes pointField "mysql" false = Some "JSON"
  /\ jsonToMySQL builtinTypes undeclaredTypeDiagram = TypeError
  /\ jsonToMariaDB builtinTypes undeclaredTypeDiagram = TypeError.
Proof. vm_compute. repeat split. Qed.

Lemma sqlServerType_reads_first_field_witness :
  sqlServerType builtinTypes pointType
  = Ok ("CREATE TYPE [point] FROM POINT;" ++ nl ++ "GO" ++ nl)
  /\ jsonToSQLServer builtinTypes (mkDiagram [] [] [mkCType "empty" "" []])
     = TypeError.
Proof.
  split.
  - apply (proj1 (proj2 (sqlServerType_reads_first_field builtinTypes pointType))
             (plainField "x" "POINT") []).
    reflexivity.
  - apply (proj2 (proj2 (sqlServerType_reads_first_field builtinTypes
                           (mkCType "empty" "" [])))).
    + reflexivity.
    + left. reflexivity.
Defined.

Lemma enum_columns_witness :
  (exists out, jsonToMySQL builtinTypes shopDiagram = Ok out
     /\ Occurs ("`status` ENUM(" ++ dq ++ "active" ++ dq ++ ", "
                  ++ dq ++ "banned" ++ dq ++ ")") out)
  /\ (exists out, jsonToSQLite shopDiagram = Ok out
        /\ Occurs (dq ++ "status" ++ dq ++ " TEXT CHECK(" ++ dq ++ "status" ++ dq
                     ++ " in ('active', 'banned'))") out)
  /\ (exists out, jsonToPostgreSQL builtinTypes shopDiagram = Ok out
        /\ OccursBefore
             ("CREATE TYPE " ++ dq ++ "status_t" ++ dq
                ++ " AS ENUM ('active', 'banned');")
             (dq ++ "status" ++ dq ++ " status_t")
             out).
Proof.
  destruct (enum_columns builtinTypes shopDiagram usersTable statusField)
    as [M [_ [S P]]].
  - simpl. tauto.
  - simpl. tauto.
  - reflexivity.
  - split; [exact (M eq_refl eq_refl)|].
    split; [exact (S eq_refl) | exact (P eq_refl)].
Defined.



Lemma sqlite_inline_foreign_key_witness :
  getInlineFK ordersTable twoReferencesDiagram
  = inlineFKClause ordersTable twoReferencesDiagram shopReference
  /\ (exists stmt, sqliteTable twoReferencesDiagram ordersTable = Ok stmt
                   /\ OccursOnce foreignKeyWords stmt)
  /\ (forall out, jsonToSQLite twoReferencesDiagram = Ok out ->
                  NoOcc alterTableWords out)
  /\ (exists out stmt, jsonToSQLite twoReferencesDiagram = Ok out
                       /\ sqliteTable twoReferencesDiagram ordersTable = Ok stmt
                       /\ Occurs stmt out).
Proof.
  destruct (sqlite_inline_foreign_key twoReferencesDiagram ordersTable)
    as [F [_ [_ [_ [O [A T]]]]]].
  - simpl. tauto.
  - split.
    + apply (F [] shopReference [secondReference]).
      * reflexivity.
      * intros r' [].
      * reflexivity.
    + split.
      * destruct (T eq_refl) as [out [stmt [_ [Hs _]]]].
        exists stmt. split; [exact Hs|].
        apply (O eq_refl stmt Hs).
        exists shopReference. split; [simpl; tauto | reflexivity].
      * split; [apply A; reflexivity | apply T; reflexivity].
Defined.

(** In a table without primary key the clause follows the last column line
    directly, with no comma between them. *)
Lemma sqlite_foreign_key_after_column :
  exists stmt,
    sqliteTable shopDiagram ordersTable = Ok stmt
    /\ Occurs (dq ++ "user_id" ++ dq ++ " INTEGER" ++ tab ++ "FOREIGN KEY (") stmt.
Proof.
  eexists. split; [vm_compute; reflexivity|].
  apply occursb_spec. vm_compute. reflexivity.
Qed.

Lemma index_statements_separator_witness :
  (exists out, jsonToMySQL builtinTypes shopDiagram = Ok out
     /\ Occurs commaBeforeCreate out)
  /\ (exists out, jsonToSQLite shopDiagram = Ok out
        /\ NoOcc commaBeforeCreate out).
Proof.
  destruct (index_statements_separator builtinTypes shopDiagram usersTable
              [] [] (mkIndex "by_status" false ["status"]) (mkIndex "by_id" true ["id"]))
    as [M [_ [_ [_ S]]]].
  - simpl. tauto.
  - reflexivity.
  - split.
    + destruct M as [out [Ho [_ O]]]; [reflexivity | reflexivity |].
      exists out. split; assumption.
    + destruct S as [out [Ho [_ N]]]; [reflexivity|].
      exists out. split; [assumption | apply N; reflexivity].
Defined.

Lemma primary_key_clause_witness :
  (hasPrimary usersTable = true
   /\ OccursOnce primaryKeyWords (postgresTable builtinTypes usersTable)
   /\ PrimaryKeyPlace dq dq usersTable
        (join ("," ++ nl) (map (postgresField builtinTypes) (t_fields usersTable)))
        "" (postgresTable builtinTypes usersTable))
  /\ (hasPrimary ordersTable = false
      /\ NoOcc primaryKeyWords (sqlServerTable builtinTypes ordersTable))
  /\ InOutput (jsonToSQLite shopDiagram) (sqliteTable shopDiagram usersTable).
Proof.
  destruct (primary_key_clause builtinTypes shopDiagram usersTable)
    as [_ [_ [_ [_ [[P1 P2] [_ [_ [_ [_ [_ [_ S]]]]]]]]]]]; [simpl; tauto|].
  destruct (primary_key_clause builtinTypes shopDiagram ordersTable)
    as [_ [_ [_ [_ [_ [[_ Q2] _]]]]]]; [simpl; tauto|].
  split; [|split].
  - split; [reflexivity|]. split.
    + apply (proj1 (P2 eq_refl)). reflexivity.
    + apply P1. reflexivity.
  - split; [reflexivity|]. apply (proj2 (Q2 eq_refl)). reflexivity.
  - apply S. reflexivity.
Defined.

Lemma default_size_rendering_witness :
  getTypeString builtinTypes
    (mkField "title" "VARCHAR" (getSize "VARCHAR") [] false false false false "" "" "")
    "mysql" false
  = Some "VARCHAR(255)".
Proof.
  destruct (default_size_rendering builtinTypes
              (mkField "title" "VARCHAR" (getSize "VARCHAR") [] false false false
                       false "" "" "")) as [H _].
  - reflexivity.
  - exact (H eq_refl).
Defined.

Lemma sized_type_without_size_witness :
  getTypeString builtinTypes (plainField "title" "VARCHAR") "mysql" false
  = Some "VARCHAR"
  /\ getTypeString builtinTypes (plainField "title" "VARCHAR") "postgres" false
     = Some "varchar(undefined)"
  /\ getTypeString builtinTypes (plainField "title" "VARCHAR") "mssql" false
     = Some "NVARCHAR(undefined)".
Proof.
  destruct (sized_type_without_size builtinTypes (plainField "title" "VARCHAR"))
    as [M [[b P] S]].
  - reflexivity.
  - reflexivity.
  - split; [exact M|]. split; [reflexivity|].
    destruct S as [b' S']; [discriminate | reflexivity].
Defined.

Lemma precision_type_size_witness :
  getTypeString builtinTypes (priceField (SizeString "10,2")) "postgres" false
  = Some "DECIMAL10,2"
  /\ getTypeString builtinTypes (priceField SizeUndefined) "postgres" false
     = Some "DECIMALundefined"
  /\ getTypeString builtinTypes (priceField (SizeString "")) "postgres" false
     = Some "decimal".
Proof.
  split; [|split].
  - exact (proj1 (precision_type_size builtinTypes (priceField (SizeString "10,2"))
                    eq_refl)).
  - exact (proj1 (precision_type_size builtinTypes (priceField SizeUndefined)
                    eq_refl)).
  - exact (proj1 (precision_type_size builtinTypes (priceField (SizeString ""))
                    eq_refl)).
Defined.

Lemma nested_call_default_is_quoted_witness :
  isFunction "lower(trim(x))" = false
  /\ parseDefault nestedCallField = "'lower(trim(x))'".
Proof.
  destruct (nested_call_default_is_quoted nestedCallField "lower(trim(x") as [F P].
  - reflexivity.
  - split; [exact F | exact (P eq_refl)].
Defined.

Lemma keyword_default_any_case_witness :
  parseDefault (mkField "at" "TIMESTAMP" SizeUndefined [] false false false false
                        "Current_Timestamp" "" "")
  = "Current_Timestamp".
Proof.
  apply (keyword_default_any_case
           (mkField "at" "TIMESTAMP" SizeUndefined [] false false false false
                    "Current_Timestamp" "" "")
           "CURRENT_TIMESTAMP").
  - reflexivity.
  - reflexivity.
  - reflexivity.
Defined.

Lemma custom_type_column_witness :
  exists line,
    mysqlField builtinTypes declaredTypeDiagram pointField = Ok line
    /\ InOrder [ "`location` JSON";
                 schemaCheck builtinTypes dq pointType pointField ] line.
Proof.
  destruct (custom_type_column builtinTypes declaredTypeDiagram pointField pointType)
    as [M _].
  - intros x Hx. exact Hx.
  - reflexivity.
  - reflexivity.
  - exact M.
Defined.

Lemma set_columns_witness :
  (exists out, jsonToMySQL builtinTypes typesDiagram = Ok out
     /\ Occurs ("`tags` SET(" ++ dq ++ "bug" ++ dq ++ ", "
                  ++ dq ++ "feature" ++ dq ++ ")") out)
  /\ (exists out, jsonToPostgreSQL builtinTypes typesDiagram = Ok out
        /\ OccursBefore
             ("CREATE TYPE " ++ dq ++ "tags_t" ++ dq
                ++ " AS ENUM ('bug', 'feature');")
             (dq ++ "tags" ++ dq ++ " tags_t[]")
             out)
  /\ (exists out, jsonToSQLite typesDiagram = Ok out
        /\ Occurs (dq ++ "tags" ++ dq ++ " BLOB") out).
Proof.
  destruct (set_columns builtinTypes typesDiagram twoEnumsTable tagsField)
    as [M [_ [P [S _]]]].
  - simpl. tauto.
  - simpl. tauto.
  - reflexivity.
  - split; [exact (M eq_refl eq_refl)|].
    split; [exact (P eq_refl) | exact (S eq_refl)].
Defined.

Lemma statements_order_witness :
  exists out fk,
    jsonToPostgreSQL builtinTypes shopDiagram = Ok out
    /\ alterTable dq dq "" shopDiagram shopReference = Ok fk
    /\ InOrder [postgresTable builtinTypes ordersTable; fk] out.
Proof.
  destruct (statements_order builtinTypes shopDiagram ordersTable shopReference)
    as [_ [_ [P _]]].
  - simpl. tauto.
  - simpl. tauto.
  - destruct P as [out [fk [Ho [Hf [Hi _]]]]]; [reflexivity|].
    exists out, fk. repeat split; assumption.
Defined.

Lemma tables_keep_their_order_witness :
  exists out st su,
    jsonToSQLite shopDiagram = Ok out
    /\ sqliteTable shopDiagram usersTable = Ok st
    /\ sqliteTable shopDiagram ordersTable = Ok su
    /\ InOrder [st; su] out.
Proof.
  destruct (tables_keep_their_order builtinTypes shopDiagram [] [] []
              usersTable ordersTable) as [_ [_ [_ [S _]]]].
  - reflexivity.
  - apply S. reflexivity.
Defined.

Lemma postgres_composite_type_witness :
  exists out,
    jsonToPostgreSQL builtinTypes typesDiagram = Ok out
    /\ InOrder [ createEnumType nl tagsField;
                 "CREATE TYPE label AS (" ++ nl;
                 tab ++ "tags tags_t[]" ] out.
Proof.
  apply (postgres_composite_type builtinTypes typesDiagram labelType tagsField).
  - simpl. tauto.
  - simpl. tauto.
  - reflexivity.
  - reflexivity.
Defined.

Lemma type_statements_separator_witness :
  exists out,
    jsonToPostgreSQL builtinTypes typesDiagram = Ok out
    /\ Occurs (postgresType builtinTypes labelType ++ ","
                 ++ postgresType builtinTypes pointType) out.
Proof.
  destruct (type_statements_separator builtinTypes typesDiagram [] [] labelType pointType)
    as [P _].
  - reflexivity.
  - apply P. reflexivity.
Defined.

Lemma enum_type_statements_separator_witness :
  Occurs (createEnumType (nl ++ nl) stateField ++ ","
            ++ createEnumType (nl ++ nl) tagsField)
         (postgresTable builtinTypes twoEnumsTable)
  /\ Occurs (createEnumType nl stateField ++ createEnumType nl tagsField)
            (postgresType builtinTypes labelType).
Proof.
  destruct (enum_type_statements_separator builtinTypes (t_fields twoEnumsTable)
              [] [] stateField tagsField) as [T C].
  - reflexivity.
  - split; [exact (T twoEnumsTable eq_refl) | exact (C labelType eq_refl)].
Defined.

Lemma sqlite_foreign_key_separator_witness :
  exists stmt fk,
    sqliteTable shopDiagram ordersTable = Ok stmt
    /\ inlineFKClause ordersTable shopDiagram shopReference = Ok fk
    /\ Occurs (sqliteField (plainField "user_id" "INT") ++ tab ++ fk ++ nl ++ ");") stmt.
Proof.
  destruct (sqlite_foreign_key_separator shopDiagram ordersTable shopReference
              [plainField "id" "INT"] (plainField "user_id" "INT"))
    as [stmt [fk [Hs [Hf [_ N]]]]].
  - reflexivity.
  - reflexivity.
  - reflexivity.
  - exists stmt, fk. split; [exact Hs|]. split; [exact Hf|]. apply N. reflexivity.
Defined.

Lemma not_null_exactly_when_flagged_witness :
  Occurs notNullWords (sqliteField codeField)
  /\ ~ Occurs notNullWords (sqliteField statusField).
Proof.
  split.
  - destruct (not_null_exactly_when_flagged builtinTypes shopDiagram codeField)
      as [_ [_ [_ [[_ S] _]]]]; try reflexivity.
    apply S. reflexivity.
  - destruct (not_null_exactly_when_flagged builtinTypes shopDiagram statusField)
      as [_ [_ [_ [[S _] _]]]]; try reflexivity.
    intros O. specialize (S O). discriminate.
Defined.

Lemma unique_exactly_when_flagged_witness :
  Occurs uniqueWord (sqliteField codeField)
  /\ NoOcc uniqueWord (postgresField builtinTypes codeField).
Proof.
  destruct (unique_exactly_when_flagged builtinTypes shopDiagram codeField)
    as [_ [_ [P [[_ S] _]]]]; try reflexivity.
  split; [apply S; reflexivity | exact P].
Defined.

Lemma increment_exactly_when_flagged_witness :
  (exists line, mysqlField builtinTypes shopDiagram codeField = Ok line
     /\ Occurs autoIncrementWord line)
  /\ Occurs identityWord (sqlServerField builtinTypes codeField)
  /\ Occurs serialWord (postgresField builtinTypes codeField).
Proof.
  destruct (increment_exactly_when_flagged builtinTypes shopDiagram codeField)
    as [M [[_ S] [_ P]]]; try reflexivity.
  destruct M as [[line [E [_ M]]] _]; try reflexivity.
  split; [exists line; split; [exact E | apply M; reflexivity]|].
  split; [apply S; reflexivity | apply P; reflexivity].
Defined.

Lemma default_clause_exactly_when_set_witness :
  Occurs " DEFAULT 7" (sqliteField codeField)
  /\ NoOcc defaultWord (sqliteField statusField).
Proof.
  split.
  - destruct (default_clause_exactly_when_set builtinTypes shopDiagram codeField)
      as [_ [_ [_ [[S _] _]]]]; try reflexivity.
    apply S. discriminate.
  - destruct (default_clause_exactly_when_set builtinTypes shopDiagram statusField)
      as [_ [_ [_ [[_ S] _]]]]; try reflexivity.
    apply S. reflexivity.
Defined.

Lemma index_unique_exactly_when_flagged_witness :
  Occurs uniqueWord
    (createIndex dq dq "IF NOT EXISTS " "" usersTable (mkIndex "by_id" true ["id"]))
  /\ NoOcc uniqueWord
       (createIndex dq dq "IF NOT EXISTS " "" usersTable
                    (mkIndex "by_status" false ["status"])).
Proof.
  split.
  - destruct (index_unique_exactly_when_flagged dq dq "IF NOT EXISTS " ""
                usersTable (mkIndex "by_id" true ["id"])) as [[_ U] _];
      try reflexivity.
    + unfold indexDialects. simpl. tauto.
    + apply U. reflexivity.
  - destruct (index_unique_exactly_when_flagged dq dq "IF NOT EXISTS " ""
                usersTable (mkIndex "by_status" false ["status"])) as [[U _] _];
      try reflexivity.
    + unfold indexDialects. simpl. tauto.
    + intros O. specialize (U O). discriminate.
Defined.

Lemma schema_brackets_balance_witness :
  exists schema,
    generateSchema builtinTypes (Some labelType) = Ok schema /\ Balanced schema.
Proof. apply schema_brackets_balance. reflexivity. Defined.

(** ** Scenarios

    The outputs for the diagram [shopDiagram]: a table [users] with the fields
    [id] (INT, primary, increment) and [status] (ENUM of [active] and
    [banned]), and a reference from [orders.user_id] to [users.id] with the
    delete action [cascade]. *)

Example scenario_mysql :
  exists out,
    jsonToMySQL builtinTypes shopDiagram = Ok out
    /\ Occurs "CREATE TABLE `users`" out
    /\ Occurs ("`status` ENUM(" ++ dq ++ "active" ++ dq ++ ", " ++ dq ++ "banned"
                 ++ dq ++ ")") out
    /\ Occurs "PRIMARY KEY(`id`)" out.
Proof.
  eexists. split; [vm_compute; reflexivity|].
  repeat split; apply occursb_spec; vm_compute; reflexivity.
Qed.

Example scenario_sqlite :
  exists out,
    jsonToSQLite shopDiagram = Ok out
    /\ Occurs ("CREATE TABLE IF NOT EXISTS " ++ dq ++ "users" ++ dq) out
    /\ Occurs (dq ++ "status" ++ dq ++ " TEXT CHECK(" ++ dq ++ "status" ++ dq
                 ++ " in ('active', 'banned'))") out.
Proof.
  eexists. split; [vm_compute; reflexivity|].
  repeat split; apply occursb_spec; vm_compute; reflexivity.
Qed.

Example scenario_postgres :
  exists out,
    jsonToPostgreSQL builtinTypes shopDiagram = Ok out
    /\ Occurs ("ALTER TABLE " ++ dq ++ "orders" ++ dq ++ nl
                 ++ "ADD FOREIGN KEY(" ++ dq ++ "user_id" ++ dq ++ ") REFERENCES "
                 ++ dq ++ "users" ++ dq ++ "(" ++ dq ++ "id" ++ dq ++ ")" ++ nl
                 ++ "ON UPDATE NO ACTION ON DELETE CASCADE;") out.
Proof.
  eexists. split; [vm_compute; reflexivity|].
  apply occursb_spec. vm_compute. reflexivity.
Qed.
